(** * feathers-offline-owndata: the replication engine, replicator and
      own-data mutator, embedded from the JavaScript sources

    - [src/commons/base-engine.js]      -> Module [BaseEngine]
    - [src/commons/base-replicator.js]  -> Module [BaseReplicator]
    - [src/commons/owndata-mutator.js]  -> Module [Mutator]

    JavaScript values are embedded in the inductive type [Value]; objects are
    ordered association lists; the mutable engine object is threaded through
    every method explicitly, and a method that can throw returns the engine it
    leaves behind together with either the error or its return value. *)

From Stdlib Require Import ZArith List String Ascii Bool Lia Permutation.
From Stdlib Require OrderedTypeEx.
From Stdlib Require Import Sorted.
Import ListNotations.

Local Open Scope string_scope.
Local Open Scope list_scope.
Local Open Scope Z_scope.

Set Warnings "-register-all".

(* ================================================================== *)
(** * JavaScript values *)
(* ================================================================== *)

Module JS.

(** Numbers are integers ([NaN], infinities and fractions are outside the
    model); a [Date] is identified with its time value in milliseconds. *)
Inductive Value : Type :=
| VUndefined
| VNull
| VBool (b : bool)
| VNum (n : Z)
| VStr (s : string)
| VDate (ms : Z)
| VArr (items : list Value)
| VObj (fields : list (string * Value)).

(** A plain object: its own enumerable properties in insertion order. *)
Definition Obj : Type := list (string * Value).

(** [o[k]] on an object; an absent property reads [undefined]. *)
Fixpoint getProp (o : Obj) (k : string) : Value :=
  match o with
  | [] => VUndefined
  | (k', v) :: o' => if String.eqb k' k then v else getProp o' k
  end.

(** [k in o]. *)
Fixpoint hasProp (o : Obj) (k : string) : bool :=
  match o with
  | [] => false
  | (k', _) :: o' => String.eqb k' k || hasProp o' k
  end.

(** [o[k] = v]: overwrite in place, or add as the newest property. *)
Fixpoint setProp (o : Obj) (k : string) (v : Value) : Obj :=
  match o with
  | [] => [(k, v)]
  | (k', v') :: o' =>
      if String.eqb k' k then (k', v) :: o' else (k', v') :: setProp o' k v
  end.

(** [delete o[k]]. *)
Definition deleteProp (o : Obj) (k : string) : Obj :=
  filter (fun kv => negb (String.eqb (fst kv) k)) o.

(** [Object.assign(target, src)]. *)
Definition assign (target src : Obj) : Obj :=
  fold_left (fun acc kv => setProp acc (fst kv) (snd kv)) src target.

(** [array.slice(start)]: a negative [start] counts from the end. *)
Definition slice_from {A} (l : list A) (start : Z) : list A :=
  let len := Z.of_nat (List.length l) in
  let k := if start <? 0 then Z.max (len + start) 0 else start in
  skipn (Z.to_nat k) l.

(** [array.slice(0, stop)]: a negative [stop] counts from the end. *)
Definition slice_to {A} (l : list A) (stop : Z) : list A :=
  let len := Z.of_nat (List.length l) in
  let k := if stop <? 0 then Z.max (len + stop) 0 else stop in
  firstn (Z.to_nat k) l.

(** Truthiness ([ToBoolean]). *)
Definition truthy (v : Value) : bool :=
  match v with
  | VUndefined | VNull => false
  | VBool b => b
  | VNum n => negb (n =? 0)
  | VStr s => negb (String.eqb s EmptyString)
  | VDate _ | VArr _ | VObj _ => true
  end.

Definition is_digit (c : ascii) : bool :=
  let n := N_of_ascii c in (48 <=? n)%N && (n <=? 57)%N.

Fixpoint digits_value (s : string) (acc : Z) : option Z :=
  match s with
  | EmptyString => Some acc
  | String c s' =>
      if is_digit c
      then digits_value s' (10 * acc + (Z.of_N (N_of_ascii c) - 48))
      else None
  end.

(** [ToNumber] on a string, [None] for [NaN].  Decimal integer literals
    with an optional sign and the empty string are read; every other
    string is [NaN] here (the number domain is [Z]). *)
Definition StringToNumber (s : string) : option Z :=
  match s with
  | EmptyString => Some 0
  | String "-" (String c r) => option_map Z.opp (digits_value (String c r) 0)
  | String "+" (String c r) => digits_value (String c r) 0
  | _ => digits_value s 0
  end.

(** [ToNumber], [None] for [NaN]. *)
Definition ToNumber (v : Value) : option Z :=
  match v with
  | VUndefined => None
  | VNull => Some 0
  | VBool b => Some (if b then 1 else 0)
  | VNum n => Some n
  | VStr s => StringToNumber s
  | VDate ms => Some ms
  | VArr _ | VObj _ => None
  end.

(** [a === b].  Two object values are compared by reference in
    JavaScript; the embedding has no references and takes object values
    (also dates and arrays) as distinct. *)
Definition strict_eq (a b : Value) : bool :=
  match a, b with
  | VUndefined, VUndefined => true
  | VNull, VNull => true
  | VBool x, VBool y => Bool.eqb x y
  | VNum x, VNum y => x =? y
  | VStr x, VStr y => String.eqb x y
  | _, _ => false
  end.

(** [a == b]: [null] and [undefined] equal each other and nothing else,
    equal types compare as [===], a number and a string (or boolean)
    compare as numbers.  Object values as for [strict_eq]. *)
Definition loose_eq (a b : Value) : bool :=
  match a, b with
  | (VUndefined | VNull), (VUndefined | VNull) => true
  | (VUndefined | VNull), _ | _, (VUndefined | VNull) => false
  | (VDate _ | VArr _ | VObj _), _ | _, (VDate _ | VArr _ | VObj _) => false
  | VNum x, VNum y => x =? y
  | VStr x, VStr y => String.eqb x y
  | VBool x, VBool y => Bool.eqb x y
  | _, _ =>
      match ToNumber a, ToNumber b with
      | Some x, Some y => x =? y
      | _, _ => false
      end
  end.

(** [ToPrimitive] with hint number (an array stays as it is and then
    counts as [NaN]). *)
Definition ToPrimitive (v : Value) : Value :=
  match v with
  | VDate ms => VNum ms
  | VObj _ => VStr "[object Object]"
  | _ => v
  end.

(** [a < b]: two strings compare by code units, anything else as
    numbers, and a comparison with [NaN] is false. *)
Definition js_lt (a b : Value) : bool :=
  match ToPrimitive a, ToPrimitive b with
  | VStr x, VStr y => String.ltb x y
  | pa, pb =>
      match ToNumber pa, ToNumber pb with
      | Some x, Some y => x <? y
      | _, _ => false
      end
  end.

(** [a > b]. *)
Definition js_gt (a b : Value) : bool := js_lt b a.

(** [v[k]] on any value: reading a property of [null] or [undefined]
    throws, a primitive has none of the properties read in this program
    ([id], [_id], [uuid], [query], [updatedAt]). *)
Definition readProp (v : Value) (k : string) : option Value :=
  match v with
  | VUndefined | VNull => None
  | VObj o => Some (getProp o k)
  | _ => Some VUndefined
  end.

(** [array.splice(index, 1)]. *)
Definition splice1 {A} (l : list A) (index : Z) : list A :=
  firstn (Z.to_nat index) l ++ skipn (S (Z.to_nat index)) l.

(** [array.splice(index, 0, x)]. *)
Definition splice_in {A} (l : list A) (index : Z) (x : A) : list A :=
  firstn (Z.to_nat index) l ++ x :: skipn (Z.to_nat index) l.

(** [Array.prototype.sort(cmp)], as a stable insertion sort: [x] is placed
    after every element that does not compare greater than it. *)
Fixpoint sort_insert {A} (cmp : A -> A -> Z) (x : A) (l : list A) : list A :=
  match l with
  | [] => [x]
  | y :: l' => if cmp y x <=? 0 then y :: sort_insert cmp x l' else x :: y :: l'
  end.

Definition array_sort {A} (cmp : A -> A -> Z) (l : list A) : list A :=
  fold_left (fun acc x => sort_insert cmp x acc) l [].

End JS.
Import JS.

(* ================================================================== *)
(** * Errors *)
(* ================================================================== *)

(** The two @feathersjs/errors classes the sources construct, and the
    [TypeError] the language raises on a property read of [null] or
    [undefined], on [in] applied to a non-object and on a call of a
    non-function. *)
Inductive Error : Type :=
| BadRequest (message : string)
| NotFound (message : string)
| TypeError.

(** Completion of a call: a returned value or a thrown error. *)
Inductive Result (A : Type) : Type :=
| Return (a : A)
| Throw (err : Error).
Arguments Return {A} a.
Arguments Throw {A} err.

Definition is_BadRequest {A} (r : Result A) : bool :=
  match r with Throw (BadRequest _) => true | _ => false end.

Definition is_NotFound {A} (r : Result A) : bool :=
  match r with Throw (NotFound _) => true | _ => false end.

(** Sequencing of fallible steps that touch no state. *)
Definition bindR {A B} (r : Result A) (k : A -> Result B) : Result B :=
  match r with
  | Return a => k a
  | Throw err => Throw err
  end.

Notation "'try' x <- c1 ;; c2" := (bindR c1 (fun x => c2))
  (at level 61, x name, c1 at next level, right associativity).

(** [k in v]: only objects may stand on the right of [in]; an array or a
    date has none of the properties asked for in this program ([id],
    [uuid]). *)
Definition js_in (k : string) (v : Value) : Result bool :=
  match v with
  | VObj o => Return (hasProp o k)
  | VArr _ | VDate _ => Return false
  | _ => Throw TypeError
  end.

(** [v[k]] with the [TypeError] of a [null] or [undefined] base. *)
Definition js_get (v : Value) (k : string) : Result Value :=
  match readProp v k with
  | Some x => Return x
  | None => Throw TypeError
  end.

(* ================================================================== *)
(** * base-engine.js *)
(* ================================================================== *)

Module BaseEngine.

(** [const DOB = '2020-05-26T00:00:00.001Z'] *)
Definition DOB : Value := VStr "2020-05-26T00:00:00.001Z".

(** An entry of [store.queued]: [{ eventName, record, args }].  [args] is
    the object [{ ...args }] with keys "0", "1", ...: the positional
    arguments in order.  [record] is whatever the caller handed over (the
    mutator hands over the return value of [_mutateStore], which can be
    [undefined]). *)
Record QueuedMutation : Type := mkQueued {
  eventName : string;
  record : Value;
  args : list Value
}.

(** [this.store]. [last] is the object literal assigned by the code. *)
Record Store : Type := mkStore {
  syncedAt : Value;
  last : Obj;
  records : list Obj;
  queued : list QueuedMutation
}.

(** What a listener on the ['events'] topic, or the subscriber, receives:
    the content of the records array and of the descriptor at that moment. *)
Record Emission : Type := mkEmission {
  with_records : list Obj;
  with_last : Obj
}.

(** The engine object.  [emitted] and [notified] log the calls
    [this.emit('events', ...)] and [this._subscriber(...)] oldest first;
    [attached] lists the remote topics on which a listener of this engine
    is registered ([service.on] adds one registration, also when one
    exists). *)
Record Engine : Type := mkEngine {
  _publication : option (Obj -> bool);
  _sorter : option (Obj -> Obj -> Z);
  useUuid : bool;
  useUpdatedAt : bool;
  listening : bool;
  store : Store;
  emitted : list Emission;
  notified : list Emission;
  attached : list string
}.

(** [new BaseEngine(service, options)]. *)
Definition constructor (publication : option (Obj -> bool))
    (sort : option (Obj -> Obj -> Z)) (uuid updatedAt : bool) : Engine :=
  {| _publication := publication;
     _sorter := sort;
     useUuid := uuid;
     useUpdatedAt := updatedAt;
     listening := false;
     store := {| syncedAt := DOB;
                 last := [("eventName", VStr EmptyString);
                          ("action", VStr EmptyString);
                          ("record", VObj [])];
                 records := [];
                 queued := [] |};
     emitted := [];
     notified := [];
     attached := [] |}.

Definition set_store (s : Store) (e : Engine) : Engine :=
  {| _publication := _publication e; _sorter := _sorter e;
     useUuid := useUuid e; useUpdatedAt := useUpdatedAt e;
     listening := listening e; store := s;
     emitted := emitted e; notified := notified e; attached := attached e |}.

Definition set_records (rs : list Obj) (s : Store) : Store :=
  {| syncedAt := syncedAt s; last := last s; records := rs;
     queued := queued s |}.

Definition set_queued (q : list QueuedMutation) (s : Store) : Store :=
  {| syncedAt := syncedAt s; last := last s; records := records s;
     queued := q |}.

Definition set_last (l : Obj) (s : Store) : Store :=
  {| syncedAt := syncedAt s; last := l; records := records s;
     queued := queued s |}.

Definition set_syncedAt (t : Value) (s : Store) : Store :=
  {| syncedAt := t; last := last s; records := records s;
     queued := queued s |}.

(** [this.emit('events', records, last); this._subscriber(records, last)] *)
Definition publish (rs : list Obj) (l : Obj) (e : Engine) : Engine :=
  {| _publication := _publication e; _sorter := _sorter e;
     useUuid := useUuid e; useUpdatedAt := useUpdatedAt e;
     listening := listening e; store := store e;
     emitted := emitted e ++ [mkEmission rs l];
     notified := notified e ++ [mkEmission rs l];
     attached := attached e |}.

(** [if (this._sorter) records.sort(this._sorter)] *)
Definition sorted_by (sorter : option (Obj -> Obj -> Z)) (rs : list Obj)
    : list Obj :=
  match sorter with
  | Some cmp => array_sort cmp rs
  | None => rs
  end.

(** [_findIndex (array, predicate, fromIndex = 0)]; every call in the
    sources leaves [fromIndex] at its default. *)
Fixpoint _findIndex_from {A} (array : list A) (predicate : A -> bool)
    (i : Z) : Z :=
  match array with
  | [] => -1
  | x :: rest => if predicate x then i else _findIndex_from rest predicate (i + 1)
  end.

Definition _findIndex {A} (array : list A) (predicate : A -> bool) : Z :=
  _findIndex_from array predicate 0.

(** [_findIndexReversed (array, predicate, fromIndex = +Infinity)]: the scan
    starts at [array.length - 1] and walks down; every call in the sources
    leaves [fromIndex] at its default.  [newest_first] is the array read
    from its last element, so the element at its head sits at the index
    that is the length of its tail.  The predicates of the sources read a
    property of [qElement.record] and so can throw. *)
Fixpoint scan_down {A} (newest_first : list A) (predicate : A -> Result bool)
    : Result Z :=
  match newest_first with
  | [] => Return (-1)
  | x :: older =>
      try hit <- predicate x ;;
      if hit then Return (Z.of_nat (List.length older))
      else scan_down older predicate
  end.

Definition _findIndexReversed {A} (array : list A)
    (predicate : A -> Result bool) : Result Z :=
  scan_down (rev array) predicate.

(** [snapshot (records)] *)
Definition snapshot (recs : list Obj) (e : Engine) : Engine :=
  let last' := [("action", VStr "snapshot")] in
  let updatedAt :=
    fold_left (fun updatedAt rec =>
                 if js_gt (getProp rec "updatedAt") updatedAt
                 then getProp rec "updatedAt" else updatedAt)
              recs DOB in
  let recs' := sorted_by (_sorter e) recs in
  publish recs' last'
    (set_store {| syncedAt := updatedAt; last := last'; records := recs';
                  queued := queued (store e) |} e).

(** [_addQueuedEvent (eventName, localRecord, ...args)] *)
Definition _addQueuedEvent (eventName : string) (localRecord : Value)
    (args : list Value) (e : Engine) : Engine :=
  set_store
    (set_queued (queued (store e) ++ [mkQueued eventName localRecord args])
       (store e)) e.

(** [idName] as both queue scans compute it:
    ['id' in localRecord ? 'id' : '_id']. *)
Definition idName_of (localRecord : Value) : Result string :=
  try has <- js_in "id" localRecord ;;
  Return (if has then "id" else "_id").

(** [this.store.queued[index].event]: a queue entry is built with the
    properties [eventName], [record] and [args] only, so this read gives
    [undefined]. *)
Definition event (q : QueuedMutation) : Value := VUndefined.

Definition replace_at {A} (l : list A) (index : Z) (x : A) : list A :=
  firstn (Z.to_nat index) l ++ x :: skipn (S (Z.to_nat index)) l.

(** [Object.assign({}, a, b)] for sources that are plain objects, [null],
    [undefined], numbers, booleans or dates: all but plain objects
    contribute nothing.  (A string or an array as a source would contribute
    its indices; the program never assigns from one.) *)
Definition assign_values (a b : Value) : Obj :=
  let own v := match v with VObj o => o | _ => [] end in
  assign (assign [] (own a)) (own b).

(** [_addQueuedNetEvent (eventName, localRecord, ...args)] *)
Definition _addQueuedNetEvent (eventName : string) (localRecord : Value)
    (args : list Value) (e : Engine) : Engine * Result unit :=
  let q := queued (store e) in
  if (0 <? Z.of_nat (List.length q)) then
    match
      (try idName <- idName_of localRecord ;;
       _findIndexReversed q (fun qElement =>
         try theirs <- js_get (record qElement) idName ;;
         try mine <- js_get localRecord idName ;;
         Return (strict_eq theirs mine)))
    with
    | Throw err => (e, Throw err)
    | Return index =>
        if index >? -1 then
          match nth_error q (Z.to_nat index) with
          | None => (e, Throw TypeError)
          | Some found =>
              if negb (strict_eq (event found) (VStr "remove")) then
                let merged :=
                  mkQueued eventName
                    (VObj (assign_values (record found) localRecord)) args in
                (set_store (set_queued (replace_at q index merged) (store e)) e,
                 Return tt)
              else if negb (String.eqb eventName "create") then
                (e, Throw (BadRequest
                   ("Impossible queue event (remove followed by "
                      ++ eventName ++ ")")%string))
              else
                (set_store
                   (set_queued
                      (splice_in q (index + 1)
                         (mkQueued eventName localRecord args)) (store e)) e,
                 Return tt)
          end
        else (_addQueuedEvent eventName localRecord args e, Return tt)
    end
  else (_addQueuedEvent eventName localRecord args e, Return tt).

(** [this._useUuid]: the constructor assigns [this.useUuid] and nothing
    assigns a property [_useUuid], so this read gives [undefined]. *)
Definition _useUuid (e : Engine) : Value := VUndefined.

(** [_removeQueuedEvent (eventName, localRecord, updatedAt)] *)
Definition _removeQueuedEvent (eventName : string) (localRecord : Value)
    (updatedAt : Value) (e : Engine) : Engine * Result unit :=
  let q := queued (store e) in
  match
    (try idName <- (if truthy (_useUuid e) then Return "uuid"
                    else idName_of localRecord) ;;
     _findIndexReversed q (fun qElement =>
       try theirs <- js_get (record qElement) idName ;;
       try mine <- js_get localRecord idName ;;
       Return (strict_eq theirs mine
               && String.eqb (BaseEngine.eventName qElement) eventName)))
  with
  | Throw err => (e, Throw err)
  | Return index =>
      let q' := if index >=? 0 then splice1 q index else q in
      let s' := set_queued q' (store e) in
      let s'' := if truthy updatedAt then set_syncedAt updatedAt s' else s' in
      (set_store s'' e, Return tt)
  end.

(** [_removeQueuedNetEvent (eventName, localRecord, updatedAt)] *)
Definition _removeQueuedNetEvent (eventName : string) (localRecord : Value)
    (updatedAt : Value) (e : Engine) : Engine * Result unit :=
  let stamp s := if truthy updatedAt then set_syncedAt updatedAt s else s in
  let q := queued (store e) in
  if (0 <? Z.of_nat (List.length q)) then
    match idName_of localRecord with
    | Throw err => (e, Throw err)
    | Return idName =>
        let same qElement :=
          try theirs <- js_get (record qElement) idName ;;
          try mine <- js_get localRecord idName ;;
          Return (strict_eq theirs mine) in
        match _findIndexReversed q same with
        | Throw err => (e, Throw err)
        | Return index =>
            let q1 := if index >=? 0 then splice1 q index else q in
            let e1 := set_store (set_queued q1 (store e)) e in
            match _findIndexReversed q1 same with
            | Throw err => (e1, Throw err)
            | Return index2 =>
                let q2 := if index2 >=? 0 then splice1 q1 index2 else q1 in
                (set_store (stamp (set_queued q2 (store e))) e, Return tt)
            end
        end
    end
  else (set_store (stamp (store e)) e, Return tt).

Definition set_listening (b : bool) (topics : list string) (e : Engine)
    : Engine :=
  {| _publication := _publication e; _sorter := _sorter e;
     useUuid := useUuid e; useUpdatedAt := useUpdatedAt e;
     listening := b; store := store e;
     emitted := emitted e; notified := notified e; attached := topics |}.

(** The four change topics of the remote service. *)
Definition topics : list string := ["created"; "updated"; "patched"; "removed"].

(** [service.removeListener(topic, fn)]: one registration of [fn] on
    [topic] goes, if there is one. *)
Fixpoint removeListener (topic : string) (regs : list string) : list string :=
  match regs with
  | [] => []
  | t :: regs' =>
      if String.eqb t topic then regs' else t :: removeListener topic regs'
  end.

(** [addListeners ()] *)
Definition addListeners (e : Engine) : Engine :=
  publish (records (store e)) [("action", VStr "add-listeners")]
    (set_listening true (attached e ++ topics) e).

(** [removeListeners ()] *)
Definition removeListeners (e : Engine) : Engine :=
  if listening e then
    publish (records (store e)) [("action", VStr "remove-listeners")]
      (set_listening false
         (fold_left (fun regs t => removeListener t regs) topics (attached e))
         e)
  else e.

(** The inner function [broadcast (action)] of [_mutateStore], closed over
    [source], [eventName], [remoteRecord] and the records array. *)
Definition broadcast (source : Value) (eventName : string)
    (remoteRecord : Obj) (action : string) (e : Engine) : Engine :=
  let last' := [("source", source); ("action", VStr action);
                ("eventName", VStr eventName);
                ("record", VObj remoteRecord)] in
  publish (records (store e)) last' (set_store (set_last last' (store e)) e).

(** [_mutateStore (eventName, remoteRecord, source)]; [now] is the time
    value of the [new Date()] the code stamps.  The return value is
    [beforeRecord] ([null] when nothing was found) on the remove path,
    [undefined] when the publication rejects the record, and the stamped
    record otherwise. *)
Definition _mutateStore (eventName : string) (remoteRecord : Obj)
    (source : Value) (now : Z) (e : Engine) : Engine * Value :=
  let idName := if hasProp remoteRecord "id" then "id" else "_id" in
  let records0 := records (store e) in
  let index :=
    _findIndex records0 (fun record =>
      strict_eq (getProp record idName) (getProp remoteRecord idName)) in
  let beforeRecord :=
    if index >=? 0
    then match nth_error records0 (Z.to_nat index) with
         | Some r => VObj r
         | None => VUndefined
         end
    else VNull in
  let records1 := if index >=? 0 then splice1 records0 index else records0 in
  let e1 := set_store (set_records records1 (store e)) e in
  let passes :=
    match _publication e with
    | None => true
    | Some publication => publication remoteRecord
    end in
  if String.eqb eventName "removed" then
    if index >=? 0 then
      (broadcast source eventName remoteRecord "remove" e1, beforeRecord)
    else if strict_eq source (VNum 0) && passes then
      (broadcast source eventName remoteRecord "remove" e1, beforeRecord)
    else (e1, beforeRecord)
  else if negb passes then
    if index >=? 0 then
      (broadcast source eventName remoteRecord "left-pub" e1, VUndefined)
    else (e1, VUndefined)
  else
    let stamped := setProp remoteRecord "updatedAt" (VDate now) in
    let records2 := sorted_by (_sorter e) (records1 ++ [stamped]) in
    let e2 := set_store (set_records records2 (store e)) e in
    (broadcast source eventName stamped "mutated" e2, VObj stamped).

(** [changeSort (sort)] *)
Definition changeSort (sort : option (Obj -> Obj -> Z)) (e : Engine) : Engine :=
  let rs := sorted_by sort (records (store e)) in
  publish rs [("action", VStr "change-sort")]
    {| _publication := _publication e; _sorter := sort;
       useUuid := useUuid e; useUpdatedAt := useUpdatedAt e;
       listening := listening e;
       store := set_records rs (store e);
       emitted := emitted e; notified := notified e;
       attached := attached e |}.

(** A call [this._service[method](arg0, arg1, arg2)]. *)
Record Invocation : Type := mkInvocation {
  method : string;
  arg0 : Value;
  arg1 : Value;
  arg2 : Value
}.

(** The body of the loop [for (const i in el.args)] for one argument:
    [if (a.query) { delete a.query._fail; delete a.query._timeout; }].
    Reading [.query] of [null] or [undefined] throws; [delete] on a
    property that is not there, or on a primitive, does nothing. *)
Definition scrub (a : Value) : Result Value :=
  try query <- js_get a "query" ;;
  if truthy query then
    match a, query with
    | VObj o, VObj q =>
        Return (VObj (setProp o "query"
                        (VObj (deleteProp (deleteProp q "_fail") "_timeout"))))
    | _, _ => Return a
    end
  else Return a.

Fixpoint scrub_args (args : list Value) : Result (list Value) :=
  match args with
  | [] => Return []
  | a :: rest =>
      try a' <- scrub a ;;
      try rest' <- scrub_args rest ;;
      Return (a' :: rest')
  end.

(** [el.args[i]] *)
Definition arg (i : nat) (args : list Value) : Value := nth i args VUndefined.

Section RemoteService.

(** The state of the remote service, and [this._service[name]]: [None]
    when the service has no such method; a method takes the three
    positional arguments and answers [true] when its promise is fulfilled,
    [false] when it is rejected. *)
Context {R : Type}.
Variable service : string -> option (Value -> Value -> Value -> R -> bool * R).

(** The loop of [processQueuedEvents] on the queue [q]: [el] is shifted
    off, scrubbed and replayed; a rejection puts [el] back at the head and
    stops the loop.  An exception raised before the call (the scrub, or a
    name that is no method of the service) leaves the loop with [el]
    already shifted off.  No other operation is taken to run while the
    loop waits for the remote service. *)
Fixpoint drain (q : list QueuedMutation) (r : R) (calls : list Invocation)
    : list QueuedMutation * R * list Invocation * Result Value :=
  match q with
  | [] => (q, r, calls, Return (VBool true))
  | el :: rest =>
      match scrub_args (args el) with
      | Throw err => (rest, r, calls, Throw err)
      | Return args' =>
          let el' := mkQueued (eventName el) (record el) args' in
          match service (eventName el) with
          | None => (rest, r, calls, Throw TypeError)
          | Some remote =>
              let call := mkInvocation (eventName el) (arg 0 args')
                            (arg 1 args') (arg 2 args') in
              match remote (arg 0 args') (arg 1 args') (arg 2 args') r with
              | (true, r') => drain rest r' (calls ++ [call])
              | (false, r') =>
                  (el' :: rest, r', calls ++ [call], Return (VBool true))
              end
          end
      end
  end.

(** [processQueuedEvents ()]: the engine and the remote state it leaves,
    the remote calls it made in order, and its completion. *)
Definition processQueuedEvents (e : Engine) (r : R)
    : Engine * R * list Invocation * Result Value :=
  match drain (queued (store e)) r [] with
  | (q', r', calls, res) =>
      (set_store (set_queued q' (store e)) e, r', calls, res)
  end.

(** The operations of the engine, as a caller can sequence them. *)
Inductive Op : Type :=
| OpSnapshot (recs : list Obj)
| OpProcessQueuedEvents
| OpAddQueuedEvent (eventName : string) (localRecord : Value)
    (args : list Value)
| OpAddQueuedNetEvent (eventName : string) (localRecord : Value)
    (args : list Value)
| OpRemoveQueuedEvent (eventName : string) (localRecord updatedAt : Value)
| OpRemoveQueuedNetEvent (eventName : string) (localRecord updatedAt : Value)
| OpAddListeners
| OpRemoveListeners
| OpMutateStore (eventName : string) (remoteRecord : Obj) (source : Value)
    (now : Z)
| OpChangeSort (sort : option (Obj -> Obj -> Z)).

Definition step (op : Op) (w : Engine * R) : Engine * R :=
  let (e, r) := w in
  match op with
  | OpSnapshot recs => (snapshot recs e, r)
  | OpProcessQueuedEvents =>
      match processQueuedEvents e r with (e', r', _, _) => (e', r') end
  | OpAddQueuedEvent ev rec a => (_addQueuedEvent ev rec a e, r)
  | OpAddQueuedNetEvent ev rec a => (fst (_addQueuedNetEvent ev rec a e), r)
  | OpRemoveQueuedEvent ev rec t => (fst (_removeQueuedEvent ev rec t e), r)
  | OpRemoveQueuedNetEvent ev rec t =>
      (fst (_removeQueuedNetEvent ev rec t e), r)
  | OpAddListeners => (addListeners e, r)
  | OpRemoveListeners => (removeListeners e, r)
  | OpMutateStore ev rec src now => (fst (_mutateStore ev rec src now e), r)
  | OpChangeSort sort => (changeSort sort e, r)
  end.

Definition run (ops : list Op) (w : Engine * R) : Engine * R :=
  fold_left (fun w op => step op w) ops w.

End RemoteService.

End BaseEngine.

(* ================================================================== *)
(** * base-replicator.js (with the constructor of index.js) *)
(* ================================================================== *)

Module BaseReplicator.

(** The replicator object with the engine the subclass of index.js gives
    it. *)
Record Replicator : Type := mkReplicator {
  _query : Value;
  _publication : option (Obj -> bool);
  genShortUuid : bool;
  engine : BaseEngine.Engine
}.

(** [new RealtimeReplicator(service, options)]: the replicator and its
    engine are built from the same [options]. *)
Definition constructor (query : Value) (publication : option (Obj -> bool))
    (sort : option (Obj -> Obj -> Z)) (uuid updatedAt : bool) : Replicator :=
  {| _query := match query with VUndefined => VObj [] | _ => query end;
     _publication := publication;
     genShortUuid := true;
     engine := BaseEngine.constructor publication sort uuid updatedAt |}.

Definition set_engine (e : BaseEngine.Engine) (rep : Replicator) : Replicator :=
  {| _query := _query rep; _publication := _publication rep;
     genShortUuid := genShortUuid rep; engine := e |}.

(** [get connected ()] *)
Definition connected (rep : Replicator) : bool :=
  BaseEngine.listening (engine rep).

(** [this.engine.sorter]: the engine keeps its comparator in [_sorter] and
    has no property [sorter], so this read gives [undefined]. *)
Definition sorter (e : BaseEngine.Engine) : option (Obj -> Obj -> Z) := None.

Section RemoteService.

Context {R : Type}.
Variable service : string -> option (Value -> Value -> Value -> R -> bool * R).

(** [connect (newQuery)].  The query it builds goes to [snapshot] of
    feathers-offline-snapshot and nowhere else; [fetched] is what that call
    settles with.  An error of the queue replay is logged and dropped. *)
Definition connect (fetched : Result (list Obj)) (rep : Replicator) (r : R)
    : Replicator * R * Result unit :=
  let e0 := BaseEngine.removeListeners (engine rep) in
  match fetched with
  | Throw err => (set_engine e0 rep, r, Throw err)
  | Return records =>
      let records1 :=
        match _publication rep with
        | Some publication => filter publication records
        | None => records
        end in
      let records2 :=
        match sorter e0 with
        | Some cmp => array_sort cmp records1
        | None => records1
        end in
      let e1 := BaseEngine.snapshot records2 e0 in
      match BaseEngine.processQueuedEvents service e1 r with
      | (e2, r', _, _) =>
          (set_engine (BaseEngine.addListeners e2) rep, r', Return tt)
      end
  end.

End RemoteService.

(** [disconnect ()] *)
Definition disconnect (rep : Replicator) : Replicator :=
  set_engine (BaseEngine.removeListeners (engine rep)) rep.

(** [useShortUuid (ifShortUuid)] *)
Definition useShortUuid (ifShortUuid : Value) (rep : Replicator) : Replicator :=
  {| _query := _query rep; _publication := _publication rep;
     genShortUuid := truthy ifShortUuid; engine := engine rep |}.

(** Modelled from the spec: [genUuid] of ./utils is not among the sources.
    The spec has [getUuid] "mint a new identifier", in a "short form
    (compact, up to 15 characters) or long form (36-character canonical)":
    a string taken from the minter's random source [entropy], cut to the
    length of the form. *)
Definition genUuid (ifShortUuid : bool) (entropy : string) : Value :=
  VStr (substring 0 (if ifShortUuid then 15 else 36) entropy).

(** [static sort (prop)] *)
Definition sort (prop : string) (a b : Obj) : Z :=
  if js_gt (getProp a prop) (getProp b prop) then 1
  else if js_lt (getProp a prop) (getProp b prop) then -1 else 0.

(** [static multiSort (order)]; [order] lists the properties with their
    sense in the order of [Object.keys]. *)
Fixpoint multiSort (order : list (string * Z)) (a b : Obj) : Z :=
  match order with
  | [] => 0
  | (prop, sense) :: order' =>
      let result :=
        if js_gt (getProp a prop) (getProp b prop) then 1 * sense
        else if js_lt (getProp a prop) (getProp b prop) then -1 * sense
        else 0 in
      if result =? 0 then multiSort order' a b else result
  end.

End BaseReplicator.

(* ================================================================== *)
(** * owndata-mutator.js *)
(* ================================================================== *)

Module Mutator.

Import BaseEngine.

(** What [this.filterQuery(params)] of the adapter base class hands back:
    [{ query, filters: { $sort, $skip, $limit }, paginate }]; an absent
    filter is [None]. *)
Record Filtered : Type := mkFiltered {
  query : Value;
  filters_sort : option Value;
  filters_skip : option Z;
  filters_limit : option Z;
  paginate : Value
}.

(** The service object: the replicator it is bound to (and through it the
    engine and [this.store]), the number of uuids minted so far, and the
    remote calls it has started, oldest first. *)
Record Service : Type := mkService {
  _replicator : BaseReplicator.Replicator;
  minted : nat;
  started : list Invocation
}.

Definition _engine (s : Service) : Engine := BaseReplicator.engine (_replicator s).

Definition set__engine (e : Engine) (s : Service) : Service :=
  {| _replicator := BaseReplicator.set_engine e (_replicator s);
     minted := minted s; started := started s |}.

Definition start (call : Invocation) (s : Service) : Service :=
  {| _replicator := _replicator s; minted := minted s;
     started := started s ++ [call] |}.

(** [this._alwaysSelect] *)
Definition _alwaysSelect : list string := ["id"; "_id"; "uuid"].

(** [params = {}] *)
Definition default_params (params : Value) : Value :=
  match params with VUndefined => VObj [] | _ => params end.

(** [params && params.query && params.query.$select], when it is an
    array. *)
Definition select_fields (params : Value) : option (list Value) :=
  match params with
  | VObj p =>
      match getProp p "query" with
      | VObj q =>
          match getProp q "$select" with
          | VArr fields => Some fields
          | _ => None
          end
      | _ => None
      end
  | _ => None
  end.

(** The effect of [select(params, ...otherFields)] of
    @feathersjs/adapter-commons on its argument: [fields.push(...otherFields)]
    when [$select] is an array.  [params] is the caller's object, which a
    queue entry holds as well. *)
Definition push_select (params : Value) (otherFields : list string) : Value :=
  match params with
  | VObj p =>
      match getProp p "query" with
      | VObj q =>
          match getProp q "$select" with
          | VArr fields =>
              VObj (setProp p "query"
                      (VObj (setProp q "$select"
                               (VArr (fields ++ map VStr otherFields)))))
          | _ => params
          end
      | _ => params
      end
  | _ => params
  end.

(** [_.pick(source, ...keys)] of @feathersjs/commons: the listed properties
    whose value is not [undefined], in the order of the list.  Keys are
    strings; another value in the list selects nothing. *)
Fixpoint pick_into (result : Obj) (source : Value) (keys : list Value)
    : Result Obj :=
  match keys with
  | [] => Return result
  | key :: keys' =>
      match key with
      | VStr k =>
          try v <- js_get source k ;;
          pick_into (match v with
                     | VUndefined => result
                     | _ => setProp result k v
                     end) source keys'
      | _ => pick_into result source keys'
      end
  end.

(** [convert] inside [select]: the result as it is when [$select] is no
    array, else the picked fields. *)
Definition convert (fields : option (list Value)) (result : Value)
    : Result Value :=
  match fields with
  | None => Return result
  | Some fields =>
      try picked <- pick_into [] result fields ;;
      Return (VObj picked)
  end.

Fixpoint convert_each (fields : option (list Value)) (results : list Value)
    : Result (list Value) :=
  match results with
  | [] => Return []
  | result :: rest =>
      try v <- convert fields result ;;
      try vs <- convert_each fields rest ;;
      Return (v :: vs)
  end.

(** The function [select(params, ...otherFields)] returns: [convert] on
    the result, or on each element when the result is an array; [params]
    is read after the push. *)
Definition select (params : Value) (otherFields : list string)
    (result : Value) : Result Value :=
  let fields := select_fields (push_select params otherFields) in
  match result with
  | VArr results =>
      try vs <- convert_each fields results ;;
      Return (VArr vs)
  | _ => convert fields result
  end.

(** [shallowClone (obj)]: [Object.assign({}, obj)] *)
Definition shallowClone (obj : Value) : Value :=
  VObj (assign_values VUndefined obj).

(** [getId (record)] *)
Definition getId (record : Value) : Result Value :=
  try has <- js_in "id" record ;;
  if has then js_get record "id" else js_get record "_id".

(** [findIdIndex (array, id)] *)
Definition findIdIndex (array : list Obj) (id : Value) : Z :=
  _findIndex array (fun r =>
    loose_eq (getProp r "id") id || loose_eq (getProp r "_id") id).

(** [findUuidIndex (array, uuid)] *)
Definition findUuidIndex (array : list Obj) (uuid : Value) : Z :=
  _findIndex array (fun r => loose_eq (getProp r "uuid") uuid).

(** [checkUuidExists (record)] *)
Definition checkUuidExists (record : Value) : Result unit :=
  try has <- js_in "uuid" record ;;
  if has then Return tt
  else Throw (BadRequest "Optimistic mutation requires uuid. (owndata)").

(** [_checkConnected ()] *)
Definition _checkConnected (s : Service) : Result unit :=
  if BaseReplicator.connected (_replicator s) then Return tt
  else Throw (BadRequest "Replicator not connected to remote. (owndata)").

(** [records[index]] after a successful index scan. *)
Definition at_index (array : list Obj) (index : Z) : Value :=
  match nth_error array (Z.to_nat index) with
  | Some r => VObj r
  | None => VUndefined
  end.

Definition first_error (rs : list (Result Value)) : Result (list Value) :=
  fold_right (fun r acc =>
                match r with
                | Throw err => Throw err
                | Return v => try vs <- acc ;; Return (v :: vs)
                end) (Return []) rs.

Section Collaborators.

(** The pluggable pieces: [this.filterQuery] of the adapter base class,
    [options.matcher] (sift by default), [options.sorter], the ISO format
    of a date in [JSON.stringify], and the random source of the uuid
    minter. *)
Variable filterQuery : Value -> Result Filtered.
Variable matcher : Value -> Obj -> bool.
Variable sorter : Value -> Obj -> Obj -> Z.
Variable toISOString : Z -> string.
Variable entropy : nat -> string.

(** [JSON.parse(JSON.stringify(v))]: a property holding [undefined] is
    dropped, [undefined] in an array becomes [null], a date becomes its ISO
    string. *)
Fixpoint json_clone (v : Value) : Value :=
  match v with
  | VDate ms => VStr (toISOString ms)
  | VArr items =>
      VArr ((fix each (l : list Value) : list Value :=
               match l with
               | [] => []
               | VUndefined :: l' => VNull :: each l'
               | x :: l' => json_clone x :: each l'
               end) items)
  | VObj fields =>
      VObj ((fix each (l : list (string * Value)) : list (string * Value) :=
               match l with
               | [] => []
               | (_, VUndefined) :: l' => each l'
               | (k, x) :: l' => (k, json_clone x) :: each l'
               end) fields)
  | _ => v
  end.

(** [_select (data, ...args)] on a record; no other fields are pushed. *)
Definition _select (data : Obj) (params : Value) : Result Value :=
  select params [] (json_clone (VObj data)).

Fixpoint select_all (values : list Obj) (params : Value)
    : Result (list Value) :=
  match values with
  | [] => Return []
  | value :: rest =>
      try v <- _select value params ;;
      try vs <- select_all rest params ;;
      Return (v :: vs)
  end.

(** [_find (params = {})] *)
Definition _find (params : Value) (s : Service) : Service * Result Value :=
  let params := default_params params in
  match filterQuery params with
  | Throw err => (s, Throw err)
  | Return fq =>
      let values := filter (matcher (query fq)) (records (store (_engine s))) in
      let total := Z.of_nat (List.length values) in
      let values :=
        match filters_sort fq with
        | Some spec => array_sort (sorter spec) values
        | None => values
        end in
      let values :=
        match filters_skip fq with
        | Some n => slice_from values n
        | None => values
        end in
      let values :=
        match filters_limit fq with
        | Some n => slice_to values n
        | None => values
        end in
      match select_all values params with
      | Throw err => (s, Throw err)
      | Return data =>
          let opt n := match n with Some k => VNum k | None => VUndefined end in
          let result :=
            [("total", VNum total);
             ("limit", opt (filters_limit fq));
             ("skip", match filters_skip fq with
                      | Some k => VNum k
                      | None => VNum 0
                      end);
             ("data", VArr data)] in
          let by_default :=
            match readProp (paginate fq) "default" with
            | Some d => truthy (paginate fq) && truthy d
            | None => false
            end in
          if negb by_default then (s, Return (VArr data))
          else (s, Return (VObj result))
      end
  end.

(** [_get (uuid, params = {})] *)
Definition _get (uuid params : Value) (s : Service) : Service * Result Value :=
  let params := default_params params in
  let records := records (store (_engine s)) in
  let index := findUuidIndex records uuid in
  if index =? -1 then
    (s, Throw (NotFound "No record found for uuid"))
  else (s, select params _alwaysSelect (at_index records index)).

(** [this._getUuid()]: the constructor stores [this._replicator.getUuid]
    unbound, so inside it [this.genShortUuid] is read on the service
    object, which has no such property. *)
Definition _getUuid (s : Service) : Value :=
  BaseReplicator.genUuid (truthy VUndefined) (entropy (minted s)).

(** The body of [_create (data, params = {})] below the array test.
    [data] is a record; [in] throws on a primitive. *)
Definition create_one (data params : Value) (now : Z) (s : Service)
    : Service * Result Value :=
  let params := default_params params in
  match _checkConnected s with
  | Throw err => (s, Throw err)
  | Return _ =>
      match data with
      | VObj d =>
          let (d, s) :=
            if hasProp d "uuid" then (d, s)
            else (setProp d "uuid" (_getUuid s),
                  {| _replicator := _replicator s; minted := S (minted s);
                     started := started s |}) in
          let records := records (store (_engine s)) in
          let index := findUuidIndex records (getProp d "uuid") in
          if index >? -1 then
            (s, Throw (BadRequest
                         "Optimistic create requires unique uuid. (owndata)"))
          else
            let (e1, newData) :=
              _mutateStore "created" d (VNum 1) now (_engine s) in
            let params' := push_select params _alwaysSelect in
            let e2 :=
              _addQueuedEvent "create" newData
                [shallowClone newData; params'] e1 in
            let s' :=
              start (mkInvocation "create" (shallowClone newData) params'
                       VUndefined) (set__engine e2 s) in
            (s', select params _alwaysSelect newData)
      | _ => (s, Throw TypeError)
      end
  end.

(** [_create (data, params = {})]: an array fans out,
    [Promise.all(data.map(current => this._create(current, params)))] makes
    every call in order and settles with the results, or with the first
    error. *)
Fixpoint _create (data params : Value) (now : Z) (s : Service) {struct data}
    : Service * Result Value :=
  match data with
  | VArr items =>
      let (s', rs) :=
        (fix each (l : list Value) (s : Service)
           : Service * list (Result Value) :=
           match l with
           | [] => (s, [])
           | current :: rest =>
               let (s1, r) := _create current params now s in
               let (s2, rs) := each rest s1 in
               (s2, r :: rs)
           end) items s in
      (s', try vs <- first_error rs ;; Return (VArr vs))
  | _ => create_one data params now s
  end.

(** [_update (id, data, params = {})] *)
Definition _update (id data params : Value) (now : Z) (s : Service)
    : Service * Result Value :=
  let params := default_params params in
  match (try _ <- _checkConnected s ;; checkUuidExists data) with
  | Throw err => (s, Throw err)
  | Return _ =>
      let records := records (store (_engine s)) in
      let index := findIdIndex records id in
      if index =? -1 then
        (s, Throw (NotFound "No record found for id"))
      else
        match data, js_get (shallowClone (at_index records index)) "uuid" with
        | VObj d, Return beforeUuid =>
            let d := setProp d "uuid" beforeUuid in
            let (e1, newData) :=
              _mutateStore "updated" d (VNum 1) now (_engine s) in
            let s1 := set__engine e1 s in
            match getId newData with
            | Throw err => (s1, Throw err)
            | Return newId =>
                let params' := push_select params _alwaysSelect in
                let e2 :=
                  _addQueuedEvent "update" newData
                    [newId; shallowClone newData; params'] e1 in
                let s' :=
                  start (mkInvocation "update" newId (shallowClone newData)
                           params') (set__engine e2 s) in
                (s', select params _alwaysSelect newData)
            end
        | _, _ => (s, Throw TypeError)
        end
  end.

(** What [_patch] does with an [id] that is not [null], after the
    connection check. *)
Definition patch_one (id data params : Value) (now : Z) (s : Service)
    : Service * Result Value :=
  let records := records (store (_engine s)) in
  let index := findIdIndex records id in
  if index =? -1 then
    (s, Throw (NotFound "No record found for id"))
  else
    let beforeRecord := shallowClone (at_index records index) in
    let afterRecord := assign_values beforeRecord data in
    let (e1, newData) :=
      _mutateStore "patched" afterRecord (VNum 1) now (_engine s) in
    let s1 := set__engine e1 s in
    match getId newData with
    | Throw err => (s1, Throw err)
    | Return newId =>
        let params' := push_select params _alwaysSelect in
        let e2 :=
          _addQueuedEvent "patch" newData
            [newId; shallowClone newData; params'] e1 in
        let s' :=
          start (mkInvocation "patch" newId (shallowClone newData) params')
            (set__engine e2 s) in
        (s', select params _alwaysSelect newData)
    end.

(** What [_remove] does with an [id] that is not [null], after the
    connection check. *)
Definition remove_one (id params : Value) (now : Z) (s : Service)
    : Service * Result Value :=
  let records := records (store (_engine s)) in
  let index := findIdIndex records id in
  if index =? -1 then
    (s, Throw (NotFound "No record found for id"))
  else
    match shallowClone (at_index records index) with
    | VObj beforeRecord =>
        let (e1, newData) :=
          _mutateStore "removed" beforeRecord (VNum 1) now (_engine s) in
        let params' := push_select params _alwaysSelect in
        let e2 :=
          _addQueuedEvent "remove" (VObj beforeRecord) [id; params'] e1 in
        let s' :=
          start (mkInvocation "remove" id params' VUndefined)
            (set__engine e2 s) in
        (s', select params _alwaysSelect newData)
    | _ => (s, Throw TypeError)
    end.

(** [const res = page.data ? page.data : page] *)
Definition page_items (page : Value) : Value :=
  match page with
  | VObj o => if truthy (getProp o "data") then getProp o "data" else page
  | _ => page
  end.

(** The fan-out of [_patch] and [_remove] on [id === null]:
    [Promise.all(res.map(current => again(current.id)))]. *)
Fixpoint fan_out (again : Value -> Service -> option (Service * Result Value))
    (items : list Value) (s : Service)
    : option (Service * list (Result Value)) :=
  match items with
  | [] => Some (s, [])
  | current :: rest =>
      match js_get current "id" with
      | Throw err => Some (s, [Throw err])
      | Return id =>
          match again id s with
          | None => None
          | Some (s1, r) =>
              match fan_out again rest s1 with
              | None => None
              | Some (s2, rs) => Some (s2, r :: rs)
              end
          end
      end
  end.

Definition fanned (again : Value -> Service -> option (Service * Result Value))
    (params : Value) (s : Service) : option (Service * Result Value) :=
  match _find params s with
  | (s0, Throw err) => Some (s0, Throw err)
  | (s0, Return page) =>
      match page_items page with
      | VArr items =>
          match fan_out again items s0 with
          | None => None
          | Some (s1, rs) =>
              Some (s1, try vs <- first_error rs ;; Return (VArr vs))
          end
      | _ => Some (s0, Throw TypeError)
      end
  end.

(** [_patch (id, data, params = {})].  A record whose [id] is [null] sends
    the fan-out into [_patch(null, ...)] again; [depth] bounds that
    nesting, and [None] stands for a nesting deeper than [depth].  With an
    [id] that is not [null] the result does not depend on [depth]. *)
Fixpoint _patch (depth : nat) (id data params : Value) (now : Z)
    (s : Service) : option (Service * Result Value) :=
  let params := default_params params in
  match _checkConnected s with
  | Throw err => Some (s, Throw err)
  | Return _ =>
      if strict_eq id VNull then
        match depth with
        | O => None
        | S depth' =>
            fanned (fun id' s' => _patch depth' id' data params now s')
              params s
        end
      else Some (patch_one id data params now s)
  end.

(** [_remove (id, params = {})], with [depth] as for [_patch]. *)
Fixpoint _remove (depth : nat) (id params : Value) (now : Z) (s : Service)
    : option (Service * Result Value) :=
  let params := default_params params in
  match _checkConnected s with
  | Throw err => Some (s, Throw err)
  | Return _ =>
      if strict_eq id VNull then
        match depth with
        | O => None
        | S depth' =>
            fanned (fun id' s' => _remove depth' id' params now s') params s
        end
      else Some (remove_one id params now s)
  end.

(** The continuation of a remote call,
    [([err, res]) => { if (res) this._removeQueuedEvent(name, record, updatedAt) }],
    where [updatedAt] is [res.updatedAt] for create, update and patch and
    [null] for remove. *)
Definition settled (name : string) (localRecord res : Value) (s : Service)
    : Service * Result unit :=
  if truthy res then
    match (if String.eqb name "remove" then Return VNull
           else js_get res "updatedAt") with
    | Throw err => (s, Throw err)
    | Return updatedAt =>
        let (e', r) := _removeQueuedEvent name localRecord updatedAt (_engine s) in
        (set__engine e' s, r)
    end
  else (s, Return tt).

End Collaborators.

End Mutator.

(* ================================================================== *)
(** * Vocabulary of the statements *)
(* ================================================================== *)

Import BaseEngine.

(** The test [_mutateStore] locates the stored form of [remoteRecord]
    with: same server id, under [id] when [remoteRecord] has one, else
    under [_id]. *)
Definition same_id (remoteRecord record : Obj) : bool :=
  let idName := if hasProp remoteRecord "id" then "id" else "_id" in
  strict_eq (getProp record idName) (getProp remoteRecord idName).

(** [l] without its first element that satisfies [p]. *)
Fixpoint remove_first {A} (p : A -> bool) (l : list A) : list A :=
  match l with
  | [] => []
  | x :: l' => if p x then l' else x :: remove_first p l'
  end.

(** [l] without its last element that satisfies [p]. *)
Definition remove_last {A} (p : A -> bool) (l : list A) : list A :=
  rev (remove_first p (rev l)).

(** Position of the first element that satisfies [p]. *)
Fixpoint index_of {A} (p : A -> bool) (l : list A) : option nat :=
  match l with
  | [] => None
  | x :: l' => if p x then Some O else option_map S (index_of p l')
  end.

(** Whether the publication lets [r] through; no publication lets every
    record through. *)
Definition passes (e : Engine) (r : Obj) : bool :=
  match _publication e with
  | None => true
  | Some publication => publication r
  end.

(** The descriptor [{ source, action, eventName, record }]. *)
Definition descriptor (source : Value) (action eventName : string)
    (r : Obj) : Obj :=
  [("source", source); ("action", VStr action);
   ("eventName", VStr eventName); ("record", VObj r)].

(** [e'] differs from [e] by exactly one more emission on ['events'] and
    one more call of the subscriber, both with the records of [e'] and the
    descriptor [l], which is also the new [store.last]. *)
Definition emits_once (l : Obj) (e e' : Engine) : Prop :=
  emitted e' = emitted e ++ [mkEmission (records (store e')) l] /\
  notified e' = notified e ++ [mkEmission (records (store e')) l] /\
  last (store e') = l.

(** [e'] emitted nothing that [e] had not, and [store.last] is as before. *)
Definition emits_nothing (e e' : Engine) : Prop :=
  emitted e' = emitted e /\ notified e' = notified e /\
  last (store e') = last (store e).

(** Everything of the engine that [_mutateStore] has no business with. *)
Definition same_outside_records (e e' : Engine) : Prop :=
  queued (store e') = queued (store e) /\
  syncedAt (store e') = syncedAt (store e) /\
  listening e' = listening e /\
  attached e' = attached e.

(** No stored record answers to [id], by the test of [findIdIndex]. *)
Definition no_id_match (rs : list Obj) (id : Value) : Prop :=
  forall r, In r rs ->
    loose_eq (getProp r "id") id = false /\
    loose_eq (getProp r "_id") id = false.

(** No stored record answers to [uuid], by the test of [findUuidIndex]. *)
Definition no_uuid_match (rs : list Obj) (uuid : Value) : Prop :=
  forall r, In r rs -> loose_eq (getProp r "uuid") uuid = false.

(** ** Sample data: the five seed records of the test suite *)

Definition seed (i : Z) : Obj :=
  [("id", VNum i); ("uuid", VNum (1000 + i)); ("order", VNum i)].

Definition seeds : list Obj := [seed 0; seed 1; seed 2; seed 3; seed 4].

(** A replicator sorted by [order], without publication, whose engine has
    taken the seeds as its snapshot but is not listening. *)
Definition idle_replicator : BaseReplicator.Replicator :=
  let rep :=
    BaseReplicator.constructor VUndefined None
      (Some (BaseReplicator.sort "order")) true true in
  BaseReplicator.set_engine (snapshot seeds (BaseReplicator.engine rep)) rep.

(** The same replicator once its listeners are attached. *)
Definition live_replicator : BaseReplicator.Replicator :=
  BaseReplicator.set_engine
    (addListeners (BaseReplicator.engine idle_replicator)) idle_replicator.

Definition idle_service : Mutator.Service :=
  Mutator.mkService idle_replicator 0 [].

Definition live_service : Mutator.Service :=
  Mutator.mkService live_replicator 0 [].

(** Sample collaborators: no filters, a matcher that takes every record,
    and a fixed random source. *)
Definition plain_filterQuery (params : Value) : Result Mutator.Filtered :=
  Return (Mutator.mkFiltered (VObj []) None None None VUndefined).

Definition any_matcher (query : Value) (r : Obj) : bool := true.

Definition no_sorter (spec : Value) (a b : Obj) : Z := 0.

Definition sample_ISO (ms : Z) : string := "2020-05-26T00:00:00.001Z".

Definition sample_entropy (n : nat) : string :=
  "9b1deb4d-3b7d-4bad-9bdd-2b0d7b3dcb6d".


(** The publication of the test suite, [record => record.order <= 3.5],
    on integer orders. *)
Definition order_upto_3 (r : Obj) : bool :=
  match getProp r "order" with
  | VNum n => n <=? 3
  | _ => false
  end.

(** A connected replicator with that publication, after a snapshot of the
    seeds it lets through. *)
Definition published_replicator : BaseReplicator.Replicator :=
  let rep :=
    BaseReplicator.constructor VUndefined (Some order_upto_3)
      (Some (BaseReplicator.sort "order")) true true in
  BaseReplicator.set_engine
    (addListeners
       (snapshot (filter order_upto_3 seeds) (BaseReplicator.engine rep)))
    rep.

Definition published_service : Mutator.Service :=
  Mutator.mkService published_replicator 0 [].

(** [data] is a record that holds a string under [uuid]. *)
Definition has_string_uuid (v : Value) : Prop :=
  exists o u, v = VObj o /\ getProp o "uuid" = VStr u.

(** [data], with a minted uuid when it has none: what [_create] goes on
    with after its connection check. *)
Definition with_uuid (entropy : nat -> string) (s : Mutator.Service)
    (d : Obj) : Obj :=
  if hasProp d "uuid" then d
  else setProp d "uuid" (Mutator._getUuid entropy s).


(** Every record of [rs] satisfies the publication [pub]. *)
Definition all_published (pub : Obj -> bool) (rs : list Obj) : Prop :=
  Forall (fun r => pub r = true) rs.

(** The verdict of [pub] does not depend on the [updatedAt] stamp that
    [_mutateStore] puts on a record after it has asked [pub]. *)
Definition stamp_blind (pub : Obj -> bool) : Prop :=
  forall r t, pub (setProp r "updatedAt" (VDate t)) = pub r.

(** A publication that reads the stamp: records never stamped. *)
Definition never_stamped (r : Obj) : bool :=
  negb (truthy (getProp r "updatedAt")).

(** A remote service with no state that fulfils every call. *)
Definition obliging_service (name : string)
    : option (Value -> Value -> Value -> unit -> bool * unit) :=
  Some (fun _ _ _ _ => (true, tt)).


(** The queue operations touch nothing but [queued] and [syncedAt]. *)
Definition same_outside_queue (e e' : Engine) : Prop :=
  records (store e') = records (store e) /\
  last (store e') = last (store e) /\
  _publication e' = _publication e /\
  _sorter e' = _sorter e /\
  listening e' = listening e /\
  emitted e' = emitted e /\
  notified e' = notified e /\
  attached e' = attached e.


(** The record holds a string under [updatedAt], as a record that came
    over the wire does. *)
Definition string_stamped (r : Obj) : Prop :=
  exists t, getProp r "updatedAt" = VStr t.

(** The text of [DOB]. *)
Definition DOB_text : string := "2020-05-26T00:00:00.001Z".

(** The engine ends up with the watermark it had, or, on a truthy
    [updatedAt] and a call that did not throw, with [updatedAt]. *)
Definition watermark_after_confirmation (updatedAt : Value)
    (outcome : Engine * Result unit) (e : Engine) : Prop :=
  match snd outcome with
  | Return _ =>
      syncedAt (store (fst outcome))
      = if truthy updatedAt then updatedAt else syncedAt (store e)
  | Throw _ => syncedAt (store (fst outcome)) = syncedAt (store e)
  end.


(** ** Sample runs of the mutator that build the queues used below *)

(** The connected sample service after [remove(1)]: the queue holds the
    ['remove'] entry of record 1. *)
Definition after_remove_1 : Mutator.Service :=
  match Mutator._remove plain_filterQuery any_matcher no_sorter sample_ISO
          1 (VNum 1) VUndefined 7 live_service with
  | Some (s, _) => s
  | None => live_service
  end.

(** The connected sample service after
    [update(0, {uuid: 1000, order: 99})], data that does not repeat the
    id. *)
Definition after_update_0 : Mutator.Service :=
  fst (Mutator._update (VNum 0)
         (VObj [("uuid", VNum 1000); ("order", VNum 99)]) VUndefined 7
         live_service).

(** ... and then [create({id: 99, uuid: 1099, order: 99})]. *)
Definition after_update_and_create : Mutator.Service :=
  fst (Mutator._create sample_entropy
         (VObj [("id", VNum 99); ("uuid", VNum 1099); ("order", VNum 99)])
         VUndefined 8 after_update_0).

(** Two records created locally with their uuids and no server id. *)
Definition local_a : Obj := [("uuid", VStr "a"); ("order", VNum 10)].
Definition local_b : Obj := [("uuid", VStr "b"); ("order", VNum 11)].

(** The connected sample service after [create(local_a)] and
    [create(local_b)]. *)
Definition after_two_creates : Mutator.Service :=
  fst (Mutator._create sample_entropy (VObj local_b) VUndefined 8
         (fst (Mutator._create sample_entropy (VObj local_a) VUndefined 7
                 live_service))).

(** The two queue entries of those creates. *)
Definition queued_create (r : Obj) (now : Z) : QueuedMutation :=
  let stored := setProp r "updatedAt" (VDate now) in
  mkQueued "create" (VObj stored) [VObj stored; VObj []].


(** ** Replay of the queue, as [processQueuedEvents] is meant to do it *)

(** The entry as the scrub loop of [processQueuedEvents] leaves it. *)
Definition scrubbed (el : QueuedMutation) : QueuedMutation :=
  match scrub_args (args el) with
  | Return a => mkQueued (eventName el) (record el) a
  | Throw _ => el
  end.

(** The remote call that replays [el]. *)
Definition invocation_of (el : QueuedMutation) : Invocation :=
  let a := args (scrubbed el) in
  mkInvocation (eventName el) (arg 0 a) (arg 1 a) (arg 2 a).

(** The scrub loop goes through on [el], and [el] names a method of the
    service. *)
Definition replayable {R : Type}
    (service : string -> option (Value -> Value -> Value -> R -> bool * R))
    (el : QueuedMutation) : Prop :=
  (exists a, scrub_args (args el) = Return a)
  /\ (exists remote, service (eventName el) = Some remote).

(** How the remote service settles the replay of [el] in state [r]. *)
Definition answer {R : Type}
    (service : string -> option (Value -> Value -> Value -> R -> bool * R))
    (el : QueuedMutation) (r : R) : bool * R :=
  match service (eventName el) with
  | Some remote =>
      let a := args (scrubbed el) in
      remote (arg 0 a) (arg 1 a) (arg 2 a) r
  | None => (false, r)
  end.

(** [Replay service r q calls q' r']: replaying [q] head first against
    the remote state [r] makes the calls [calls] and leaves the queue [q']
    and the remote state [r'].  A fulfilled call moves on to the next
    entry; a rejected one ends the replay with the entry back at the head
    of what was behind it. *)
Inductive Replay {R : Type}
    (service : string -> option (Value -> Value -> Value -> R -> bool * R))
    : R -> list QueuedMutation -> list Invocation -> list QueuedMutation ->
      R -> Prop :=
| Replay_done (r : R) : Replay service r [] [] [] r
| Replay_fulfilled (r r1 r' : R) (el : QueuedMutation)
    (rest q' : list QueuedMutation) (calls : list Invocation) :
    answer service el r = (true, r1) ->
    Replay service r1 rest calls q' r' ->
    Replay service r (el :: rest) (invocation_of el :: calls) q' r'
| Replay_rejected (r r1 : R) (el : QueuedMutation)
    (rest : list QueuedMutation) :
    answer service el r = (false, r1) ->
    Replay service r (el :: rest) [invocation_of el] (scrubbed el :: rest) r1.

(** The test of [_removeQueuedEvent] on a queue entry, for a record [l]
    and the key [idName]. *)
Definition entry_matches (idName eventName : string) (l : Obj)
    (q : QueuedMutation) : bool :=
  match readProp (record q) idName with
  | Some theirs =>
      strict_eq theirs (getProp l idName)
      && String.eqb (BaseEngine.eventName q) eventName
  | None => false
  end.

(** The record of the entry is neither [null] nor [undefined]. *)
Definition has_record (q : QueuedMutation) : Prop :=
  record q <> VUndefined /\ record q <> VNull.

(** Case analysis on the scrutinees of the goal, innermost first. *)
Ltac split_cases :=
  repeat match goal with
         | |- context [match ?x with _ => _ end] =>
             lazymatch x with
             | context [match _ with _ => _ end] => fail
             | _ => destruct x
             end
         end.


(** A direct [snapshot] is handed records that satisfy [pub]; every other
    operation is as it comes. *)
Definition snapshot_filtered (pub : Obj -> bool) (op : Op) : Prop :=
  match op with
  | OpSnapshot recs => all_published pub recs
  | _ => True
  end.


(** ** Vocabulary for the sorted store and for record identity *)

(** A comparator that never calls each of two elements greater than the
    other, as [Array.prototype.sort] expects of it. *)
Definition consistent {A} (cmp : A -> A -> Z) : Prop :=
  forall a b, 0 < cmp a b -> cmp b a <= 0.


(** A value that [===] itself: every value but an object, an array or a
    date (which the embedding cannot tell from another one). *)
Definition primitive (v : Value) : Prop := strict_eq v v = true.

(** The server ids of the records, read under [id]. *)
Definition ids (rs : list Obj) : list Value :=
  map (fun r => getProp r "id") rs.

(** The records carry primitive ids under [id], each id once. *)
Definition unique_ids (rs : list Obj) : Prop :=
  NoDup (ids rs) /\ Forall primitive (ids rs).


(** The test of [_addQueuedNetEvent] and [_removeQueuedNetEvent] on a
    queue entry, for a record [l] and the key [idName]: same server id,
    whatever the event. *)
Definition entry_has_id (idName : string) (l : Obj) (q : QueuedMutation)
    : bool :=
  match readProp (record q) idName with
  | Some theirs => strict_eq theirs (getProp l idName)
  | None => false
  end.

(** [idName] for a record: ['id' in l ? 'id' : '_id']. *)
Definition idName_for (l : Obj) : string :=
  if hasProp l "id" then "id" else "_id".


(** An object as the language has it: no property twice. *)
Definition well_formed (o : Obj) : Prop := NoDup (map fst o).

(** The first stored record that answers to [id] by the test of
    [findIdIndex]. *)
Definition found_by_id (rs : list Obj) (id : Value) : option Obj :=
  find (fun r => loose_eq (getProp r "id") id
                 || loose_eq (getProp r "_id") id) rs.

(** The first stored record that answers to [uuid] by the test of
    [findUuidIndex]. *)
Definition found_by_uuid (rs : list Obj) (uuid : Value) : option Obj :=
  find (fun r => loose_eq (getProp r "uuid") uuid) rs.

(** ** Vocabulary for the removal of many records *)

(** The records carry a number under [id], each number once, no [_id],
    and no property twice. *)
Definition numbered (rs : list Obj) : Prop :=
  Forall (fun r => (exists n, getProp r "id" = VNum n)
                   /\ getProp r "_id" = VUndefined
                   /\ well_formed r) rs
  /\ NoDup (ids rs).

(** The stored records [_find] goes on with before it clones and projects
    them: those the matcher accepts, sorted, skipped and limited as the
    filters say. *)
Definition selected (matcher : Value -> Obj -> bool)
    (sorter : Value -> Obj -> Obj -> Z) (fq : Mutator.Filtered)
    (rs : list Obj) : list Obj :=
  let values := filter (matcher (Mutator.query fq)) rs in
  let values :=
    match Mutator.filters_sort fq with
    | Some spec => array_sort (sorter spec) values
    | None => values
    end in
  let values :=
    match Mutator.filters_skip fq with
    | Some n => slice_from values n
    | None => values
    end in
  match Mutator.filters_limit fq with
  | Some n => slice_to values n
  | None => values
  end.

(** [r] is none of [values], by the server id under [id]. *)
Definition spared (values : list Obj) (r : Obj) : bool :=
  negb (existsb (fun v => same_id v r) values).

(* ================================================================== *)
(** * Index scans and splices *)
(* ================================================================== *)

Lemma _findIndex_from_index_of {A} (p : A -> bool) (l : list A) (i : Z) :
  _findIndex_from l p i =
  match index_of p l with
  | Some n => i + Z.of_nat n
  | None => -1
  end.
Proof.
  revert i; induction l as [|x l IH]; intros i; simpl; [reflexivity|].
  destruct (p x); [simpl; lia|].
  rewrite IH. destruct (index_of p l); simpl; lia.
Qed.

Lemma _findIndex_index_of {A} (p : A -> bool) (l : list A) :
  _findIndex l p =
  match index_of p l with
  | Some n => Z.of_nat n
  | None => -1
  end.
Proof.
  unfold _findIndex. rewrite _findIndex_from_index_of.
  destruct (index_of p l); reflexivity.
Qed.

Lemma index_of_none {A} (p : A -> bool) (l : list A) :
  index_of p l = None <-> existsb p l = false.
Proof.
  induction l as [|x l IH]; simpl; [tauto|].
  destruct (p x); simpl; [split; discriminate|].
  destruct (index_of p l); simpl; split; intros H;
    try discriminate; try reflexivity; try tauto.
  destruct IH as [_ IH]. specialize (IH H). discriminate.
Qed.

Lemma index_of_some {A} (p : A -> bool) (l : list A) (n : nat) :
  index_of p l = Some n ->
  nth_error l n = find p l /\
  firstn n l ++ skipn (S n) l = remove_first p l /\
  existsb p l = true.
Proof.
  revert n; induction l as [|x l IH]; intros n; simpl; [discriminate|].
  destruct (p x) eqn:Hp.
  - intros [= <-]. simpl. auto.
  - destruct (index_of p l) as [m|]; simpl; [|discriminate].
    intros [= <-]. destruct (IH m eq_refl) as (H1 & H2 & H3).
    change (skipn (S (S m)) (x :: l)) with (skipn (S m) l).
    change (firstn (S m) (x :: l)) with (x :: firstn m l).
    rewrite <- app_comm_cons, H2. auto.
Qed.

Lemma index_of_none_find {A} (p : A -> bool) (l : list A) :
  index_of p l = None -> find p l = None /\ remove_first p l = l.
Proof.
  induction l as [|x l IH]; simpl; [auto|].
  destruct (p x); [discriminate|].
  destruct (index_of p l); simpl; [discriminate|].
  intros _. destruct (IH eq_refl) as [H1 H2]. rewrite H2. auto.
Qed.

(** No match for a scan means no element satisfies the test. *)
Lemma _findIndex_not_found {A} (p : A -> bool) (l : list A) :
  _findIndex l p = -1 <-> (forall x, In x l -> p x = false).
Proof.
  rewrite _findIndex_index_of. split.
  - destruct (index_of p l) eqn:E; [lia|]. intros _ x Hx.
    apply index_of_none in E.
    destruct (p x) eqn:Hp; [|reflexivity].
    assert (existsb p l = true) by (apply existsb_exists; eauto). congruence.
  - intros H. destruct (index_of p l) eqn:E; [|reflexivity].
    apply index_of_some in E. destruct E as (_ & _ & E).
    apply existsb_exists in E. destruct E as (x & Hx & Hp).
    rewrite (H x Hx) in Hp. discriminate.
Qed.

(* ================================================================== *)
(** * C1: the remove path of [_mutateStore] *)
(* ================================================================== *)

(** C1.  [_mutateStore('removed', remoteRecord, source)] takes the first
    stored record with the id of [remoteRecord] out of [records] (and
    nothing else), returns that record ([null] when there was none), emits
    one event with action ['remove'] exactly when the record was present
    or the call is remote ([source === 0]) and the record passes the
    publication (or none is configured), and otherwise emits nothing; the
    queue, the watermark and the listening flag are untouched. *)
Theorem mutateStore_removed (remoteRecord : Obj) (source : Value) (now : Z)
    (e : Engine) :
  let present := existsb (same_id remoteRecord) (records (store e)) in
  let e' := fst (_mutateStore "removed" remoteRecord source now e) in
  let returned := snd (_mutateStore "removed" remoteRecord source now e) in
  records (store e') = remove_first (same_id remoteRecord) (records (store e))
  /\ returned = match find (same_id remoteRecord) (records (store e)) with
                | Some before => VObj before
                | None => VNull
                end
  /\ (if present || (strict_eq source (VNum 0) && passes e remoteRecord)
      then emits_once (descriptor source "remove" "removed" remoteRecord) e e'
      else emits_nothing e e')
  /\ same_outside_records e e'.
Proof.
  cbv zeta. unfold _mutateStore.
  fold (same_id remoteRecord). fold (passes e remoteRecord).
  rewrite _findIndex_index_of.
  destruct (index_of (same_id remoteRecord) (records (store e))) as [n|] eqn:E.
  - destruct (index_of_some _ _ _ E) as (Hnth & Hsplice & Hex).
    rewrite Hex.
    replace (Z.of_nat n >=? 0) with true by (symmetry; apply Z.geb_le; lia).
    unfold splice1. rewrite Nat2Z.id, Hnth, Hsplice. simpl.
    repeat split.
    destruct (find (same_id remoteRecord) (records (store e))) eqn:F;
      [reflexivity|].
    exfalso. apply existsb_exists in Hex. destruct Hex as (x & Hx & Hp).
    apply (find_none _ _ F) in Hx. congruence.
  - destruct (index_of_none_find _ _ E) as (Hfind & Hrem).
    apply index_of_none in E. rewrite E, Hfind, Hrem.
    replace (-1 >=? 0) with false by reflexivity. simpl.
    destruct (strict_eq source (VNum 0) && passes e remoteRecord); simpl;
      repeat split; destruct e as [? ? ? ? ? []]; reflexivity.
Qed.

(* ================================================================== *)
(** * C10: [removeListeners] on an engine that is not listening *)
(* ================================================================== *)

(** C10.  On an engine whose [listening] flag is false, [removeListeners]
    changes nothing: the flag, the store (records, queued, syncedAt, last),
    the registrations on the remote service and the logs of emissions and
    subscriber calls are all as before, so no ['remove-listeners'] action
    goes out. *)
Theorem removeListeners_idle (e : Engine) :
  listening e = false -> removeListeners e = e.
Proof.
  intros H. unfold removeListeners. rewrite H. reflexivity.
Qed.

Lemma removeListeners_idle_witness :
  listening (constructor None None true true) = false /\
  removeListeners (constructor None None true true)
  = constructor None None true true.
Proof.
  split; [reflexivity|].
  apply (removeListeners_idle (constructor None None true true)).
  reflexivity.
Defined.

(* ================================================================== *)
(** * C9: [_find] is read-only *)
(* ================================================================== *)

(** C9.  Whatever the collaborators, the params and the service state,
    [_find] hands back the state it was given: [store.records] and
    [store.queued] are the same lists, nothing was enqueued and no remote
    call was started. *)
Theorem find_read_only (filterQuery : Value -> Result Mutator.Filtered)
    (matcher : Value -> Obj -> bool) (sorter : Value -> Obj -> Obj -> Z)
    (toISOString : Z -> string) (params : Value) (s : Mutator.Service) :
  let s' := fst (Mutator._find filterQuery matcher sorter toISOString params s) in
  records (store (Mutator._engine s')) = records (store (Mutator._engine s))
  /\ queued (store (Mutator._engine s')) = queued (store (Mutator._engine s))
  /\ Mutator.started s' = Mutator.started s
  /\ s' = s.
Proof.
  cbv zeta. unfold Mutator._find.
  destruct (filterQuery (Mutator.default_params params)) as [fq|err];
    [|simpl; auto].
  match goal with
  | |- context [Mutator.select_all ?t ?v ?p] =>
      destruct (Mutator.select_all t v p) as [data|err]
  end; [|simpl; auto].
  match goal with
  | |- context [if ?c then _ else _] => destruct c
  end; simpl; auto.
Qed.

(* ================================================================== *)
(** * C8: a target that is not there *)
(* ================================================================== *)

Lemma strict_eq_null_false (id : Value) :
  id <> VNull -> strict_eq id VNull = false.
Proof. destruct id; simpl; congruence. Qed.

Lemma findIdIndex_absent (rs : list Obj) (id : Value) :
  no_id_match rs id -> Mutator.findIdIndex rs id = -1.
Proof.
  intros H. apply _findIndex_not_found. intros r Hr.
  destruct (H r Hr) as [-> ->]. reflexivity.
Qed.

Lemma findUuidIndex_absent (rs : list Obj) (uuid : Value) :
  no_uuid_match rs uuid -> Mutator.findUuidIndex rs uuid = -1.
Proof.
  intros H. apply _findIndex_not_found. intros r Hr. exact (H r Hr).
Qed.

(** C8, where the code departs from it: on a replicator that is not
    connected, [remove(9999)] with no record of id 9999 in the store fails
    with [BadRequest], not with [NotFound] (the connection check comes
    first); so do [patch] and [update]. *)
Lemma absent_target_disconnected_BadRequest :
  let run_remove :=
    Mutator._remove plain_filterQuery any_matcher no_sorter sample_ISO
      1 (VNum 9999) VUndefined 0 idle_service in
  let run_patch :=
    Mutator._patch plain_filterQuery any_matcher no_sorter sample_ISO
      1 (VNum 9999) (VObj [("order", VNum 99)]) VUndefined 0 idle_service in
  let run_update :=
    Mutator._update (VNum 9999)
      (VObj [("id", VNum 9999); ("uuid", VNum 1000); ("order", VNum 99)])
      VUndefined 0 idle_service in
  no_id_match (records (store (Mutator._engine idle_service))) (VNum 9999)
  /\ run_remove
     = Some (idle_service,
             Throw (BadRequest "Replicator not connected to remote. (owndata)"))
  /\ option_map (fun out => is_NotFound (snd out)) run_remove = Some false
  /\ option_map (fun out => is_NotFound (snd out)) run_patch = Some false
  /\ is_NotFound (snd run_update) = false.
Proof.
  cbv zeta. split; [|repeat split; reflexivity].
  intros r Hr. simpl in Hr.
  repeat (destruct Hr as [<-|Hr]; [split; reflexivity|]). destruct Hr.
Qed.

(** C8, as the code has it.  When no stored record answers to the
    identifier: [get] fails with [NotFound]; [update] (with data that
    carries a uuid), [patch] and [remove] (with an id that is not [null])
    fail with [NotFound] on a connected replicator and with [BadRequest] on
    one that is not connected; and the failed call leaves the service, and
    with it [store.records] and [store.queued], as it was. *)
Theorem absent_target_NotFound
    (filterQuery : Value -> Result Mutator.Filtered)
    (matcher : Value -> Obj -> bool) (sorter : Value -> Obj -> Obj -> Z)
    (toISOString : Z -> string)
    (s : Mutator.Service) (uuid id data params : Value) (now : Z)
    (depth : nat) :
  no_uuid_match (records (store (Mutator._engine s))) uuid ->
  no_id_match (records (store (Mutator._engine s))) id ->
  Mutator.checkUuidExists data = Return tt ->
  id <> VNull ->
  let failure :=
    if BaseReplicator.connected (Mutator._replicator s)
    then NotFound "No record found for id"
    else BadRequest "Replicator not connected to remote. (owndata)" in
  Mutator._get uuid params s
    = (s, Throw (NotFound "No record found for uuid"))
  /\ Mutator._update id data params now s = (s, Throw failure)
  /\ Mutator._patch filterQuery matcher sorter toISOString
       depth id data params now s
    = Some (s, Throw failure)
  /\ Mutator._remove filterQuery matcher sorter toISOString
       depth id params now s
    = Some (s, Throw failure).
Proof.
  intros Huuid Hid Hdata Hnull. cbv zeta.
  apply findUuidIndex_absent in Huuid. apply findIdIndex_absent in Hid.
  apply strict_eq_null_false in Hnull.
  repeat split.
  - unfold Mutator._get. rewrite Huuid. reflexivity.
  - unfold Mutator._update, Mutator._checkConnected.
    destruct (BaseReplicator.connected (Mutator._replicator s));
      [|reflexivity].
    simpl. rewrite Hdata, Hid. reflexivity.
  - destruct depth; simpl; unfold Mutator._checkConnected;
      (destruct (BaseReplicator.connected (Mutator._replicator s));
       [|reflexivity]);
      rewrite Hnull; unfold Mutator.patch_one; rewrite Hid; reflexivity.
  - destruct depth; simpl; unfold Mutator._checkConnected;
      (destruct (BaseReplicator.connected (Mutator._replicator s));
       [|reflexivity]);
      rewrite Hnull; unfold Mutator.remove_one; rewrite Hid; reflexivity.
Qed.

Lemma absent_target_NotFound_witness :
  let data :=
    VObj [("id", VNum 9999); ("uuid", VNum 1000); ("order", VNum 99)] in
  BaseReplicator.connected (Mutator._replicator live_service) = true
  /\ Mutator.checkUuidExists data = Return tt
  /\ Mutator._get (VNum 9999) VUndefined live_service
     = (live_service, Throw (NotFound "No record found for uuid"))
  /\ Mutator._update (VNum 9999) data VUndefined 0 live_service
     = (live_service, Throw (NotFound "No record found for id"))
  /\ Mutator._patch plain_filterQuery any_matcher no_sorter sample_ISO
       1 (VNum 9999) data VUndefined 0 live_service
     = Some (live_service, Throw (NotFound "No record found for id"))
  /\ Mutator._remove plain_filterQuery any_matcher no_sorter sample_ISO
       1 (VNum 9999) VUndefined 0 live_service
     = Some (live_service, Throw (NotFound "No record found for id")).
Proof.
  cbv zeta. split; [reflexivity|]. split; [reflexivity|].
  apply (absent_target_NotFound plain_filterQuery any_matcher no_sorter
           sample_ISO live_service (VNum 9999) (VNum 9999)
           (VObj [("id", VNum 9999); ("uuid", VNum 1000); ("order", VNum 99)])
           VUndefined 0 1%nat).
  - intros r Hr. simpl in Hr.
    repeat (destruct Hr as [<-|Hr]; [reflexivity|]). destruct Hr.
  - intros r Hr. simpl in Hr.
    repeat (destruct Hr as [<-|Hr]; [split; reflexivity|]). destruct Hr.
  - reflexivity.
  - discriminate.
Defined.

(* ================================================================== *)
(** * Properties of objects *)
(* ================================================================== *)

Lemma getProp_setProp_same (o : Obj) (k : string) (v : Value) :
  getProp (setProp o k v) k = v.
Proof.
  induction o as [|[k' v'] o IH]; simpl.
  - rewrite String.eqb_refl. reflexivity.
  - destruct (String.eqb k' k) eqn:E; simpl; rewrite E; auto.
Qed.

Lemma getProp_setProp_other (o : Obj) (k k' : string) (v : Value) :
  k <> k' -> getProp (setProp o k v) k' = getProp o k'.
Proof.
  intros Hne. induction o as [|[k0 v0] o IH]; simpl.
  - destruct (String.eqb k k') eqn:E; [|reflexivity].
    apply String.eqb_eq in E. contradiction.
  - destruct (String.eqb k0 k) eqn:E; simpl.
    + apply String.eqb_eq in E. subst k0.
      destruct (String.eqb k k') eqn:E'; [|reflexivity].
      apply String.eqb_eq in E'. contradiction.
    + destruct (String.eqb k0 k'); auto.
Qed.

(** What [_.pick] keeps of a listed key: the value the source has under
    it. *)
Lemma pick_into_keeps (source : Obj) (k : string) (keys : list Value) :
  forall result picked,
    getProp result k = getProp source k \/
    (getProp result k = VUndefined /\ In (VStr k) keys) ->
    Mutator.pick_into result (VObj source) keys = Return picked ->
    getProp picked k = getProp source k.
Proof.
  induction keys as [|key keys IH]; intros result picked Hinv Hpick.
  - simpl in Hpick. injection Hpick as <-. destruct Hinv as [H|[_ []]]. exact H.
  - simpl in Hpick. destruct key as [| | | |k'| | |];
      try (apply (IH result picked); [|exact Hpick];
           destruct Hinv as [H|[H [Hk|Hk]]]; [auto|discriminate|auto]).
    simpl in Hpick.
    destruct (string_dec k' k) as [->|Hne].
    + apply IH in Hpick; [exact Hpick|]. left.
      destruct (getProp source k) eqn:Hsrc;
        try (rewrite getProp_setProp_same; reflexivity).
      destruct Hinv as [H|[H _]]; rewrite H; auto.
    + apply IH in Hpick; [exact Hpick|].
      assert (Hsame : getProp
                (match getProp source k' with
                 | VUndefined => result
                 | _ => setProp result k' (getProp source k')
                 end) k = getProp result k).
      { destruct (getProp source k'); try reflexivity;
          apply getProp_setProp_other; exact Hne. }
      rewrite Hsame.
      destruct Hinv as [H|[H [Hk|Hk]]]; [auto| |auto].
      injection Hk as ->. contradiction.
Qed.

Lemma pick_into_total (source : Obj) (keys : list Value) (result : Obj) :
  exists picked, Mutator.pick_into result (VObj source) keys = Return picked.
Proof.
  revert result. induction keys as [|key keys IH]; intros result; simpl.
  - eauto.
  - destruct key; auto.
Qed.

Lemma select_fields_push (params : Value) (others : list string) :
  Mutator.select_fields (Mutator.push_select params others)
  = option_map (fun fields => fields ++ map VStr others)
      (Mutator.select_fields params).
Proof.
  unfold Mutator.select_fields, Mutator.push_select.
  destruct params as [| | | | | | |p]; try reflexivity.
  destruct (getProp p "query") as [| | | | | | |q] eqn:Hq;
    try (rewrite Hq; reflexivity).
  destruct (getProp q "$select") as [| | | | | |fields|] eqn:Hs;
    rewrite ?Hq, ?Hs; try reflexivity.
  rewrite getProp_setProp_same, getProp_setProp_same. reflexivity.
Qed.

(** The projection at the end of every mutator method keeps [uuid]. *)
Lemma select_keeps_uuid (params : Value) (r : Obj) :
  exists o,
    Mutator.select params Mutator._alwaysSelect (VObj r) = Return (VObj o)
    /\ getProp o "uuid" = getProp r "uuid".
Proof.
  unfold Mutator.select, Mutator.convert. rewrite select_fields_push.
  destruct (Mutator.select_fields params) as [fields|]; unfold option_map.
  - destruct (pick_into_total r
                (fields ++ map VStr Mutator._alwaysSelect) []) as [picked Hp].
    rewrite Hp. exists picked. split; [reflexivity|].
    eapply pick_into_keeps; [|exact Hp].
    destruct (getProp r "uuid") eqn:Hu; auto;
      right; (split; [reflexivity|]); apply in_or_app; right; simpl; auto.
  - eauto.
Qed.

(* ================================================================== *)
(** * C7: the guards of [_create] *)
(* ================================================================== *)

(** On an event other than ['removed'], a record the publication lets
    through comes back stamped. *)
Lemma mutateStore_accepts (eventName : string) (r : Obj) (source : Value)
    (now : Z) (e : Engine) :
  String.eqb eventName "removed" = false ->
  passes e r = true ->
  snd (_mutateStore eventName r source now e)
  = VObj (setProp r "updatedAt" (VDate now)).
Proof.
  intros Hev Hpass. unfold _mutateStore. fold (passes e r).
  rewrite Hev, Hpass. reflexivity.
Qed.

Lemma findUuidIndex_present (rs : list Obj) (uuid : Value) :
  (exists r, In r rs /\ loose_eq (getProp r "uuid") uuid = true) ->
  (Mutator.findUuidIndex rs uuid >? -1) = true.
Proof.
  intros (r & Hr & Hm). unfold Mutator.findUuidIndex.
  rewrite _findIndex_index_of.
  destruct (index_of _ rs) as [n|] eqn:E.
  - apply Z.gtb_lt. lia.
  - apply index_of_none in E.
    assert (H : existsb (fun r => loose_eq (getProp r "uuid") uuid) rs = true)
      by (apply existsb_exists; eauto).
    congruence.
Qed.

(** C7, where the code departs from it: with the publication
    [order <= 3] configured and the replicator connected,
    [create({id: 99, order: 99})] mints a uuid and then resolves to
    [undefined], because [_mutateStore] returns nothing for a record the
    publication rejects: the returned value is no record and has no uuid. *)
Lemma create_outside_publication_returns_undefined :
  let data := [("id", VNum 99); ("order", VNum 99)] in
  let out :=
    Mutator._create sample_entropy (VObj data) VUndefined 7 published_service in
  BaseReplicator.connected (Mutator._replicator published_service) = true
  /\ hasProp data "uuid" = false
  /\ no_uuid_match (records (store (Mutator._engine published_service)))
       (getProp (with_uuid sample_entropy published_service data) "uuid")
  /\ snd out = Return VUndefined
  /\ ~ (exists v, snd out = Return v /\ has_string_uuid v).
Proof.
  cbv zeta. repeat split.
  - intros r Hr. simpl in Hr.
    repeat (destruct Hr as [<-|Hr]; [reflexivity|]). destruct Hr.
  - intros (v & Hv & (o & u & Ho & _)).
    vm_compute in Hv. injection Hv as <-. discriminate.
Qed.

(** C7, as the code has it.  For data that is a record: on a replicator
    that is not connected [_create] fails with [BadRequest] and changes
    nothing; on a connected one it fails with [BadRequest], the store
    unchanged, when a stored record has the uuid of the data (the minted
    one when the data had none); and otherwise, when the data carried no
    uuid and the record passes the publication (or none is configured),
    the returned record holds the freshly minted string under [uuid]. *)
Theorem create_guards (entropy : nat -> string) (d : Obj) (params : Value)
    (now : Z) (s : Mutator.Service) :
  let out := Mutator._create entropy (VObj d) params now s in
  let d1 := with_uuid entropy s d in
  let rs := records (store (Mutator._engine s)) in
  (BaseReplicator.connected (Mutator._replicator s) = false ->
     out = (s, Throw (BadRequest
                        "Replicator not connected to remote. (owndata)")))
  /\ (BaseReplicator.connected (Mutator._replicator s) = true ->
      (exists r, In r rs /\
                 loose_eq (getProp r "uuid") (getProp d1 "uuid") = true) ->
      snd out = Throw (BadRequest
                         "Optimistic create requires unique uuid. (owndata)")
      /\ store (Mutator._engine (fst out)) = store (Mutator._engine s))
  /\ (BaseReplicator.connected (Mutator._replicator s) = true ->
      no_uuid_match rs (getProp d1 "uuid") ->
      hasProp d "uuid" = false ->
      passes (Mutator._engine s) d1 = true ->
      exists o u,
        snd out = Return (VObj o)
        /\ getProp o "uuid" = VStr u
        /\ VStr u = Mutator._getUuid entropy s).
Proof.
  cbv zeta. unfold Mutator._create, Mutator.create_one, with_uuid,
    Mutator._checkConnected.
  split; [|split].
  - intros ->. reflexivity.
  - intros -> Hdup. apply findUuidIndex_present in Hdup.
    revert Hdup.
    destruct (hasProp d "uuid"); intros Hdup; unfold Mutator._engine in *;
      cbn [Mutator._replicator] in *; rewrite Hdup; split; reflexivity.
  - intros -> Habsent Hno Hpass. rewrite Hno in *.
    apply findUuidIndex_absent in Habsent.
    unfold Mutator._engine in *. cbn [Mutator._replicator] in *.
    rewrite Habsent. change (-1 >? -1) with false. cbv iota.
    pose proof (mutateStore_accepts "created"
                  (setProp d "uuid" (Mutator._getUuid entropy s)) (VNum 1) now
                  (BaseReplicator.engine (Mutator._replicator s))
                  eq_refl Hpass) as Hret.
    destruct (_mutateStore "created" _ (VNum 1) now _) as [e1 newData].
    simpl in Hret. subst newData. simpl.
    destruct (select_keeps_uuid (Mutator.default_params params)
                (setProp (setProp d "uuid" (Mutator._getUuid entropy s))
                   "updatedAt" (VDate now))) as (o & Ho & Hu).
    exists o. eexists. split; [exact Ho|].
    rewrite Hu, getProp_setProp_other by discriminate.
    rewrite getProp_setProp_same. split; reflexivity.
Qed.

Lemma create_guards_witness :
  let data := [("id", VNum 99); ("order", VNum 99)] in
  (BaseReplicator.connected (Mutator._replicator idle_service) = false /\
   Mutator._create sample_entropy (VObj data) VUndefined 7 idle_service
   = (idle_service,
      Throw (BadRequest "Replicator not connected to remote. (owndata)")))
  /\ (BaseReplicator.connected (Mutator._replicator live_service) = true /\
      snd (Mutator._create sample_entropy (VObj (seed 2)) VUndefined 7
             live_service)
      = Throw (BadRequest "Optimistic create requires unique uuid. (owndata)"))
  /\ (hasProp data "uuid" = false /\
      exists o u,
        snd (Mutator._create sample_entropy (VObj data) VUndefined 7
               live_service) = Return (VObj o)
        /\ getProp o "uuid" = VStr u
        /\ VStr u = Mutator._getUuid sample_entropy live_service).
Proof.
  cbv zeta. split; [|split].
  - split; [reflexivity|].
    apply (create_guards sample_entropy [("id", VNum 99); ("order", VNum 99)]
             VUndefined 7 idle_service). reflexivity.
  - split; [reflexivity|].
    apply (create_guards sample_entropy (seed 2) VUndefined 7 live_service).
    + reflexivity.
    + exists (seed 2). split; [simpl; auto|reflexivity].
  - split; [reflexivity|].
    apply (create_guards sample_entropy [("id", VNum 99); ("order", VNum 99)]
             VUndefined 7 live_service).
    + reflexivity.
    + intros r Hr. simpl in Hr.
      repeat (destruct Hr as [<-|Hr]; [reflexivity|]). destruct Hr.
    + reflexivity.
    + reflexivity.
Defined.

(* ================================================================== *)
(** * Sorting and removal keep what was there *)
(* ================================================================== *)

Lemma sort_insert_In {A} (cmp : A -> A -> Z) (x y : A) (l : list A) :
  In y (sort_insert cmp x l) -> y = x \/ In y l.
Proof.
  induction l as [|z l IH]; simpl.
  - intros [<-|[]]. auto.
  - destruct (cmp z x <=? 0); simpl.
    + intros [<-|H]; auto. destruct (IH H); auto.
    + intros [<-|[<-|H]]; auto.
Qed.

Lemma array_sort_In {A} (cmp : A -> A -> Z) (l : list A) (y : A) :
  In y (array_sort cmp l) -> In y l.
Proof.
  unfold array_sort.
  assert (G : forall acc, In y (fold_left (fun acc x => sort_insert cmp x acc)
                                  l acc) -> In y l \/ In y acc).
  { induction l as [|x l IH]; intros acc; simpl; [auto|].
    intros H. destruct (IH _ H) as [H'|H']; [auto|].
    apply sort_insert_In in H'. destruct H'; auto. }
  intros H. destruct (G [] H) as [H'|[]]. exact H'.
Qed.

Lemma sorted_by_Forall (P : Obj -> Prop) (sorter : option (Obj -> Obj -> Z))
    (rs : list Obj) :
  Forall P rs -> Forall P (sorted_by sorter rs).
Proof.
  destruct sorter as [cmp|]; simpl; [|auto].
  rewrite !Forall_forall. intros H x Hx. apply H.
  eapply array_sort_In; eauto.
Qed.

Lemma remove_first_In {A} (p : A -> bool) (l : list A) (x : A) :
  In x (remove_first p l) -> In x l.
Proof.
  induction l as [|y l IH]; simpl; [auto|].
  destruct (p y); simpl; [auto|]. intros [H|H]; auto.
Qed.

Lemma remove_first_Forall {A} (P : A -> Prop) (p : A -> bool) (l : list A) :
  Forall P l -> Forall P (remove_first p l).
Proof.
  rewrite !Forall_forall. intros H x Hx. apply H.
  eapply remove_first_In; eauto.
Qed.

(** The scan and splice at the head of [_mutateStore]. *)
Lemma locate_and_splice (remoteRecord : Obj) (rs : list Obj) :
  let index := _findIndex rs (same_id remoteRecord) in
  (index >=? 0) = existsb (same_id remoteRecord) rs
  /\ (if index >=? 0 then splice1 rs index else rs)
     = remove_first (same_id remoteRecord) rs.
Proof.
  cbv zeta. rewrite _findIndex_index_of.
  destruct (index_of (same_id remoteRecord) rs) as [n|] eqn:E.
  - destruct (index_of_some _ _ _ E) as (_ & Hsplice & Hex).
    replace (Z.of_nat n >=? 0) with true by (symmetry; apply Z.geb_le; lia).
    unfold splice1. rewrite Nat2Z.id, Hsplice, Hex. auto.
  - destruct (index_of_none_find _ _ E) as (_ & Hrem).
    apply index_of_none in E. rewrite E, Hrem. auto.
Qed.

(** The records [_mutateStore] leaves: the stored form of the record goes;
    the stamped record is added, and the list sorted, unless the event is
    ['removed'] or the publication rejects the record. *)
Lemma mutateStore_records (eventName : string) (r : Obj) (source : Value)
    (now : Z) (e : Engine) :
  records (store (fst (_mutateStore eventName r source now e)))
  = let rest := remove_first (same_id r) (records (store e)) in
    if String.eqb eventName "removed" || negb (passes e r) then rest
    else sorted_by (_sorter e)
           (rest ++ [setProp r "updatedAt" (VDate now)]).
Proof.
  unfold _mutateStore. fold (same_id r). fold (passes e r).
  destruct (locate_and_splice r (records (store e))) as [Hidx Hsp].
  cbv zeta in Hidx, Hsp. rewrite Hsp.
  destruct (String.eqb eventName "removed"); simpl.
  - destruct (_findIndex (records (store e)) (same_id r) >=? 0);
      [reflexivity|].
    destruct (strict_eq source (VNum 0) && passes e r); reflexivity.
  - destruct (passes e r); simpl; [reflexivity|].
    destruct (_findIndex (records (store e)) (same_id r) >=? 0); reflexivity.
Qed.

Lemma mutateStore_config (eventName : string) (r : Obj) (source : Value)
    (now : Z) (e : Engine) :
  let e' := fst (_mutateStore eventName r source now e) in
  _publication e' = _publication e /\ _sorter e' = _sorter e
  /\ same_outside_records e e'.
Proof.
  cbv zeta. unfold _mutateStore.
  repeat match goal with
         | |- context [if ?c then _ else _] => destruct c
         end; simpl; repeat split; reflexivity.
Qed.

(* ================================================================== *)
(** * What each engine operation leaves alone *)
(* ================================================================== *)

Lemma same_outside_queue_refl (e : Engine) : same_outside_queue e e.
Proof. repeat split. Qed.

Lemma set_queued_outside (q : list QueuedMutation) (e : Engine) :
  same_outside_queue e (set_store (set_queued q (store e)) e).
Proof. repeat split. Qed.

Lemma addQueuedEvent_frame ev rec a e :
  same_outside_queue e (_addQueuedEvent ev rec a e)
  /\ syncedAt (store (_addQueuedEvent ev rec a e)) = syncedAt (store e).
Proof. repeat split. Qed.

Lemma addQueuedNetEvent_frame ev rec a e :
  same_outside_queue e (fst (_addQueuedNetEvent ev rec a e))
  /\ syncedAt (store (fst (_addQueuedNetEvent ev rec a e)))
     = syncedAt (store e).
Proof.
  unfold _addQueuedNetEvent. split_cases; simpl; repeat split.
Qed.

Lemma removeQueuedEvent_frame ev rec t e :
  same_outside_queue e (fst (_removeQueuedEvent ev rec t e)).
Proof.
  unfold _removeQueuedEvent. split_cases; simpl; repeat split.
Qed.

Lemma removeQueuedNetEvent_frame ev rec t e :
  same_outside_queue e (fst (_removeQueuedNetEvent ev rec t e)).
Proof.
  unfold _removeQueuedNetEvent. split_cases; simpl; repeat split.
Qed.

Lemma processQueuedEvents_frame {R}
    (service : string -> option (Value -> Value -> Value -> R -> bool * R))
    (e : Engine) (r : R) :
  let e' := fst (fst (fst (processQueuedEvents service e r))) in
  same_outside_queue e e' /\ syncedAt (store e') = syncedAt (store e).
Proof.
  cbv zeta. unfold processQueuedEvents.
  destruct (drain service (queued (store e)) r []) as [[[q' r'] calls] res].
  repeat split.
Qed.

(* ================================================================== *)
(** * C5: the publication invariant *)
(* ================================================================== *)

(** C5, where the code departs from it: the publication is asked before
    the record is stamped.  With the publication "never stamped"
    configured and an empty store, a remote ['created'] event for
    [{id: 1}] passes the publication, is stamped and appended, and the
    stored record fails the publication. *)
Lemma stamped_record_fails_publication :
  let e := constructor (Some never_stamped) None true true in
  let e' := fst (_mutateStore "created" [("id", VNum 1)] (VNum 0) 7 e) in
  _publication e = Some never_stamped
  /\ all_published never_stamped (records (store e))
  /\ records (store e') = [[("id", VNum 1); ("updatedAt", VDate 7)]]
  /\ ~ all_published never_stamped (records (store e')).
Proof.
  cbv zeta. repeat split.
  - constructor.
  - intros H. vm_compute in H. inversion H as [|x l Hx _]. discriminate.
Qed.

(** One operation keeps the invariant, given that a direct [snapshot] is
    handed records that satisfy [pub]. *)
Lemma step_keeps_published {R : Type}
    (service : string -> option (Value -> Value -> Value -> R -> bool * R))
    (pub : Obj -> bool) (op : Op) (e : Engine) (r : R) :
  stamp_blind pub ->
  _publication e = Some pub ->
  all_published pub (records (store e)) ->
  snapshot_filtered pub op ->
  all_published pub (records (store (fst (step service op (e, r)))))
  /\ _publication (fst (step service op (e, r))) = Some pub.
Proof.
  intros Hblind Hpub Hinv Hop.
  destruct op; cbn [step fst].
  - split; [|exact Hpub]. cbn. apply sorted_by_Forall. exact Hop.
  - destruct (processQueuedEvents_frame service e r)
      as [(Hrec & _ & Hp & _) _].
    destruct (processQueuedEvents service e r) as [[[e' r'] calls] res].
    cbn in *. rewrite Hrec, Hp. auto.
  - cbn. auto.
  - destruct (addQueuedNetEvent_frame eventName0 localRecord args0 e)
      as [(Hrec & _ & Hp & _) _].
    rewrite Hrec, Hp. auto.
  - destruct (removeQueuedEvent_frame eventName0 localRecord updatedAt e)
      as (Hrec & _ & Hp & _).
    rewrite Hrec, Hp. auto.
  - destruct (removeQueuedNetEvent_frame eventName0 localRecord updatedAt e)
      as (Hrec & _ & Hp & _).
    rewrite Hrec, Hp. auto.
  - cbn. auto.
  - unfold removeListeners. destruct (listening e); cbn; auto.
  - destruct (mutateStore_config eventName0 remoteRecord source now e)
      as (Hp & _).
    rewrite Hp, mutateStore_records. split; [|exact Hpub]. cbv zeta.
    unfold passes. rewrite Hpub.
    destruct (String.eqb eventName0 "removed" || negb (pub remoteRecord))
      eqn:Hgate.
    + apply remove_first_Forall. exact Hinv.
    + apply sorted_by_Forall. apply Forall_app. split.
      * apply remove_first_Forall. exact Hinv.
      * constructor; [|constructor]. rewrite Hblind.
        apply orb_false_iff in Hgate. destruct Hgate as [_ Hg].
        apply negb_false_iff in Hg. exact Hg.
  - cbn. split; [|exact Hpub]. apply sorted_by_Forall. exact Hinv.
Qed.

(** Any sequence of operations keeps the invariant. *)
Lemma run_keeps_published {R : Type}
    (service : string -> option (Value -> Value -> Value -> R -> bool * R))
    (pub : Obj -> bool) (ops : list Op) :
  stamp_blind pub ->
  Forall (snapshot_filtered pub) ops ->
  forall (e : Engine) (r : R),
    _publication e = Some pub ->
    all_published pub (records (store e)) ->
    all_published pub (records (store (fst (run service ops (e, r))))).
Proof.
  intros Hblind. unfold run.
  induction 1 as [|op ops Hop _ IH]; intros e r Hpub Hinv; [exact Hinv|].
  cbn [fold_left].
  destruct (step_keeps_published service pub op e r Hblind Hpub Hinv Hop)
    as [Hinv' Hpub'].
  destruct (step service op (e, r)) as [e1 r1]. apply IH; assumption.
Qed.

(** C5, as the code has it.  With a publication [pub] configured whose
    verdict does not depend on the [updatedAt] stamp:
    - every engine operation other than a direct [snapshot] keeps "every
      stored record satisfies [pub]", and [snapshot] does when it is handed
      records that satisfy [pub]; so the property holds after every such
      sequence of operations on a new engine;
    - for an event other than ['removed'] whose record fails [pub],
      [_mutateStore] does not append the record (the stored form, if any,
      goes), returns [undefined], and emits one ['left-pub'] event exactly
      when the record was stored before;
    - [connect] hands [snapshot] the fetched records filtered through
      [pub], so after it every stored record satisfies [pub]. *)
Theorem publication_invariant {R : Type}
    (service : string -> option (Value -> Value -> Value -> R -> bool * R))
    (pub : Obj -> bool) :
  stamp_blind pub ->
  (forall (op : Op) (e : Engine) (r : R),
      _publication e = Some pub ->
      all_published pub (records (store e)) ->
      snapshot_filtered pub op ->
      all_published pub (records (store (fst (step service op (e, r))))))
  /\ (forall (ops : list Op) (sort : option (Obj -> Obj -> Z))
             (uuid updatedAt : bool) (r : R),
      Forall (snapshot_filtered pub) ops ->
      all_published pub
        (records (store (fst (run service ops
                                (constructor (Some pub) sort uuid updatedAt,
                                 r))))))
  /\ (forall (eventName : string) (rec : Obj) (source : Value) (now : Z)
             (e : Engine),
      _publication e = Some pub ->
      String.eqb eventName "removed" = false ->
      pub rec = false ->
      let e' := fst (_mutateStore eventName rec source now e) in
      records (store e') = remove_first (same_id rec) (records (store e))
      /\ snd (_mutateStore eventName rec source now e) = VUndefined
      /\ (if existsb (same_id rec) (records (store e))
          then emits_once (descriptor source "left-pub" eventName rec) e e'
          else emits_nothing e e'))
  /\ (forall (rep : BaseReplicator.Replicator) (fetched : list Obj) (r : R),
      BaseReplicator._publication rep = Some pub ->
      let rep' :=
        fst (fst (BaseReplicator.connect service (Return fetched) rep r)) in
      all_published pub (records (store (BaseReplicator.engine rep')))).
Proof.
  intros Hblind. split; [|split; [|split]].
  - intros op e r Hpub Hinv Hop.
    apply (step_keeps_published service pub op e r Hblind Hpub Hinv Hop).
  - intros ops sort uuid updatedAt r Hops.
    apply (run_keeps_published service pub ops Hblind Hops);
      [reflexivity|constructor].
  - intros eventName0 rec source now e Hpub Hev Hrej. cbv zeta.
    unfold _mutateStore. fold (same_id rec).
    destruct (locate_and_splice rec (records (store e))) as [Hidx Hsp].
    cbv zeta in Hidx, Hsp. rewrite Hsp, Hidx, Hev, Hpub, Hrej. cbn [negb].
    destruct (existsb (same_id rec) (records (store e))); cbn;
      repeat split; destruct e as [? ? ? ? ? []]; reflexivity.
  - intros rep fetched r Hpub. cbv zeta. unfold BaseReplicator.connect.
    rewrite Hpub. unfold BaseReplicator.sorter.
    match goal with
    | |- context [processQueuedEvents service ?e1 r] =>
        destruct (processQueuedEvents_frame service e1 r)
          as [(Hrec & _) _];
        destruct (processQueuedEvents service e1 r) as [[[e2 r'] calls] res]
    end.
    cbn in *. rewrite Hrec. apply sorted_by_Forall.
    apply Forall_forall. intros x Hx. apply filter_In in Hx. tauto.
Qed.

Lemma publication_invariant_witness :
  let moved := [("id", VNum 1); ("uuid", VNum 1001); ("order", VNum 99)] in
  let e := BaseReplicator.engine published_replicator in
  stamp_blind order_upto_3
  /\ all_published order_upto_3
       (records (store (fst (step obliging_service
                               (OpMutateStore "patched" moved (VNum 0) 7)
                               (e, tt)))))
  /\ records (store (fst (_mutateStore "patched" moved (VNum 0) 7 e)))
     = remove_first (same_id moved) (records (store e))
  /\ all_published order_upto_3
       (records (store (BaseReplicator.engine
          (fst (fst (BaseReplicator.connect obliging_service (Return seeds)
                       published_replicator tt)))))).
Proof.
  cbv zeta.
  assert (Hblind : stamp_blind order_upto_3).
  { intros r t. unfold order_upto_3.
    rewrite getProp_setProp_other by discriminate. reflexivity. }
  destruct (publication_invariant obliging_service order_upto_3 Hblind)
    as (Hops & _ & Hrej & Hconn).
  split; [exact Hblind|]. split; [|split].
  - apply (Hops (OpMutateStore "patched"
                   [("id", VNum 1); ("uuid", VNum 1001); ("order", VNum 99)]
                   (VNum 0) 7)
             (BaseReplicator.engine published_replicator) tt).
    + reflexivity.
    + repeat constructor.
    + exact I.
  - apply (Hrej "patched"
             [("id", VNum 1); ("uuid", VNum 1001); ("order", VNum 99)]
             (VNum 0) 7 (BaseReplicator.engine published_replicator));
      reflexivity.
  - apply (Hconn published_replicator seeds tt). reflexivity.
Defined.

(* ================================================================== *)
(** * C3: the watermark [syncedAt] *)
(* ================================================================== *)

Lemma string_compare_refl (s : string) : String.compare s s = Eq.
Proof.
  pose proof (String.compare_antisym s s) as H.
  destruct (String.compare s s); simpl in H; congruence.
Qed.

Lemma string_leb_refl (s : string) : String.leb s s = true.
Proof. unfold String.leb. rewrite string_compare_refl. reflexivity. Qed.

Lemma string_ltb_leb (a b : string) :
  String.ltb a b = true -> String.leb a b = true.
Proof.
  unfold String.ltb, String.leb. destruct (String.compare a b); congruence.
Qed.

Lemma string_nltb_leb (a b : string) :
  String.ltb a b = false -> String.leb b a = true.
Proof.
  unfold String.ltb, String.leb. rewrite (String.compare_antisym b a).
  destruct (String.compare a b); simpl; congruence.
Qed.

Lemma string_leb_trans (a b c : string) :
  String.leb a b = true -> String.leb b c = true -> String.leb a c = true.
Proof.
  unfold String.leb.
  destruct (String.compare a b) eqn:Hab; try discriminate; intros _.
  - apply String.compare_eq_iff in Hab. subst b. auto.
  - destruct (String.compare b c) eqn:Hbc; try discriminate; intros _.
    + apply String.compare_eq_iff in Hbc. subst c. rewrite Hab. reflexivity.
    + apply OrderedTypeEx.String_as_OT.cmp_lt in Hab, Hbc.
      pose proof (OrderedTypeEx.String_as_OT.lt_trans _ _ _ Hab Hbc) as Hac.
      apply OrderedTypeEx.String_as_OT.cmp_lt in Hac.
      unfold OrderedTypeEx.String_as_OT.cmp in Hac. rewrite Hac. reflexivity.
Qed.

(** The loop of [snapshot] over string timestamps computes their maximum,
    starting from [a]. *)
Lemma latest_of_strings (recs : list Obj) :
  forall a,
    Forall string_stamped recs ->
    exists m,
      fold_left (fun updatedAt rec =>
                   if js_gt (getProp rec "updatedAt") updatedAt
                   then getProp rec "updatedAt" else updatedAt)
        recs (VStr a) = VStr m
      /\ (m = a \/ exists rec, In rec recs /\ getProp rec "updatedAt" = VStr m)
      /\ String.leb a m = true
      /\ (forall rec t, In rec recs -> getProp rec "updatedAt" = VStr t ->
                        String.leb t m = true).
Proof.
  induction recs as [|rec recs IH]; intros a Hall.
  - exists a. simpl. split; [reflexivity|]. split; [auto|].
    split; [apply string_leb_refl|]. intros ? ? [].
  - inversion Hall as [|? ? [t Ht] Hrest]; subst.
    simpl. rewrite Ht. unfold js_gt, js_lt. simpl.
    destruct (String.ltb a t) eqn:Hlt.
    + destruct (IH t Hrest) as (m & Hm & Hwhere & Hge & Hmax).
      exists m. split; [exact Hm|]. split; [|split].
      * right. destruct Hwhere as [->|(r' & Hr' & Hg)]; eauto.
      * eapply string_leb_trans; [apply string_ltb_leb; exact Hlt|exact Hge].
      * intros r' t' [<-|Hin] Hg; [|eauto].
        rewrite Ht in Hg. injection Hg as <-. exact Hge.
    + destruct (IH a Hrest) as (m & Hm & Hwhere & Hge & Hmax).
      exists m. split; [exact Hm|]. split; [|split].
      * destruct Hwhere as [->|(r' & Hr' & Hg)]; eauto.
      * exact Hge.
      * intros r' t' [<-|Hin] Hg; [|eauto].
        rewrite Ht in Hg. injection Hg as <-.
        eapply string_leb_trans; [apply string_nltb_leb; exact Hlt|exact Hge].
Qed.

(** C3, where the code departs from it: a snapshot of one record updated
    in 2021 puts the watermark at that time; a following [snapshot([])]
    puts it back to the epoch [DOB], and a following confirmation
    [removeQueuedEvent(.., .., '2019-...')] puts it at 2019: both are below
    the value before the operation. *)
Lemma syncedAt_decreases :
  let stamp := VStr "2021-01-01T00:00:00.000Z" in
  let older := VStr "2019-01-01T00:00:00.000Z" in
  let w0 := (constructor None None true true, tt) in
  let w1 := step obliging_service
              (OpSnapshot [[("id", VNum 1); ("updatedAt", stamp)]]) w0 in
  let w2 := step obliging_service (OpSnapshot []) w1 in
  let w3 := step obliging_service
              (OpRemoveQueuedEvent "create" (VObj [("id", VNum 1)]) older)
              w1 in
  syncedAt (store (fst w1)) = stamp
  /\ syncedAt (store (fst w2)) = DOB
  /\ js_lt (syncedAt (store (fst w2))) (syncedAt (store (fst w1))) = true
  /\ syncedAt (store (fst w3)) = older
  /\ js_lt (syncedAt (store (fst w3))) (syncedAt (store (fst w1))) = true.
Proof.
  cbv zeta. repeat split; vm_compute; reflexivity.
Qed.

(** C3, as the code has it.  Across one engine operation:
    - [snapshot] sets the watermark from its argument alone, whatever it
      was before: to [DOB] for the empty list, and for records with string
      timestamps to the greatest of [DOB] and their [updatedAt];
    - [removeQueuedEvent] and [removeQueuedNetEvent] set it to the
      [updatedAt] they are given when that is truthy and they do not throw,
      whatever it was before, and leave it alone otherwise;
    - every other operation leaves it as it was. *)
Theorem syncedAt_after_step {R : Type}
    (service : string -> option (Value -> Value -> Value -> R -> bool * R))
    (op : Op) (e : Engine) (r : R) :
  let e' := fst (step service op (e, r)) in
  match op with
  | OpSnapshot recs =>
      (forall e2, syncedAt (store (snapshot recs e2)) = syncedAt (store e'))
      /\ (recs = [] -> syncedAt (store e') = DOB)
      /\ (Forall string_stamped recs ->
          exists m,
            syncedAt (store e') = VStr m
            /\ (m = DOB_text \/
                exists rec, In rec recs /\ getProp rec "updatedAt" = VStr m)
            /\ String.leb DOB_text m = true
            /\ (forall rec t, In rec recs ->
                  getProp rec "updatedAt" = VStr t -> String.leb t m = true))
  | OpRemoveQueuedEvent ev rec t =>
      watermark_after_confirmation t (_removeQueuedEvent ev rec t e) e
  | OpRemoveQueuedNetEvent ev rec t =>
      watermark_after_confirmation t (_removeQueuedNetEvent ev rec t e) e
  | _ => syncedAt (store e') = syncedAt (store e)
  end.
Proof.
  cbv zeta. destruct op; cbn [step fst].
  - split; [reflexivity|]. split; [intros ->; reflexivity|].
    intros Hall. exact (latest_of_strings recs DOB_text Hall).
  - pose proof (processQueuedEvents_frame service e r) as [_ H].
    destruct (processQueuedEvents service e r) as [[[e' r'] calls] res].
    exact H.
  - reflexivity.
  - apply (proj2 (addQueuedNetEvent_frame eventName0 localRecord args0 e)).
  - unfold watermark_after_confirmation, _removeQueuedEvent.
    match goal with
    | |- context [bindR ?a ?k] => destruct (bindR a k) as [index|err]
    end; cbn [fst snd]; [|reflexivity].
    destruct (truthy updatedAt); reflexivity.
  - unfold watermark_after_confirmation, _removeQueuedNetEvent.
    destruct (0 <? Z.of_nat (List.length (queued (store e))));
      [|cbn; destruct (truthy updatedAt); reflexivity].
    destruct (idName_of localRecord) as [idName|err]; [|reflexivity].
    destruct (_findIndexReversed (queued (store e)) _) as [index|err];
      [|reflexivity].
    match goal with
    | |- context [_findIndexReversed ?q ?p] =>
        destruct (_findIndexReversed q p) as [index2|err]
    end; cbn; [|reflexivity].
    destruct (truthy updatedAt); reflexivity.
  - reflexivity.
  - unfold removeListeners. destruct (listening e); reflexivity.
  - destruct (mutateStore_config eventName0 remoteRecord source now e)
      as (_ & _ & _ & H & _). exact H.
  - reflexivity.
Qed.

Lemma syncedAt_after_step_witness :
  let recs := [[("id", VNum 1); ("updatedAt", VStr "2021-01-01T00:00:00.000Z")];
               [("id", VNum 2); ("updatedAt", VStr "2020-12-31T00:00:00.000Z")]] in
  Forall string_stamped recs
  /\ exists m,
       syncedAt (store (fst (step obliging_service (OpSnapshot recs)
                               (constructor None None true true, tt))))
       = VStr m
       /\ (m = DOB_text \/
           exists rec, In rec recs /\ getProp rec "updatedAt" = VStr m)
       /\ String.leb DOB_text m = true
       /\ (forall rec t, In rec recs ->
             getProp rec "updatedAt" = VStr t -> String.leb t m = true).
Proof.
  cbv zeta.
  assert (Hall : Forall string_stamped
            [[("id", VNum 1); ("updatedAt", VStr "2021-01-01T00:00:00.000Z")];
             [("id", VNum 2); ("updatedAt", VStr "2020-12-31T00:00:00.000Z")]]).
  { repeat constructor; eexists; reflexivity. }
  split; [exact Hall|].
  apply (syncedAt_after_step obliging_service
           (OpSnapshot
              [[("id", VNum 1); ("updatedAt", VStr "2021-01-01T00:00:00.000Z")];
               [("id", VNum 2); ("updatedAt", VStr "2020-12-31T00:00:00.000Z")]])
           (constructor None None true true) tt).
  exact Hall.
Defined.

(* ================================================================== *)
(** * C2: [_addQueuedNetEvent] after a queued ['remove'] *)
(* ================================================================== *)

(** C2, evaluated where the code breaks it.  After [remove(1)] the queue
    holds one ['remove'] entry for record 1.  [_addQueuedNetEvent] for the
    same record then tests [queued[index].event], a property no entry has,
    so the branch for a prior ['remove'] is never taken: with ['update'] it
    returns without an error and overwrites the ['remove'] entry, and with
    ['create'] it overwrites it as well instead of inserting behind it. *)
Theorem addQueuedNetEvent_after_remove :
  let e := Mutator._engine after_remove_1 in
  let again := VObj [("id", VNum 1); ("uuid", VNum 1001); ("order", VNum 7)] in
  let removal := mkQueued "remove" (VObj (seed 1)) [VNum 1; VObj []] in
  queued (store e) = [removal]
  /\ snd (_addQueuedNetEvent "update" again [VNum 1; again; VObj []] e)
     = Return tt
  /\ queued (store (fst (_addQueuedNetEvent "update" again
                           [VNum 1; again; VObj []] e)))
     = [mkQueued "update" again [VNum 1; again; VObj []]]
  /\ snd (_addQueuedNetEvent "create" again [again; VObj []] e) = Return tt
  /\ queued (store (fst (_addQueuedNetEvent "create" again
                           [again; VObj []] e)))
     = [mkQueued "create" again [again; VObj []]].
Proof.
  cbv zeta. repeat split; vm_compute; reflexivity.
Qed.

Lemma scan_down_throws_TypeError {A} (predicate : A -> Result bool)
    (l : list A) :
  (forall x err, predicate x = Throw err -> err = TypeError) ->
  forall err, scan_down l predicate = Throw err -> err = TypeError.
Proof.
  intros Hp. induction l as [|x l IH]; simpl; [discriminate|].
  intros err. destruct (predicate x) as [hit|err'] eqn:E; simpl.
  - destruct hit; [discriminate|]. apply IH.
  - intros [= <-]. eauto.
Qed.

Lemma js_get_throws_TypeError (v : Value) (k : string) (err : Error) :
  js_get v k = Throw err -> err = TypeError.
Proof. unfold js_get. destruct (readProp v k); congruence. Qed.

Lemma idName_of_throws_TypeError (v : Value) (err : Error) :
  idName_of v = Throw err -> err = TypeError.
Proof.
  unfold idName_of, js_in. destruct v; simpl; intros H;
    try discriminate; injection H as <-; reflexivity.
Qed.

(** X1.  Whatever the queue and the arguments, [_addQueuedNetEvent] never
    fails with [BadRequest]. *)
Lemma addQueuedNetEvent_never_BadRequest ev rec a e :
  is_BadRequest (snd (_addQueuedNetEvent ev rec a e)) = false.
Proof.
  unfold _addQueuedNetEvent.
  destruct (0 <? Z.of_nat (List.length (queued (store e)))); [|reflexivity].
  match goal with
  | |- context [bindR ?x ?k] => destruct (bindR x k) as [index|err] eqn:E
  end.
  - destruct (index >? -1); [|reflexivity].
    destruct (nth_error _ _); reflexivity.
  - assert (err = TypeError); [|subst; reflexivity].
    destruct (idName_of rec) as [idName|err'] eqn:Hid; simpl in E.
    + eapply scan_down_throws_TypeError; [|exact E].
      intros x err'. unfold bindR.
      destruct (js_get (record x) idName) eqn:G1.
      * destruct (js_get rec idName) eqn:G2; [discriminate|].
        intros [= <-]. eapply js_get_throws_TypeError; eauto.
      * intros [= <-]. eapply js_get_throws_TypeError; eauto.
    + injection E as <-. eapply idName_of_throws_TypeError; eauto.
Qed.

(* ================================================================== *)
(** * C6: [_removeQueuedEvent] *)
(* ================================================================== *)

(** C6, evaluated where the code breaks it.  Two records are created
    locally with uuids "a" and "b" and no server id, so the queue holds
    their two ['create'] entries.  The engine is configured for uuids
    ([useUuid]), but [_removeQueuedEvent] reads [this._useUuid], which
    nothing sets, and so keys on [id], else [_id].  When the create of "a"
    is confirmed, neither record has an [_id], every entry matches, and the
    newest one goes: the entry of "b" is removed and the entry of "a",
    the confirmed one, stays queued. *)
Theorem removeQueuedEvent_ignores_uuid :
  let e := Mutator._engine after_two_creates in
  let confirmed := VObj (setProp local_a "updatedAt" (VDate 7)) in
  let stamp := VStr "2021-01-01T00:00:00.000Z" in
  useUuid e = true
  /\ queued (store e) = [queued_create local_a 7; queued_create local_b 8]
  /\ snd (_removeQueuedEvent "create" confirmed stamp e) = Return tt
  /\ queued (store (fst (_removeQueuedEvent "create" confirmed stamp e)))
     = [queued_create local_a 7]
  /\ syncedAt (store (fst (_removeQueuedEvent "create" confirmed stamp e)))
     = stamp.
Proof.
  cbv zeta. repeat split; vm_compute; reflexivity.
Qed.

(* ================================================================== *)
(** * C4: [processQueuedEvents] *)
(* ================================================================== *)

(** C4, evaluated where the code breaks it.  [update(0, {uuid: 1000,
    order: 99})] queues an ['update'] entry whose first positional
    argument, [getId(newData)], is [undefined]; a [create] queues a second
    entry behind it.  On replay the first entry is shifted off, the scrub
    loop reads [.query] of [undefined] and throws before any remote call:
    the call of [processQueuedEvents] is rejected, no entry was replayed
    (no invocation failed), the first entry is gone instead of back at the
    head, and the queue is not empty.  A [connect] over the same state
    swallows the error and leaves the same queue. *)
Theorem processQueuedEvents_loses_entry :
  let e := Mutator._engine after_update_and_create in
  let updated :=
    VObj [("uuid", VNum 1000); ("order", VNum 99); ("updatedAt", VDate 7)] in
  let created :=
    VObj [("id", VNum 99); ("uuid", VNum 1099); ("order", VNum 99);
          ("updatedAt", VDate 8)] in
  let first := mkQueued "update" updated [VUndefined; updated; VObj []] in
  let second := mkQueued "create" created [created; VObj []] in
  let out := processQueuedEvents obliging_service e tt in
  let reconnected :=
    BaseReplicator.connect obliging_service (Return seeds)
      (Mutator._replicator after_update_and_create) tt in
  queued (store e) = [first; second]
  /\ snd out = Throw TypeError
  /\ snd (fst out) = []
  /\ queued (store (fst (fst (fst out)))) = [second]
  /\ snd reconnected = Return tt
  /\ queued (store (BaseReplicator.engine (fst (fst reconnected))))
     = [second].
Proof.
  cbv zeta. repeat split; vm_compute; reflexivity.
Qed.

(** For a queue whose entries go through the scrub loop and name methods
    of the service, [processQueuedEvents] is the replay the specification
    describes: it returns [true], and its calls, the queue and the remote
    state it leaves are those of [Replay]. *)
Lemma drain_replays {R : Type}
    (service : string -> option (Value -> Value -> Value -> R -> bool * R))
    (q : list QueuedMutation) :
  Forall (replayable service) q ->
  forall (r : R) (log : list Invocation),
  exists calls q' r',
    drain service q r log = (q', r', log ++ calls, Return (VBool true))
    /\ Replay service r q calls q' r'.
Proof.
  induction q as [|el rest IH]; intros Hall r log.
  - exists [], [], r. simpl. rewrite app_nil_r. split; constructor.
  - inversion Hall as [|? ? [[a Ha] [remote Hm]] Hrest]; subst.
    simpl. rewrite Ha, Hm.
    destruct (remote (arg 0 a) (arg 1 a) (arg 2 a) r) as [[|] r1] eqn:Hans.
    + destruct (IH Hrest r1
                  (log ++ [mkInvocation (eventName el) (arg 0 a) (arg 1 a)
                             (arg 2 a)]))
        as (calls & q' & r' & Hd & Hr).
      exists (invocation_of el :: calls), q', r'. split.
      * rewrite Hd, <- app_assoc. unfold invocation_of, scrubbed.
        rewrite Ha. reflexivity.
      * econstructor; [|exact Hr]. unfold answer, scrubbed.
        rewrite Hm, Ha. exact Hans.
    + exists [invocation_of el], (scrubbed el :: rest), r1. split.
      * unfold invocation_of, scrubbed. rewrite Ha. reflexivity.
      * constructor. unfold answer, scrubbed. rewrite Hm, Ha. exact Hans.
Qed.

(** What a replay leaves: either every entry was replayed, in queue order,
    and the queue is empty; or the calls are those of the entries up to
    the first rejected one, in queue order, and the queue is that entry
    followed by the entries behind it in their order. *)
Lemma Replay_outcome {R : Type}
    (service : string -> option (Value -> Value -> Value -> R -> bool * R))
    (r r' : R) (q q' : list QueuedMutation) (calls : list Invocation) :
  Replay service r q calls q' r' ->
  (q' = [] /\ calls = map invocation_of q)
  \/ (exists before el behind,
        q = before ++ el :: behind
        /\ calls = map invocation_of (before ++ [el])
        /\ q' = scrubbed el :: behind).
Proof.
  induction 1 as [r|r r1 r' el rest q' calls Hans Hrep IH|r r1 el rest Hans].
  - left. auto.
  - destruct IH as [[-> ->]|(before & el' & behind & -> & -> & ->)].
    + left. auto.
    + right. exists (el :: before), el', behind. auto.
  - right. exists [], el, rest. auto.
Qed.

(* ------------------------------------------------------------------ *)
(** ** What [_removeQueuedEvent] does: it keys on the server id *)

Lemma scan_down_ext {A} (f g : A -> Result bool) (l : list A) :
  Forall (fun x => f x = g x) l -> scan_down l f = scan_down l g.
Proof.
  induction 1 as [|x l Hx _ IH]; simpl; [reflexivity|].
  rewrite Hx, IH. reflexivity.
Qed.

Lemma scan_down_index_of {A} (p : A -> bool) (l : list A) :
  scan_down l (fun x => Return (p x))
  = Return match index_of p l with
           | Some n => Z.of_nat (List.length l - 1 - n)
           | None => -1
           end.
Proof.
  induction l as [|x l IH]; simpl; [reflexivity|].
  destruct (p x); cbn [bindR].
  - do 2 f_equal. lia.
  - rewrite IH. destruct (index_of p l) as [n|]; cbn [option_map];
      [|reflexivity].
    do 2 f_equal. lia.
Qed.

Lemma index_of_bound {A} (p : A -> bool) (l : list A) (n : nat) :
  index_of p l = Some n -> (n < List.length l)%nat.
Proof.
  revert n. induction l as [|x l IH]; simpl; [discriminate|].
  destruct (p x); [intros ? [= <-]; lia|].
  destruct (index_of p l) as [m|]; simpl; [|discriminate].
  intros ? [= <-]. specialize (IH m eq_refl). lia.
Qed.

(** Splicing out the index the reversed scan finds removes the last
    match. *)
Lemma splice_last_match {A} (p : A -> bool) (l : list A) (n : nat) :
  index_of p (rev l) = Some n ->
  splice1 l (Z.of_nat (List.length (rev l) - 1 - n)) = remove_last p l.
Proof.
  intros E. unfold remove_last, splice1. rewrite Nat2Z.id.
  pose proof (index_of_bound _ _ _ E) as Hn.
  destruct (index_of_some _ _ _ E) as (_ & <- & _).
  remember (rev l) as newest_first eqn:Hrev.
  assert (Hl : l = rev newest_first)
    by (subst; symmetry; apply rev_involutive).
  rewrite Hl, firstn_rev, skipn_rev, rev_app_distr.
  replace (List.length newest_first - (List.length newest_first - 1 - n))%nat
    with (S n) by lia.
  replace (List.length newest_first - S (List.length newest_first - 1 - n))%nat
    with n by lia.
  reflexivity.
Qed.

Lemma remove_last_none {A} (p : A -> bool) (l : list A) :
  index_of p (rev l) = None -> remove_last p l = l.
Proof.
  intros E. unfold remove_last.
  destruct (index_of_none_find _ _ E) as (_ & ->). apply rev_involutive.
Qed.

(** On a queue whose entries all carry a record, and for a record [l],
    [_removeQueuedEvent] does not throw, removes exactly the newest entry
    whose record has the same server id as [l] ([id] when [l] has one,
    else [_id]: the uuid is never looked at) and the given event name,
    leaves the queue as it is when there is none, and sets the watermark
    to [updatedAt] when that is truthy. *)
Lemma removeQueuedEvent_by_server_id (eventName : string) (l : Obj)
    (updatedAt : Value) (e : Engine) :
  Forall has_record (queued (store e)) ->
  let idName := if hasProp l "id" then "id" else "_id" in
  let e' := fst (_removeQueuedEvent eventName (VObj l) updatedAt e) in
  snd (_removeQueuedEvent eventName (VObj l) updatedAt e) = Return tt
  /\ queued (store e')
     = remove_last (entry_matches idName eventName l) (queued (store e))
  /\ syncedAt (store e')
     = (if truthy updatedAt then updatedAt else syncedAt (store e))
  /\ same_outside_queue e e'.
Proof.
  intros Hall. cbv zeta. unfold _removeQueuedEvent.
  cbn [_useUuid truthy idName_of js_in bindR].
  set (idName := if hasProp l "id" then "id" else "_id").
  unfold _findIndexReversed.
  rewrite (scan_down_ext _
             (fun q => Return (entry_matches idName eventName l q))).
  2:{ apply Forall_rev. eapply Forall_impl; [|exact Hall].
      intros q [Hu Hn]. unfold entry_matches, js_get.
      destruct (record q) eqn:Hr; simpl; try reflexivity; congruence. }
  rewrite scan_down_index_of.
  destruct (index_of _ (rev (queued (store e)))) as [n|] eqn:E.
  - replace (Z.of_nat (List.length (rev (queued (store e))) - 1 - n) >=? 0)
      with true by (symmetry; apply Z.geb_le; lia).
    rewrite (splice_last_match _ _ _ E).
    destruct (truthy updatedAt); repeat split.
  - replace (-1 >=? 0) with false by reflexivity.
    rewrite (remove_last_none _ _ E).
    destruct (truthy updatedAt); repeat split;
      destruct e as [? ? ? ? ? []]; reflexivity.
Qed.

(* ================================================================== *)
(** * The two index scans *)
(* ================================================================== *)

Lemma index_of_first {A} (p : A -> bool) (l : list A) (n : nat) :
  index_of p l = Some n ->
  (exists x, nth_error l n = Some x /\ p x = true)
  /\ (forall j y, (j < n)%nat -> nth_error l j = Some y -> p y = false).
Proof.
  revert n. induction l as [|x l IH]; intros n; simpl; [discriminate|].
  destruct (p x) eqn:Hp.
  - intros [= <-]. split; [exists x; auto|]. intros j y Hj. lia.
  - destruct (index_of p l) as [m|]; simpl; [|discriminate].
    intros [= <-]. destruct (IH m eq_refl) as [Hx Hbefore].
    split; [exact Hx|]. intros [|j] y Hj; simpl.
    + intros [= <-]. exact Hp.
    + apply Hbefore. lia.
Qed.

(** X2.  [_findIndex] answers [-1] exactly when no element satisfies the
    predicate; otherwise it answers an index inside the array, the element
    there satisfies the predicate and no element before it does. *)
Theorem findIndex_first_match {A} (p : A -> bool) (l : list A) :
  let i := _findIndex l p in
  (i = -1 /\ forall x, In x l -> p x = false)
  \/ (0 <= i < Z.of_nat (List.length l)
      /\ (exists x, nth_error l (Z.to_nat i) = Some x /\ p x = true)
      /\ (forall j y, (j < Z.to_nat i)%nat -> nth_error l j = Some y ->
                      p y = false)).
Proof.
  cbv zeta. rewrite _findIndex_index_of.
  destruct (index_of p l) as [n|] eqn:E.
  - right. pose proof (index_of_bound _ _ _ E).
    rewrite Nat2Z.id. split; [lia|]. apply index_of_first. exact E.
  - left. split; [reflexivity|]. intros x Hx.
    apply index_of_none in E. destruct (p x) eqn:Hp; [|reflexivity].
    assert (existsb p l = true) by (apply existsb_exists; eauto). congruence.
Qed.

(** X3.  [_findIndexReversed], for a predicate that does not throw, answers
    [-1] exactly when no element satisfies the predicate; otherwise it
    answers an index inside the array, the element there satisfies the
    predicate and no element behind it does. *)
Theorem findIndexReversed_last_match {A} (p : A -> bool) (l : list A) :
  exists i,
    _findIndexReversed l (fun x => Return (p x)) = Return i
    /\ ((i = -1 /\ forall x, In x l -> p x = false)
        \/ (0 <= i < Z.of_nat (List.length l)
            /\ (exists x, nth_error l (Z.to_nat i) = Some x /\ p x = true)
            /\ (forall j y, (Z.to_nat i < j)%nat -> nth_error l j = Some y ->
                            p y = false))).
Proof.
  unfold _findIndexReversed. rewrite scan_down_index_of. eexists.
  split; [reflexivity|].
  destruct (index_of p (rev l)) as [n|] eqn:E.
  - right. pose proof (index_of_bound _ _ _ E) as Hn.
    destruct (index_of_first _ _ _ E) as [(x & Hx & Hp) Hbefore].
    rewrite length_rev in *. rewrite Nat2Z.id.
    rewrite nth_error_rev in Hx.
    destruct (Nat.ltb_spec n (List.length l)) as [_|]; [|lia].
    replace (List.length l - 1 - n)%nat with (List.length l - S n)%nat by lia.
    split; [lia|]. split; [eauto|].
    intros j y Hj Hy.
    assert (Hjl : (j < List.length l)%nat)
      by (apply nth_error_Some; congruence).
    apply (Hbefore (List.length l - S j)%nat y); [lia|].
    rewrite nth_error_rev.
    destruct (Nat.ltb_spec (List.length l - S j) (List.length l)); [|lia].
    replace (List.length l - S (List.length l - S j))%nat with j by lia.
    exact Hy.
  - left. split; [reflexivity|]. intros x Hx.
    apply index_of_none in E. destruct (p x) eqn:Hp; [|reflexivity].
    assert (existsb p (rev l) = true)
      by (apply existsb_exists; exists x; split; [apply in_rev; rewrite rev_involutive|]; auto).
    congruence.
Qed.

(* ================================================================== *)
(** * [Array.prototype.sort] as the engine uses it *)
(* ================================================================== *)

Lemma sort_insert_perm {A} (cmp : A -> A -> Z) (x : A) (l : list A) :
  Permutation (sort_insert cmp x l) (x :: l).
Proof.
  induction l as [|y l IH]; simpl; [reflexivity|].
  destruct (cmp y x <=? 0); [|reflexivity].
  rewrite IH. apply perm_swap.
Qed.

Lemma array_sort_perm {A} (cmp : A -> A -> Z) (l : list A) :
  Permutation (array_sort cmp l) l.
Proof.
  unfold array_sort.
  assert (G : forall acc,
             Permutation (fold_left (fun acc x => sort_insert cmp x acc) l acc)
                         (acc ++ l)).
  { induction l as [|x l IH]; intros acc; simpl.
    - rewrite app_nil_r. reflexivity.
    - rewrite IH, sort_insert_perm. apply Permutation_middle. }
  exact (G []).
Qed.

Lemma sorted_by_perm (sorter : option (Obj -> Obj -> Z)) (rs : list Obj) :
  Permutation (sorted_by sorter rs) rs.
Proof.
  destruct sorter; simpl; [apply array_sort_perm|reflexivity].
Qed.



(* ================================================================== *)
(** * [snapshot], [changeSort] and the upsert of [_mutateStore] *)
(* ================================================================== *)



Lemma remove_first_length {A} (p : A -> bool) (l : list A) :
  Z.of_nat (List.length (remove_first p l))
  = Z.of_nat (List.length l) - (if existsb p l then 1 else 0).
Proof.
  induction l as [|x l IH]; [reflexivity|].
  cbn [remove_first existsb]. destruct (p x); cbn [orb].
  - change (List.length (x :: l)) with (S (List.length l)). lia.
  - change (List.length (x :: remove_first p l))
      with (S (List.length (remove_first p l))).
    change (List.length (x :: l)) with (S (List.length l)).
    destruct (existsb p l); lia.
Qed.

(** X6.  One call of [_mutateStore] changes the number of stored records by
    minus one for the stored form of the record, if there is one, and by
    plus one for the record itself, unless the event is ['removed'] or the
    publication rejects it. *)
Theorem mutateStore_size (eventName : string) (r : Obj) (source : Value)
    (now : Z) (e : Engine) :
  let e' := fst (_mutateStore eventName r source now e) in
  Z.of_nat (List.length (records (store e')))
  = Z.of_nat (List.length (records (store e)))
    - (if existsb (same_id r) (records (store e)) then 1 else 0)
    + (if negb (String.eqb eventName "removed") && passes e r then 1 else 0).
Proof.
  cbv zeta. rewrite mutateStore_records. cbv zeta.
  destruct (String.eqb eventName "removed"); simpl.
  - rewrite remove_first_length. lia.
  - destruct (passes e r); simpl.
    + rewrite (Permutation_length (sorted_by_perm _ _)), length_app. simpl.
      rewrite Nat2Z.inj_add, remove_first_length. simpl. lia.
    + rewrite remove_first_length. lia.
Qed.



Lemma strict_eq_eq (a b : Value) : strict_eq a b = true -> a = b.
Proof.
  destruct a, b; simpl; try discriminate; intros H; try reflexivity.
  - apply Bool.eqb_prop in H. congruence.
  - apply Z.eqb_eq in H. congruence.
  - apply String.eqb_eq in H. congruence.
Qed.

Lemma remove_first_split {A} (p : A -> bool) (l : list A) :
  (remove_first p l = l /\ forall x, In x l -> p x = false)
  \/ (exists before x behind,
        l = before ++ x :: behind /\ p x = true
        /\ remove_first p l = before ++ behind).
Proof.
  induction l as [|y l IH]; simpl.
  - left. split; [reflexivity|]. intros x [].
  - destruct (p y) eqn:Hp.
    + right. exists [], y, l. auto.
    + destruct IH as [[Heq Hnone]|(before & x & behind & -> & Hx & Heq)].
      * left. rewrite Heq. split; [reflexivity|].
        intros x [<-|Hx]; auto.
      * right. exists (y :: before), x, behind. rewrite Heq. auto.
Qed.

(** X8.  The upsert keeps identity unique: when the stored records carry
    primitive ids, each once, and the incoming record carries a primitive
    id, the same holds of the store after [_mutateStore], whatever the
    event. *)
Theorem mutateStore_keeps_ids_unique (eventName : string) (r : Obj)
    (source : Value) (now : Z) (e : Engine) :
  unique_ids (records (store e)) ->
  hasProp r "id" = true ->
  primitive (getProp r "id") ->
  unique_ids (records (store (fst (_mutateStore eventName r source now e)))).
Proof.
  intros [Hnd Hprim] Hid Hr. rewrite mutateStore_records. cbv zeta.
  assert (Hsame : forall x, same_id r x
                            = strict_eq (getProp x "id") (getProp r "id")).
  { intros x. unfold same_id. rewrite Hid. reflexivity. }
  assert (Hrest : unique_ids (remove_first (same_id r) (records (store e)))
                  /\ ~ In (getProp r "id")
                         (ids (remove_first (same_id r) (records (store e))))).
  { destruct (remove_first_split (same_id r) (records (store e)))
      as [[Heq Hnone]|(before & x & behind & Hl & Hx & Heq)].
    - rewrite Heq. split; [split; assumption|].
      intros Hin. apply in_map_iff in Hin. destruct Hin as (x & Hx & Hin).
      specialize (Hnone x Hin). rewrite Hsame, Hx in Hnone.
      unfold primitive in Hr. congruence.
    - rewrite Heq. rewrite Hl in Hnd, Hprim. unfold unique_ids, ids in *.
      rewrite map_app in *. simpl in *.
      rewrite Hsame in Hx. apply strict_eq_eq in Hx. rewrite <- Hx.
      split; [split|].
      + eapply NoDup_remove_1; eauto.
      + apply Forall_app in Hprim. destruct Hprim as [H1 H2].
        inversion H2; subst. apply Forall_app. auto.
      + eapply NoDup_remove_2; eauto. }
  destruct Hrest as [[Hnd' Hprim'] Hfresh].
  destruct (String.eqb eventName "removed" || negb (passes e r));
    [split; assumption|].
  assert (Hp : Permutation
                 (ids (sorted_by (_sorter e)
                         (remove_first (same_id r) (records (store e))
                            ++ [setProp r "updatedAt" (VDate now)])))
                 (getProp r "id"
                    :: ids (remove_first (same_id r) (records (store e))))).
  { unfold ids. rewrite (Permutation_map _ (sorted_by_perm _ _)).
    rewrite map_app. simpl.
    rewrite getProp_setProp_other by discriminate.
    symmetry. apply Permutation_cons_append. }
  split.
  - eapply Permutation_NoDup; [symmetry; exact Hp|].
    constructor; assumption.
  - eapply Permutation_Forall; [symmetry; exact Hp|].
    constructor; assumption.
Qed.

Lemma mutateStore_keeps_ids_unique_witness :
  let moved := [("id", VNum 1); ("uuid", VNum 1001); ("order", VNum 9)] in
  let e := BaseReplicator.engine live_replicator in
  unique_ids (records (store e))
  /\ unique_ids
       (records (store (fst (_mutateStore "patched" moved (VNum 0) 7 e)))).
Proof.
  cbv zeta.
  assert (H : unique_ids
                (records (store (BaseReplicator.engine live_replicator)))).
  { split.
    - repeat (constructor; [simpl; intuition discriminate|]). constructor.
    - repeat constructor. }
  split; [exact H|].
  apply (mutateStore_keeps_ids_unique "patched"
           [("id", VNum 1); ("uuid", VNum 1001); ("order", VNum 9)]
           (VNum 0) 7 (BaseReplicator.engine live_replicator) H);
    reflexivity.
Defined.

(* ================================================================== *)
(** * The queue: enqueue, coalesce, confirm, replay *)
(* ================================================================== *)

Lemma index_of_split {A} (p : A -> bool) (l : list A) (n : nat) :
  index_of p l = Some n ->
  exists before x behind,
    l = before ++ x :: behind /\ List.length before = n /\ p x = true
    /\ (forall y, In y before -> p y = false).
Proof.
  revert n. induction l as [|y l IH]; intros n; simpl; [discriminate|].
  destruct (p y) eqn:Hp.
  - intros [= <-]. exists [], y, l. repeat split; auto. intros ? [].
  - destruct (index_of p l) as [m|]; simpl; [|discriminate].
    intros [= <-].
    destruct (IH m eq_refl) as (before & x & behind & -> & Hlen & Hx & Hb).
    exists (y :: before), x, behind. simpl. repeat split; auto.
    intros z [<-|Hz]; auto.
Qed.

(** The newest match of a reversed scan splits the array around it. *)
Lemma last_match_split {A} (p : A -> bool) (l : list A) (n : nat) :
  index_of p (rev l) = Some n ->
  exists before x behind,
    l = before ++ x :: behind
    /\ List.length before = (List.length (rev l) - 1 - n)%nat
    /\ p x = true
    /\ (forall y, In y behind -> p y = false).
Proof.
  intros E. pose proof (index_of_bound _ _ _ E) as Hn.
  destruct (index_of_split _ _ _ E) as (b & x & h & Hl & Hlen & Hx & Hb).
  exists (rev h), x, (rev b).
  assert (Hrev : l = rev h ++ x :: rev b).
  { rewrite <- (rev_involutive l), Hl, rev_app_distr. simpl.
    rewrite <- app_assoc. reflexivity. }
  split; [exact Hrev|]. split.
  - rewrite Hl, length_app in *. simpl in *. rewrite length_rev. lia.
  - split; [exact Hx|]. intros y Hy. apply Hb. apply in_rev. exact Hy.
Qed.

Lemma index_of_none_all {A} (p : A -> bool) (l : list A) :
  index_of p (rev l) = None -> forall x, In x l -> p x = false.
Proof.
  intros E x Hx. apply index_of_none in E.
  destruct (p x) eqn:Hp; [|reflexivity].
  assert (existsb p (rev l) = true)
    by (apply existsb_exists; exists x; split;
        [apply in_rev; rewrite rev_involutive|]; auto).
  congruence.
Qed.

Lemma at_split {A} (before behind : list A) (x : A) :
  nth_error (before ++ x :: behind) (List.length before) = Some x
  /\ firstn (List.length before) (before ++ x :: behind) = before
  /\ skipn (S (List.length before)) (before ++ x :: behind) = behind.
Proof.
  repeat split.
  - rewrite nth_error_app2, Nat.sub_diag by lia. reflexivity.
  - rewrite firstn_app, firstn_all, Nat.sub_diag. simpl. apply app_nil_r.
  - change (S (List.length before)) with (1 + List.length before)%nat.
    rewrite <- skipn_skipn, skipn_app, skipn_all, Nat.sub_diag. reflexivity.
Qed.

Lemma remove_first_skips {A} (p : A -> bool) (a b : list A) (x : A) :
  (forall y, In y a -> p y = false) -> p x = true ->
  remove_first p (a ++ x :: b) = a ++ b.
Proof.
  intros Ha Hx. induction a as [|y a IH]; simpl.
  - rewrite Hx. reflexivity.
  - rewrite (Ha y) by (simpl; auto). rewrite IH; [reflexivity|].
    intros z Hz. apply Ha. simpl. auto.
Qed.

(** The reversed scan of the queue with a test that only reads the
    record, on a queue whose entries all carry one. *)
Lemma queue_scan (q : list QueuedMutation) (p : QueuedMutation -> bool)
    (predicate : QueuedMutation -> Result bool) :
  (forall el, has_record el -> predicate el = Return (p el)) ->
  Forall has_record q ->
  _findIndexReversed q predicate
  = Return match index_of p (rev q) with
           | Some n => Z.of_nat (List.length (rev q) - 1 - n)
           | None => -1
           end.
Proof.
  intros Hp Hall. unfold _findIndexReversed.
  rewrite (scan_down_ext _ (fun el => Return (p el))).
  - apply scan_down_index_of.
  - apply Forall_rev. eapply Forall_impl; [|exact Hall]. exact Hp.
Qed.

Lemma entry_has_id_predicate (idName : string) (l : Obj)
    (el : QueuedMutation) :
  has_record el ->
  (try theirs <- js_get (record el) idName ;;
   try mine <- js_get (VObj l) idName ;;
   Return (strict_eq theirs mine))
  = Return (entry_has_id idName l el).
Proof.
  intros [Hu Hn]. unfold entry_has_id, js_get.
  destruct (record el); simpl; try reflexivity; congruence.
Qed.

(** X9.  [_removeQueuedEvent] removes the newest matching entry and nothing
    else.  On a queue whose entries all carry a record, and for a record
    [l]: the call does not throw; when some entry has the server id of [l]
    ([id] when [l] has one, else [_id]) and the given event name, the
    newest such entry is taken out and every other entry keeps its place;
    when none has, the queue is as before. *)
Theorem removeQueuedEvent_removes_newest_match (eventName : string)
    (l : Obj) (updatedAt : Value) (e : Engine) :
  Forall has_record (queued (store e)) ->
  let matches := entry_matches (idName_for l) eventName l in
  let q := queued (store e) in
  let q' := queued (store (fst (_removeQueuedEvent eventName (VObj l)
                                  updatedAt e))) in
  snd (_removeQueuedEvent eventName (VObj l) updatedAt e) = Return tt
  /\ ((q' = q /\ forall el, In el q -> matches el = false)
      \/ (exists before el behind,
            q = before ++ el :: behind /\ matches el = true
            /\ (forall y, In y behind -> matches y = false)
            /\ q' = before ++ behind)).
Proof.
  intros Hall. cbv zeta.
  destruct (removeQueuedEvent_by_server_id eventName l updatedAt e Hall)
    as (Hres & Hq & _).
  cbv zeta in Hq. fold (idName_for l) in Hq.
  split; [exact Hres|]. rewrite Hq. unfold remove_last.
  destruct (index_of (entry_matches (idName_for l) eventName l)
              (rev (queued (store e)))) as [n|] eqn:E.
  - right.
    destruct (last_match_split _ _ _ E)
      as (before & el & behind & Hsplit & Hlen & Hel & Hbehind).
    exists before, el, behind. repeat split; auto.
    rewrite Hsplit, rev_app_distr. simpl. rewrite <- app_assoc. simpl.
    rewrite remove_first_skips
      by (auto; intros y Hy; apply Hbehind, in_rev; exact Hy).
    rewrite rev_app_distr, !rev_involutive. reflexivity.
  - left. destruct (index_of_none_find _ _ E) as (_ & ->).
    rewrite rev_involutive. split; [reflexivity|].
    apply index_of_none_all. exact E.
Qed.

Lemma removeQueuedEvent_removes_newest_match_witness :
  let e := Mutator._engine after_two_creates in
  let confirmed := setProp local_a "updatedAt" (VDate 7) in
  Forall has_record (queued (store e))
  /\ snd (_removeQueuedEvent "create" (VObj confirmed) VNull e) = Return tt.
Proof.
  cbv zeta.
  assert (H : Forall has_record
                (queued (store (Mutator._engine after_two_creates)))).
  { repeat constructor; discriminate. }
  split; [exact H|].
  apply (removeQueuedEvent_removes_newest_match "create"
           (setProp local_a "updatedAt" (VDate 7)) VNull
           (Mutator._engine after_two_creates) H).
Defined.

(** X10.  Enqueue and confirm cancel out.  An entry added by [_addQueuedEvent]
    for a record with a primitive server id is the one a following
    [_removeQueuedEvent] for the same record and event name takes out: the
    queue is as it was before the two calls. *)
Theorem queued_event_round_trip (eventName : string) (l : Obj)
    (args : list Value) (updatedAt : Value) (e : Engine) :
  Forall has_record (queued (store e)) ->
  primitive (getProp l (idName_for l)) ->
  let e1 := _addQueuedEvent eventName (VObj l) args e in
  let out := _removeQueuedEvent eventName (VObj l) updatedAt e1 in
  queued (store e1) = queued (store e) ++ [mkQueued eventName (VObj l) args]
  /\ snd out = Return tt
  /\ queued (store (fst out)) = queued (store e)
  /\ records (store (fst out)) = records (store e).
Proof.
  intros Hall Hprim. cbv zeta.
  assert (Hall1 : Forall has_record
                    (queued (store (_addQueuedEvent eventName (VObj l) args e)))).
  { cbn. apply Forall_app. split; [exact Hall|].
    repeat constructor; discriminate. }
  destruct (removeQueuedEvent_by_server_id eventName l updatedAt _ Hall1)
    as (Hres & Hq & _ & Hrec & _).
  split; [reflexivity|]. split; [exact Hres|]. split; [|exact Hrec].
  cbv zeta in Hq. rewrite Hq. cbn. unfold remove_last.
  rewrite rev_app_distr. cbn [rev app remove_first].
  unfold entry_matches at 1. cbn [record readProp BaseEngine.eventName].
  fold (idName_for l). unfold primitive in Hprim.
  rewrite Hprim, String.eqb_refl. cbn. apply rev_involutive.
Qed.

Lemma queued_event_round_trip_witness :
  let e := Mutator._engine after_two_creates in
  let l := [("id", VNum 7); ("uuid", VStr "c")] in
  Forall has_record (queued (store e))
  /\ primitive (getProp l (idName_for l))
  /\ queued (store (fst (_removeQueuedEvent "patch" (VObj l) VNull
                           (_addQueuedEvent "patch" (VObj l) [] e))))
     = queued (store e).
Proof.
  cbv zeta.
  assert (H : Forall has_record
                (queued (store (Mutator._engine after_two_creates)))).
  { repeat constructor; discriminate. }
  split; [exact H|]. split; [reflexivity|].
  apply (queued_event_round_trip "patch" [("id", VNum 7); ("uuid", VStr "c")]
           [] VNull (Mutator._engine after_two_creates) H).
  reflexivity.
Defined.

(** X11.  [_addQueuedNetEvent] records net changes.  On a queue whose entries
    all carry a record, and for a record [l], the call does not throw and
    touches nothing but the queue; when no entry has the server id of [l]
    the new entry goes to the end of the queue; otherwise the newest entry
    with that id is overwritten in place, with the new event name and
    arguments and with its record merged under [l], so the queue keeps its
    length and the order of its entries. *)
Theorem addQueuedNetEvent_coalesces (eventName : string) (l : Obj)
    (args : list Value) (e : Engine) :
  Forall has_record (queued (store e)) ->
  let same := entry_has_id (idName_for l) l in
  let q := queued (store e) in
  let out := _addQueuedNetEvent eventName (VObj l) args e in
  snd out = Return tt
  /\ same_outside_queue e (fst out)
  /\ (((forall el, In el q -> same el = false)
       /\ queued (store (fst out)) = q ++ [mkQueued eventName (VObj l) args])
      \/ (exists before el behind,
            q = before ++ el :: behind /\ same el = true
            /\ (forall y, In y behind -> same y = false)
            /\ queued (store (fst out))
               = before
                 ++ mkQueued eventName
                      (VObj (assign_values (record el) (VObj l))) args
                 :: behind)).
Proof.
  intros Hall. cbv zeta.
  split; [|split; [apply addQueuedNetEvent_frame|]].
  - unfold _addQueuedNetEvent.
    destruct (0 <? Z.of_nat (List.length (queued (store e))));
      [|reflexivity].
    cbn [idName_of js_in bindR]. fold (idName_for l).
    rewrite (queue_scan _ (entry_has_id (idName_for l) l))
      by (auto; intros el Hel; apply entry_has_id_predicate; exact Hel).
    destruct (index_of _ (rev (queued (store e)))) as [n|] eqn:E;
      [|reflexivity].
    destruct (last_match_split _ _ _ E)
      as (before & el & behind & Hsplit & Hlen & _).
    rewrite <- Hlen.
    replace (Z.of_nat (List.length before) >? -1) with true
      by (symmetry; apply Z.gtb_lt; lia).
    rewrite Nat2Z.id. rewrite Hsplit at 1.
    destruct (at_split before behind el) as (-> & _). reflexivity.
  - unfold _addQueuedNetEvent.
    destruct (queued (store e)) as [|el0 q0] eqn:Hq.
    { left. split; [intros ? []|]. cbn. rewrite Hq. reflexivity. }
    rewrite <- Hq in *.
    replace (0 <? Z.of_nat (List.length (queued (store e)))) with true
      by (symmetry; apply Z.ltb_lt; rewrite Hq; simpl; lia).
    cbn [idName_of js_in bindR]. fold (idName_for l).
    rewrite (queue_scan _ (entry_has_id (idName_for l) l))
      by (auto; intros el Hel; apply entry_has_id_predicate; exact Hel).
    destruct (index_of _ (rev (queued (store e)))) as [n|] eqn:E.
    + right.
      destruct (last_match_split _ _ _ E)
        as (before & el & behind & Hsplit & Hlen & Hel & Hbehind).
      exists before, el, behind. repeat split; auto.
      rewrite <- Hlen.
      replace (Z.of_nat (List.length before) >? -1) with true
        by (symmetry; apply Z.gtb_lt; lia).
      rewrite Nat2Z.id. unfold replace_at. rewrite Nat2Z.id.
      rewrite Hsplit.
      destruct (at_split before behind el) as (-> & -> & ->). reflexivity.
    + left. split; [apply index_of_none_all; exact E|]. reflexivity.
Qed.

Lemma addQueuedNetEvent_coalesces_witness :
  let e := Mutator._engine after_remove_1 in
  let again := [("id", VNum 1); ("uuid", VNum 1001); ("order", VNum 7)] in
  Forall has_record (queued (store e))
  /\ snd (_addQueuedNetEvent "update" (VObj again) [VNum 1] e) = Return tt.
Proof.
  cbv zeta.
  assert (H : Forall has_record
                (queued (store (Mutator._engine after_remove_1)))).
  { repeat constructor; discriminate. }
  split; [exact H|].
  apply (addQueuedNetEvent_coalesces "update"
           [("id", VNum 1); ("uuid", VNum 1001); ("order", VNum 7)]
           [VNum 1] (Mutator._engine after_remove_1) H).
Defined.

Lemma splice_newest {A} (p : A -> bool) (q : list A) :
  let index := match index_of p (rev q) with
               | Some n => Z.of_nat (List.length (rev q) - 1 - n)
               | None => -1
               end in
  (if index >=? 0 then splice1 q index else q) = remove_last p q.
Proof.
  cbv zeta. destruct (index_of p (rev q)) as [n|] eqn:E.
  - replace (Z.of_nat (List.length (rev q) - 1 - n) >=? 0) with true
      by (symmetry; apply Z.geb_le; lia).
    apply splice_last_match. exact E.
  - symmetry. apply remove_last_none. exact E.
Qed.

Lemma remove_last_Forall {A} (P : A -> Prop) (p : A -> bool) (l : list A) :
  Forall P l -> Forall P (remove_last p l).
Proof.
  intros H. unfold remove_last. apply Forall_rev.
  apply remove_first_Forall. apply Forall_rev. exact H.
Qed.

(** X12.  [_removeQueuedNetEvent] takes out the two newest entries that have the
    server id of the record (the one newest entry when there is only one,
    none when there is none), whatever their event names and whatever the
    event name it is given; on a queue whose entries all carry a record it
    does not throw, sets the watermark to [updatedAt] when that is truthy,
    and touches nothing outside the queue. *)
Theorem removeQueuedNetEvent_removes_two (eventName : string) (l : Obj)
    (updatedAt : Value) (e : Engine) :
  Forall has_record (queued (store e)) ->
  let same := entry_has_id (idName_for l) l in
  let out := _removeQueuedNetEvent eventName (VObj l) updatedAt e in
  snd out = Return tt
  /\ queued (store (fst out))
     = remove_last same (remove_last same (queued (store e)))
  /\ syncedAt (store (fst out))
     = (if truthy updatedAt then updatedAt else syncedAt (store e))
  /\ same_outside_queue e (fst out).
Proof.
  intros Hall. cbv zeta.
  split; [|split; [|split; [|apply removeQueuedNetEvent_frame]]];
    unfold _removeQueuedNetEvent;
    (destruct (queued (store e)) as [|el0 q0] eqn:Hq;
     [cbn; destruct (truthy updatedAt); cbn; rewrite ?Hq; reflexivity|]);
    rewrite <- Hq in *;
    (replace (0 <? Z.of_nat (List.length (queued (store e)))) with true
       by (symmetry; apply Z.ltb_lt; rewrite Hq; simpl; lia));
    cbn [idName_of js_in bindR]; fold (idName_for l);
    rewrite (queue_scan _ (entry_has_id (idName_for l) l))
      by (auto; intros el Hel; apply entry_has_id_predicate; exact Hel);
    rewrite (splice_newest (entry_has_id (idName_for l) l)
               (queued (store e)));
    rewrite (queue_scan _ (entry_has_id (idName_for l) l))
      by (try (apply remove_last_Forall; exact Hall);
          intros el Hel; apply entry_has_id_predicate; exact Hel);
    rewrite (splice_newest (entry_has_id (idName_for l) l));
    cbn; destruct (truthy updatedAt); reflexivity.
Qed.

Lemma removeQueuedNetEvent_removes_two_witness :
  let e := Mutator._engine after_two_creates in
  Forall has_record (queued (store e))
  /\ queued (store (fst (_removeQueuedNetEvent "create" (VObj local_a)
                           VNull e))) = [].
Proof.
  cbv zeta.
  assert (H : Forall has_record
                (queued (store (Mutator._engine after_two_creates)))).
  { repeat constructor; discriminate. }
  split; [exact H|].
  destruct (removeQueuedNetEvent_removes_two "create" local_a VNull
              (Mutator._engine after_two_creates) H) as (_ & Hq & _).
  rewrite Hq. reflexivity.
Defined.

(** X13.  For a queue whose entries pass the scrub loop and name methods of the
    remote service, [processQueuedEvents] returns [true], touches nothing
    of the engine but the queue, and replays head first: either every
    entry was replayed, in queue order, and the queue is empty; or the
    calls are those of the entries up to the first one the remote
    rejected, in queue order, and the queue is that entry (scrubbed)
    followed by the entries behind it in their order. *)
Theorem processQueuedEvents_replays {R : Type}
    (service : string -> option (Value -> Value -> Value -> R -> bool * R))
    (e : Engine) (r : R) :
  Forall (replayable service) (queued (store e)) ->
  let out := processQueuedEvents service e r in
  let e' := fst (fst (fst out)) in
  let calls := snd (fst out) in
  snd out = Return (VBool true)
  /\ same_outside_queue e e'
  /\ Replay service r (queued (store e)) calls (queued (store e'))
       (snd (fst (fst out)))
  /\ ((queued (store e') = []
       /\ calls = map invocation_of (queued (store e)))
      \/ (exists before el behind,
            queued (store e) = before ++ el :: behind
            /\ calls = map invocation_of (before ++ [el])
            /\ queued (store e') = scrubbed el :: behind)).
Proof.
  intros Hall. cbv zeta.
  pose proof (processQueuedEvents_frame service e r) as [Hframe _].
  cbv zeta in Hframe. revert Hframe. unfold processQueuedEvents.
  destruct (drain_replays service (queued (store e)) Hall r [])
    as (calls & q' & r' & Hd & Hrep).
  rewrite Hd. cbn. intros Hframe.
  split; [reflexivity|]. split; [exact Hframe|]. split; [exact Hrep|].
  eapply Replay_outcome. exact Hrep.
Qed.

Lemma processQueuedEvents_replays_witness :
  let e := Mutator._engine after_two_creates in
  Forall (replayable obliging_service) (queued (store e))
  /\ snd (processQueuedEvents obliging_service e tt) = Return (VBool true)
  /\ queued (store (fst (fst (fst (processQueuedEvents obliging_service e
                                      tt))))) = [].
Proof.
  cbv zeta.
  assert (H : Forall (replayable obliging_service)
                (queued (store (Mutator._engine after_two_creates)))).
  { repeat constructor; eexists; reflexivity. }
  split; [exact H|].
  destruct (processQueuedEvents_replays obliging_service
              (Mutator._engine after_two_creates) tt H)
    as (Hres & _ & _ & _).
  split; [exact Hres|]. reflexivity.
Defined.

Lemma getProp_deleteProp_same (o : Obj) (k : string) :
  getProp (deleteProp o k) k = VUndefined /\ hasProp (deleteProp o k) k = false.
Proof.
  unfold deleteProp. induction o as [|[k' v] o IH]; simpl; [auto|].
  destruct (String.eqb k' k) eqn:E; simpl; [exact IH|].
  rewrite E. exact IH.
Qed.

Lemma getProp_deleteProp_other (o : Obj) (k k' : string) :
  k <> k' ->
  getProp (deleteProp o k) k' = getProp o k'
  /\ hasProp (deleteProp o k) k' = hasProp o k'.
Proof.
  intros Hne. unfold deleteProp.
  induction o as [|[k0 v] o IH]; simpl; [auto|].
  destruct (String.eqb k0 k) eqn:E; simpl.
  - apply String.eqb_eq in E. subst k0.
    destruct (String.eqb k k') eqn:E'; [|exact IH].
    apply String.eqb_eq in E'. contradiction.
  - destruct (String.eqb k0 k'); [auto|exact IH].
Qed.

(** X14.  The scrub of one replay argument: on [null] or [undefined] it throws;
    on an object whose [query] is an object it takes [_fail] and [_timeout]
    out of the query and keeps every other property of the query and of
    the argument; on anything else it changes nothing. *)
Theorem scrub_drops_test_flags (a : Value) :
  ((a = VNull \/ a = VUndefined) -> scrub a = Throw TypeError)
  /\ (forall o q,
        a = VObj o -> getProp o "query" = VObj q ->
        exists o' q',
          scrub a = Return (VObj o')
          /\ getProp o' "query" = VObj q'
          /\ hasProp q' "_fail" = false
          /\ hasProp q' "_timeout" = false
          /\ (forall k, k <> "_fail" -> k <> "_timeout" ->
                        getProp q' k = getProp q k)
          /\ (forall k, k <> "query" -> getProp o' k = getProp o k))
  /\ (a <> VNull -> a <> VUndefined ->
      (forall o q, a = VObj o -> getProp o "query" <> VObj q) ->
      scrub a = Return a).
Proof.
  split; [|split].
  - intros [->| ->]; reflexivity.
  - intros o q -> Hq. unfold scrub, js_get. cbn [readProp bindR].
    rewrite Hq. cbn [truthy].
    eexists. eexists. split; [reflexivity|].
    split; [apply getProp_setProp_same|].
    split.
    { destruct (getProp_deleteProp_other (deleteProp q "_fail")
                  "_timeout" "_fail") as [_ ->]; [discriminate|].
      apply getProp_deleteProp_same. }
    split; [apply getProp_deleteProp_same|].
    split.
    + intros k Hf Ht.
      destruct (getProp_deleteProp_other (deleteProp q "_fail")
                  "_timeout" k) as [-> _]; [congruence|].
      apply getProp_deleteProp_other. congruence.
    + intros k Hk. apply getProp_setProp_other. congruence.
  - intros Hn Hu Hq. unfold scrub, js_get.
    destruct a; try congruence; cbn [readProp bindR truthy]; try reflexivity.
    destruct (getProp fields "query") as [| |b|n|s|ms|items|q] eqn:E;
      cbn [truthy]; try reflexivity.
    + destruct b; reflexivity.
    + destruct (negb (n =? 0)); reflexivity.
    + destruct (negb (String.eqb s EmptyString)); reflexivity.
    + exfalso. exact (Hq fields q eq_refl E).
Qed.

(* ================================================================== *)
(** * The replicator: connect, disconnect, comparators *)
(* ================================================================== *)

(** X15.  [connect]: when the snapshot query fails, the error goes to the
    caller, and the engine is left not listening with its store as it
    was.  When it succeeds, [connect] succeeds whatever the queue replay
    did, the replicator is connected, the store holds the fetched records
    the publication lets through and no others, and the events that went
    out are ['remove-listeners'] (only if the engine was listening),
    ['snapshot'] and ['add-listeners'], in this order. *)
Theorem connect_outcomes {R : Type}
    (service : string -> option (Value -> Value -> Value -> R -> bool * R))
    (fetched : Result (list Obj)) (rep : BaseReplicator.Replicator) (r : R) :
  let out := BaseReplicator.connect service fetched rep r in
  let e := BaseReplicator.engine rep in
  let e' := BaseReplicator.engine (fst (fst out)) in
  let detached :=
    if listening e
    then [mkEmission (records (store e)) [("action", VStr "remove-listeners")]]
    else [] in
  match fetched with
  | Throw err =>
      snd out = Throw err
      /\ BaseReplicator.connected (fst (fst out)) = false
      /\ store e' = store e
      /\ snd (fst out) = r
      /\ emitted e' = emitted e ++ detached
  | Return recs =>
      let kept := match BaseReplicator._publication rep with
                  | Some publication => filter publication recs
                  | None => recs
                  end in
      snd out = Return tt
      /\ BaseReplicator.connected (fst (fst out)) = true
      /\ Permutation (records (store e')) kept
      /\ emitted e'
         = emitted e ++ detached
           ++ [mkEmission (records (store e')) [("action", VStr "snapshot")];
               mkEmission (records (store e'))
                 [("action", VStr "add-listeners")]]
  end.
Proof.
  cbv zeta. unfold BaseReplicator.connect, BaseReplicator.connected.
  destruct fetched as [recs|err].
  - unfold BaseReplicator.sorter.
    match goal with
    | |- context [processQueuedEvents service ?e1 r] =>
        destruct (processQueuedEvents_frame service e1 r)
          as [(Hrec & _ & _ & _ & _ & Hem & _) _];
        destruct (processQueuedEvents service e1 r) as [[[e2 r'] calls] res]
    end.
    cbn in Hrec, Hem |- *. rewrite Hrec, Hem.
    split; [reflexivity|]. split; [reflexivity|].
    split; [apply sorted_by_perm|].
    unfold removeListeners. destruct (listening (BaseReplicator.engine rep));
      cbn; rewrite <- ?app_assoc; reflexivity.
  - cbn. unfold removeListeners.
    destruct (listening (BaseReplicator.engine rep)) eqn:Hl; cbn;
      rewrite ?app_nil_r; repeat split; auto.
Qed.

(** X16.  [disconnect] detaches and keeps the local state: the replicator is
    not connected afterwards, the store (records, queue, watermark, last
    event) is as it was, a second [disconnect] changes nothing more, and
    a replicator that had no registration before a [connect] has none
    after the following [disconnect]. *)
Theorem disconnect_keeps_store {R : Type}
    (service : string -> option (Value -> Value -> Value -> R -> bool * R))
    (rep : BaseReplicator.Replicator) (fetched : list Obj) (r : R) :
  let rep' := BaseReplicator.disconnect rep in
  let reconnected :=
    fst (fst (BaseReplicator.connect service (Return fetched) rep r)) in
  BaseReplicator.connected rep' = false
  /\ store (BaseReplicator.engine rep') = store (BaseReplicator.engine rep)
  /\ BaseReplicator.disconnect rep' = rep'
  /\ (listening (BaseReplicator.engine rep) = false ->
      attached (BaseReplicator.engine rep) = [] ->
      attached (BaseReplicator.engine
                  (BaseReplicator.disconnect reconnected)) = []
      /\ store (BaseReplicator.engine (BaseReplicator.disconnect reconnected))
         = store (BaseReplicator.engine reconnected)).
Proof.
  cbv zeta. unfold BaseReplicator.disconnect, BaseReplicator.connected.
  split; [|split; [|split]].
  - cbn. unfold removeListeners.
    destruct (listening (BaseReplicator.engine rep)) eqn:Hl; cbn; auto.
  - cbn. unfold removeListeners.
    destruct (listening (BaseReplicator.engine rep)); reflexivity.
  - assert (Hidem : forall e, removeListeners (removeListeners e)
                                = removeListeners e).
    { intros e. unfold removeListeners at 2 3.
      destruct (listening e) eqn:Hl; [reflexivity|].
      unfold removeListeners. rewrite Hl. reflexivity. }
    unfold BaseReplicator.set_engine.
    cbn [BaseReplicator.engine BaseReplicator._query
         BaseReplicator._publication BaseReplicator.genShortUuid].
    rewrite Hidem. reflexivity.
  - intros Hl Hat. unfold BaseReplicator.connect, BaseReplicator.sorter.
    match goal with
    | |- context [processQueuedEvents service ?e1 r] =>
        destruct (processQueuedEvents_frame service e1 r)
          as [(_ & _ & _ & _ & _ & _ & _ & Hatt) _];
        destruct (processQueuedEvents service e1 r) as [[[e2 r'] calls] res]
    end.
    cbn in Hatt |- *. rewrite Hatt. unfold removeListeners. rewrite Hl.
    cbn. rewrite Hat. split; reflexivity.
Qed.

Lemma string_ltb_asym (x y : string) :
  String.ltb x y = true -> String.ltb y x = false.
Proof.
  unfold String.ltb. rewrite (String.compare_antisym x y).
  destruct (String.compare y x); simpl; congruence.
Qed.

Lemma js_lt_asym (a b : Value) : js_lt a b = true -> js_lt b a = false.
Proof.
  unfold js_lt.
  destruct (ToPrimitive a) eqn:Ea, (ToPrimitive b) eqn:Eb;
    try (apply string_ltb_asym);
    cbn [ToNumber];
    repeat match goal with
           | |- context [StringToNumber ?s] => destruct (StringToNumber s)
           end;
    try discriminate; try reflexivity;
    intros H; apply Z.ltb_lt in H; apply Z.ltb_ge; lia.
Qed.

Lemma js_lt_irrefl (a : Value) : js_lt a a = false.
Proof.
  destruct (js_lt a a) eqn:E; [|reflexivity].
  pose proof (js_lt_asym _ _ E). congruence.
Qed.

Lemma sort_flip (prop : string) (x y : Obj) :
  BaseReplicator.sort prop x y = - BaseReplicator.sort prop y x.
Proof.
  unfold BaseReplicator.sort, js_gt.
  destruct (js_lt (getProp y prop) (getProp x prop)) eqn:E1.
  - rewrite (js_lt_asym _ _ E1). reflexivity.
  - destruct (js_lt (getProp x prop) (getProp y prop)); reflexivity.
Qed.

(** X17.  The comparator [sort(prop)] answers 1, 0 or -1, answers 0 on an
    element against itself, and turning its arguments around turns its
    sign around; so it is a consistent comparator. *)
Theorem sort_antisymmetric (prop : string) (a b : Obj) :
  BaseReplicator.sort prop a b = - BaseReplicator.sort prop b a
  /\ BaseReplicator.sort prop a a = 0
  /\ (BaseReplicator.sort prop a b = 1
      \/ BaseReplicator.sort prop a b = 0
      \/ BaseReplicator.sort prop a b = -1)
  /\ consistent (BaseReplicator.sort prop).
Proof.
  pose proof (sort_flip prop) as Hanti.
  split; [apply Hanti|]. split; [|split].
  - unfold BaseReplicator.sort, js_gt. rewrite js_lt_irrefl. reflexivity.
  - unfold BaseReplicator.sort.
    destruct (js_gt _ _); [auto|]. destruct (js_lt _ _); auto.
  - intros x y H. rewrite (Hanti y x). lia.
Qed.

(** X18.  The comparator [multiSort(order)] is lexicographic: it answers 0 on
    an empty order; on an order that starts with [(prop, sense)] it
    answers [sense] times [sort(prop)] when that is not 0 and otherwise
    what the rest of the order answers; so with the single pair
    [(prop, 1)] it is [sort(prop)].  Turning its arguments around turns
    its sign around, so it is a consistent comparator. *)
Theorem multiSort_lexicographic (prop : string) (sense : Z)
    (order : list (string * Z)) (a b : Obj) :
  BaseReplicator.multiSort [] a b = 0
  /\ BaseReplicator.multiSort ((prop, sense) :: order) a b
     = (if BaseReplicator.sort prop a b * sense =? 0
        then BaseReplicator.multiSort order a b
        else BaseReplicator.sort prop a b * sense)
  /\ BaseReplicator.multiSort [(prop, 1)] a b = BaseReplicator.sort prop a b
  /\ BaseReplicator.multiSort order a b = - BaseReplicator.multiSort order b a
  /\ consistent (BaseReplicator.multiSort order).
Proof.
  assert (Hstep : forall p s o x y,
            BaseReplicator.multiSort ((p, s) :: o) x y
            = (if BaseReplicator.sort p x y * s =? 0
               then BaseReplicator.multiSort o x y
               else BaseReplicator.sort p x y * s)).
  { intros p s o x y. cbn [BaseReplicator.multiSort]. unfold BaseReplicator.sort.
    destruct (js_gt (getProp x p) (getProp y p)); [reflexivity|].
    destruct (js_lt (getProp x p) (getProp y p)); reflexivity. }
  assert (Hanti : forall o x y,
            BaseReplicator.multiSort o x y = - BaseReplicator.multiSort o y x).
  { induction o as [|[p s] o IH]; intros x y; [reflexivity|].
    rewrite !Hstep.
    rewrite (sort_flip p x y).
    rewrite (IH x y).
    destruct (BaseReplicator.sort p y x * s =? 0) eqn:E.
    - apply Z.eqb_eq in E.
      replace (- BaseReplicator.sort p y x * s =? 0) with true
        by (symmetry; apply Z.eqb_eq; lia).
      reflexivity.
    - apply Z.eqb_neq in E.
      replace (- BaseReplicator.sort p y x * s =? 0) with false
        by (symmetry; apply Z.eqb_neq; lia).
      lia. }
  split; [reflexivity|]. split; [apply Hstep|]. split; [|split].
  - rewrite Hstep. cbn [BaseReplicator.multiSort].
    rewrite Z.mul_1_r. destruct (BaseReplicator.sort prop a b =? 0) eqn:E;
      [apply Z.eqb_eq in E; congruence|reflexivity].
  - apply Hanti.
  - intros x y H. rewrite (Hanti order y x). lia.
Qed.

(* ================================================================== *)
(** * Objects: assignment and cloning *)
(* ================================================================== *)

Lemma hasProp_setProp_other (o : Obj) (k k' : string) (v : Value) :
  k <> k' -> hasProp (setProp o k v) k' = hasProp o k'.
Proof.
  intros Hne. induction o as [|[k0 v0] o IH]; simpl.
  - destruct (String.eqb k k') eqn:E; [|reflexivity].
    apply String.eqb_eq in E. contradiction.
  - destruct (String.eqb k0 k) eqn:E; simpl; [reflexivity|].
    rewrite IH. reflexivity.
Qed.

Lemma hasProp_In (o : Obj) (k : string) :
  hasProp o k = true <-> In k (map fst o).
Proof.
  induction o as [|[k0 v0] o IH]; simpl; [split; [discriminate|tauto]|].
  rewrite orb_true_iff, IH, String.eqb_eq. tauto.
Qed.

Lemma setProp_fresh (o : Obj) (k : string) (v : Value) :
  ~ In k (map fst o) -> setProp o k v = o ++ [(k, v)].
Proof.
  induction o as [|[k0 v0] o IH]; simpl; [reflexivity|].
  intros Hn. destruct (String.eqb k0 k) eqn:E.
  - apply String.eqb_eq in E. tauto.
  - rewrite IH by tauto. reflexivity.
Qed.

Lemma assign_fresh (src : Obj) :
  forall target,
    NoDup (map fst src) ->
    (forall k, In k (map fst src) -> ~ In k (map fst target)) ->
    assign target src = target ++ src.
Proof.
  unfold assign. induction src as [|[k v] src IH]; intros target Hnd Hdis.
  - simpl. symmetry. apply app_nil_r.
  - simpl in *. inversion Hnd as [|? ? Hk Hnd']; subst.
    rewrite setProp_fresh by (apply Hdis; auto).
    rewrite IH; [rewrite <- app_assoc; reflexivity|exact Hnd'|].
    intros k' Hk' Hin. rewrite map_app in Hin. apply in_app_or in Hin.
    destruct Hin as [Hin|[<-|[]]]; [apply (Hdis k'); auto|contradiction].
Qed.

(** Cloning a record gives the record. *)
Lemma shallowClone_well_formed (r : Obj) :
  well_formed r -> Mutator.shallowClone (VObj r) = VObj r.
Proof.
  intros Hwf. unfold Mutator.shallowClone, assign_values.
  change (assign [] []) with (@nil (string * Value)).
  rewrite assign_fresh; auto.
Qed.

Lemma getProp_assign (src : Obj) :
  forall target k,
    NoDup (map fst src) ->
    getProp (assign target src) k
    = if hasProp src k then getProp src k else getProp target k.
Proof.
  unfold assign. induction src as [|[k0 v0] src IH]; intros target k Hnd.
  - reflexivity.
  - simpl in *. inversion Hnd as [|? ? Hk Hnd']; subst.
    rewrite IH by exact Hnd'.
    destruct (String.eqb k0 k) eqn:E.
    + apply String.eqb_eq in E. subst k0. simpl.
      destruct (hasProp src k) eqn:Hh.
      * apply hasProp_In in Hh. contradiction.
      * apply getProp_setProp_same.
    + simpl. destruct (hasProp src k); [reflexivity|].
      apply getProp_setProp_other. intros ->.
      rewrite String.eqb_refl in E. discriminate.
Qed.

(** The projection at the end of the mutator methods keeps [id], [_id]
    and [uuid], and without a [$select] array it keeps the record whole. *)
Lemma select_keeps_always (params : Value) (r : Obj) :
  exists o,
    Mutator.select params Mutator._alwaysSelect (VObj r) = Return (VObj o)
    /\ (forall k, In k Mutator._alwaysSelect -> getProp o k = getProp r k)
    /\ (Mutator.select_fields params = None -> o = r).
Proof.
  unfold Mutator.select, Mutator.convert. rewrite select_fields_push.
  destruct (Mutator.select_fields params) as [fields|]; unfold option_map.
  - destruct (pick_into_total r
                (fields ++ map VStr Mutator._alwaysSelect) []) as [picked Hp].
    rewrite Hp. exists picked. split; [reflexivity|].
    split; [|discriminate]. intros k Hk.
    eapply pick_into_keeps; [|exact Hp].
    destruct (getProp r k) eqn:Hu; auto;
      right; (split; [reflexivity|]); apply in_or_app; right;
      apply in_map; exact Hk.
  - exists r. auto.
Qed.

(* ================================================================== *)
(** * The mutator: reads *)
(* ================================================================== *)

Lemma found_at_index (p : Obj -> bool) (rs : list Obj) (r : Obj) :
  find p rs = Some r ->
  (_findIndex rs p =? -1) = false
  /\ Mutator.at_index rs (_findIndex rs p) = VObj r.
Proof.
  intros Hf. rewrite _findIndex_index_of. unfold Mutator.at_index.
  destruct (index_of p rs) as [n|] eqn:E.
  - destruct (index_of_some _ _ _ E) as (Hnth & _).
    split; [apply Z.eqb_neq; lia|]. rewrite Nat2Z.id, Hnth, Hf. reflexivity.
  - destruct (index_of_none_find _ _ E) as (Hnone & _). congruence.
Qed.

(** X19.  [_get] on a uuid that a stored record answers to returns the first
    such record, projected: [id], [_id] and [uuid] are always those of the
    record, and without a [$select] array it is the record whole; the
    service is as it was. *)
Theorem get_returns_first_match (uuid params : Value) (s : Mutator.Service)
    (r : Obj) :
  found_by_uuid (records (store (Mutator._engine s))) uuid = Some r ->
  exists o,
    Mutator._get uuid params s = (s, Return (VObj o))
    /\ (forall k, In k ["id"; "_id"; "uuid"] -> getProp o k = getProp r k)
    /\ (Mutator.select_fields (Mutator.default_params params) = None ->
        o = r).
Proof.
  intros Hf. unfold Mutator._get, Mutator.findUuidIndex.
  destruct (found_at_index _ _ _ Hf) as [-> ->].
  destruct (select_keeps_always (Mutator.default_params params) r)
    as (o & Ho & Hk & Hall).
  exists o. rewrite Ho. auto.
Qed.

Lemma get_returns_first_match_witness :
  found_by_uuid (records (store (Mutator._engine live_service))) (VStr "1002")
  = Some (seed 2)
  /\ exists o,
       Mutator._get (VStr "1002") VUndefined live_service
       = (live_service, Return (VObj o))
       /\ (forall k, In k ["id"; "_id"; "uuid"] ->
                     getProp o k = getProp (seed 2) k)
       /\ (Mutator.select_fields (Mutator.default_params VUndefined) = None ->
           o = seed 2).
Proof.
  split; [reflexivity|].
  apply (get_returns_first_match (VStr "1002") VUndefined live_service
           (seed 2)).
  reflexivity.
Defined.






(* ================================================================== *)
(** * The mutator: optimistic writes *)
(* ================================================================== *)

(** What an accepted [_mutateStore] leaves, in one place. *)
Lemma mutateStore_accepted (eventName : string) (r : Obj) (source : Value)
    (now : Z) (e : Engine) :
  String.eqb eventName "removed" = false ->
  passes e r = true ->
  exists e',
    _mutateStore eventName r source now e
    = (e', VObj (setProp r "updatedAt" (VDate now)))
    /\ records (store e')
       = sorted_by (_sorter e)
           (remove_first (same_id r) (records (store e))
              ++ [setProp r "updatedAt" (VDate now)])
    /\ queued (store e') = queued (store e)
    /\ syncedAt (store e') = syncedAt (store e)
    /\ listening e' = listening e.
Proof.
  intros Hev Hpass.
  pose proof (mutateStore_accepts eventName r source now e Hev Hpass) as Hret.
  pose proof (mutateStore_records eventName r source now e) as Hrec.
  pose proof (mutateStore_config eventName r source now e)
    as (_ & _ & Hq & Hsync & Hl & _).
  cbv zeta in Hrec. rewrite Hev, Hpass in Hrec. simpl in Hrec.
  destruct (_mutateStore eventName r source now e) as [e' v].
  simpl in *. subst v. exists e'. auto.
Qed.

Lemma create_one_effect (entropy : nat -> string) (d : Obj) (params : Value)
    (now : Z) (s : Mutator.Service) :
  BaseReplicator.connected (Mutator._replicator s) = true ->
  no_uuid_match (records (store (Mutator._engine s)))
    (getProp (with_uuid entropy s d) "uuid") ->
  passes (Mutator._engine s) (with_uuid entropy s d) = true ->
  let stamped := setProp (with_uuid entropy s d) "updatedAt" (VDate now) in
  let params' :=
    Mutator.push_select (Mutator.default_params params) Mutator._alwaysSelect in
  let out := Mutator._create entropy (VObj d) params now s in
  queued (store (Mutator._engine (fst out)))
  = queued (store (Mutator._engine s))
    ++ [mkQueued "create" (VObj stamped)
          [Mutator.shallowClone (VObj stamped); params']]
  /\ records (store (Mutator._engine (fst out)))
     = sorted_by (_sorter (Mutator._engine s))
         (remove_first (same_id (with_uuid entropy s d))
            (records (store (Mutator._engine s))) ++ [stamped])
  /\ Mutator.started (fst out)
     = Mutator.started s
       ++ [mkInvocation "create" (Mutator.shallowClone (VObj stamped))
             params' VUndefined]
  /\ syncedAt (store (Mutator._engine (fst out)))
     = syncedAt (store (Mutator._engine s))
  /\ snd out
     = Mutator.select (Mutator.default_params params) Mutator._alwaysSelect
         (VObj stamped).
Proof.
  intros Hconn Habsent Hpass. cbv zeta.
  apply findUuidIndex_absent in Habsent.
  destruct (mutateStore_accepted "created" (with_uuid entropy s d) (VNum 1)
              now (Mutator._engine s) eq_refl Hpass)
    as (e1 & Hm & Hrec & Hq & Hsync & _).
  unfold Mutator._create, Mutator.create_one, Mutator._checkConnected.
  rewrite Hconn. unfold with_uuid in *.
  destruct (hasProp d "uuid"); unfold Mutator._engine in *;
    cbn [Mutator._replicator] in *; rewrite Habsent;
    change (-1 >? -1) with false; cbv iota; rewrite Hm; cbn;
    rewrite Hq, Hrec, Hsync; repeat split.
Qed.

(** X21.  A [create] that goes through is applied and queued at once.  On a
    connected replicator, for a record whose uuid (the minted one when it
    had none) no stored record has and which passes the publication: the
    stamped record is in the store, one ['create'] entry for it is at the
    end of the queue, with a clone of the record and the params as its
    arguments, one remote [create] with the same arguments has been
    started, and the watermark has not moved. *)
Theorem create_applies_and_enqueues (entropy : nat -> string) (d : Obj)
    (params : Value) (now : Z) (s : Mutator.Service) :
  BaseReplicator.connected (Mutator._replicator s) = true ->
  no_uuid_match (records (store (Mutator._engine s)))
    (getProp (with_uuid entropy s d) "uuid") ->
  passes (Mutator._engine s) (with_uuid entropy s d) = true ->
  let stamped := setProp (with_uuid entropy s d) "updatedAt" (VDate now) in
  let params' :=
    Mutator.push_select (Mutator.default_params params) Mutator._alwaysSelect in
  let s' := fst (Mutator._create entropy (VObj d) params now s) in
  In stamped (records (store (Mutator._engine s')))
  /\ queued (store (Mutator._engine s'))
     = queued (store (Mutator._engine s))
       ++ [mkQueued "create" (VObj stamped)
             [Mutator.shallowClone (VObj stamped); params']]
  /\ Mutator.started s'
     = Mutator.started s
       ++ [mkInvocation "create" (Mutator.shallowClone (VObj stamped))
             params' VUndefined]
  /\ syncedAt (store (Mutator._engine s'))
     = syncedAt (store (Mutator._engine s)).
Proof.
  intros Hconn Habsent Hpass. cbv zeta.
  destruct (create_one_effect entropy d params now s Hconn Habsent Hpass)
    as (Hq & Hrec & Hst & Hsync & _).
  cbv zeta in *. rewrite Hrec. split; [|auto].
  eapply Permutation_in; [symmetry; apply sorted_by_perm|].
  apply in_or_app. right. simpl. auto.
Qed.

Lemma create_applies_and_enqueues_witness :
  let d := [("id", VNum 99); ("uuid", VNum 1099); ("order", VNum 99)] in
  BaseReplicator.connected (Mutator._replicator live_service) = true
  /\ In (setProp d "updatedAt" (VDate 7))
        (records (store (Mutator._engine
           (fst (Mutator._create sample_entropy (VObj d) VUndefined 7
                   live_service)))))
  /\ List.length
       (queued (store (Mutator._engine
          (fst (Mutator._create sample_entropy (VObj d) VUndefined 7
                  live_service))))) = 1%nat.
Proof.
  cbv zeta. split; [reflexivity|].
  destruct (create_applies_and_enqueues sample_entropy
              [("id", VNum 99); ("uuid", VNum 1099); ("order", VNum 99)]
              VUndefined 7 live_service) as (Hin & Hq & _).
  - reflexivity.
  - intros r Hr. simpl in Hr.
    repeat (destruct Hr as [<-|Hr]; [reflexivity|]). destruct Hr.
  - reflexivity.
  - split; [exact Hin|]. rewrite Hq. reflexivity.
Defined.

Lemma js_get_truthy (v : Value) (k : string) :
  truthy v = true -> exists x, js_get v k = Return x.
Proof.
  destruct v; simpl; try discriminate; intros _; unfold js_get; simpl; eauto.
Qed.

Lemma idName_for_setProp (o : Obj) (k : string) (v : Value) :
  k <> "id" -> idName_for (setProp o k v) = idName_for o.
Proof.
  intros Hk. unfold idName_for. rewrite hasProp_setProp_other; auto.
Qed.

Lemma idName_for_cases (o : Obj) : idName_for o = "id" \/ idName_for o = "_id".
Proof. unfold idName_for. destruct (hasProp o "id"); auto. Qed.

(** The server id of a record survives a write to another property. *)
Lemma server_id_setProp (o : Obj) (k : string) (v : Value) :
  k <> "id" -> k <> "_id" ->
  getProp (setProp o k v) (idName_for (setProp o k v))
  = getProp o (idName_for o).
Proof.
  intros H1 H2. rewrite idName_for_setProp by exact H1.
  apply getProp_setProp_other.
  destruct (idName_for_cases o) as [-> | ->]; congruence.
Qed.

Lemma newest_entry_confirmed (eventName : string) (l : Obj)
    (args : list Value) (q : list QueuedMutation) :
  primitive (getProp l (idName_for l)) ->
  remove_last (entry_matches (idName_for l) eventName l)
    (q ++ [mkQueued eventName (VObj l) args]) = q.
Proof.
  intros Hprim. unfold remove_last.
  rewrite rev_app_distr. cbn [rev app remove_first].
  unfold entry_matches at 1. cbn [record readProp BaseEngine.eventName].
  unfold primitive in Hprim.
  rewrite Hprim, String.eqb_refl. cbn. apply rev_involutive.
Qed.

(** X22.  A confirmed [create] leaves no trace in the queue.  After a [create]
    that went through, for a record with a primitive server id (or none),
    the continuation of the remote call with a truthy result takes the
    entry of this call out again, so the queue is as it was before the
    [create]; the stored records stay as the [create] left them; and the
    watermark becomes [res.updatedAt] when that is truthy.  With a falsy
    result the continuation changes nothing: the entry stays queued. *)
Theorem create_then_confirmation (entropy : nat -> string) (d : Obj)
    (params res : Value) (now : Z) (s : Mutator.Service) :
  BaseReplicator.connected (Mutator._replicator s) = true ->
  no_uuid_match (records (store (Mutator._engine s)))
    (getProp (with_uuid entropy s d) "uuid") ->
  passes (Mutator._engine s) (with_uuid entropy s d) = true ->
  Forall has_record (queued (store (Mutator._engine s))) ->
  primitive (getProp d (idName_for d)) ->
  let stamped := setProp (with_uuid entropy s d) "updatedAt" (VDate now) in
  let s1 := fst (Mutator._create entropy (VObj d) params now s) in
  let out := Mutator.settled "create" (VObj stamped) res s1 in
  if truthy res then
    snd out = Return tt
    /\ queued (store (Mutator._engine (fst out)))
       = queued (store (Mutator._engine s))
    /\ records (store (Mutator._engine (fst out)))
       = records (store (Mutator._engine s1))
    /\ exists updatedAt,
         js_get res "updatedAt" = Return updatedAt
         /\ syncedAt (store (Mutator._engine (fst out)))
            = if truthy updatedAt then updatedAt
              else syncedAt (store (Mutator._engine s))
  else out = (s1, Return tt).
Proof.
  intros Hconn Habsent Hpass Hall Hprim. cbv zeta.
  destruct (create_one_effect entropy d params now s Hconn Habsent Hpass)
    as (Hq & _ & _ & Hsync & _).
  cbv zeta in Hq, Hsync.
  set (s1 := fst (Mutator._create entropy (VObj d) params now s)) in *.
  set (stamped := setProp (with_uuid entropy s d) "updatedAt" (VDate now)) in *.
  assert (Hid : getProp stamped (idName_for stamped) = getProp d (idName_for d)).
  { unfold stamped. rewrite server_id_setProp by discriminate.
    unfold with_uuid. destruct (hasProp d "uuid"); [reflexivity|].
    apply server_id_setProp; discriminate. }
  unfold Mutator.settled.
  destruct (truthy res) eqn:Hres; [|reflexivity].
  change (String.eqb "create" "remove") with false. cbv iota.
  destruct (js_get_truthy res "updatedAt" Hres) as [updatedAt Hu].
  rewrite Hu.
  assert (Hall1 : Forall has_record (queued (store (Mutator._engine s1)))).
  { rewrite Hq. apply Forall_app. split; [exact Hall|].
    repeat constructor; discriminate. }
  destruct (removeQueuedEvent_by_server_id "create" stamped updatedAt _ Hall1)
    as (Hret & Hq' & Hs' & Hrec & _).
  cbv zeta in Hq', Hs'. fold (idName_for stamped) in Hq'.
  destruct (_removeQueuedEvent "create" (VObj stamped) updatedAt
              (Mutator._engine s1)) as [e' r].
  cbn [fst snd] in *.
  change (Mutator._engine (Mutator.set__engine e' s1)) with e'.
  split; [exact Hret|]. split.
  - rewrite Hq', Hq. apply newest_entry_confirmed. rewrite Hid. exact Hprim.
  - split; [exact Hrec|]. exists updatedAt. split; [reflexivity|].
    rewrite Hs', Hsync. reflexivity.
Qed.

Lemma create_then_confirmation_witness :
  let d := [("id", VNum 99); ("uuid", VNum 1099); ("order", VNum 99)] in
  let stamped := setProp d "updatedAt" (VDate 7) in
  let res := VObj (setProp d "updatedAt" (VStr "2021-01-01T00:00:00.000Z")) in
  let s1 := fst (Mutator._create sample_entropy (VObj d) VUndefined 7
                   live_service) in
  primitive (getProp d (idName_for d))
  /\ queued (store (Mutator._engine
               (fst (Mutator.settled "create" (VObj stamped) res s1))))
     = [].
Proof.
  cbv zeta. split; [reflexivity|].
  pose proof (create_then_confirmation sample_entropy
                [("id", VNum 99); ("uuid", VNum 1099); ("order", VNum 99)]
                VUndefined
                (VObj (setProp
                         [("id", VNum 99); ("uuid", VNum 1099);
                          ("order", VNum 99)]
                         "updatedAt" (VStr "2021-01-01T00:00:00.000Z")))
                7 live_service) as H.
  cbv zeta in H. cbn [truthy] in H.
  destruct H as (_ & Hq & _).
  - reflexivity.
  - intros r Hr. simpl in Hr.
    repeat (destruct Hr as [<-|Hr]; [reflexivity|]). destruct Hr.
  - reflexivity.
  - constructor.
  - reflexivity.
  - exact Hq.
Defined.

Lemma getId_record (o : Obj) :
  Mutator.getId (VObj o) = Return (getProp o (idName_for o)).
Proof.
  unfold Mutator.getId, idName_for, js_in, js_get, bindR. simpl.
  destruct (hasProp o "id"); reflexivity.
Qed.

Lemma found_by_id_at (rs : list Obj) (id : Value) (r : Obj) :
  found_by_id rs id = Some r ->
  (Mutator.findIdIndex rs id =? -1) = false
  /\ Mutator.at_index rs (Mutator.findIdIndex rs id) = VObj r.
Proof. intros Hf. apply found_at_index. exact Hf. Qed.

(** X23.  [update] cannot change the uuid of a record.  On a connected
    replicator, for data that carries a uuid, an [id] that a stored record
    answers to, and data that passes the publication: the uuid of the data
    is overwritten with that of the record found, the stamped data is
    stored in place of the stored record with the server id of the data
    (not of the [id] argument), one ['update'] entry goes to the end of
    the queue and one remote [update] is started, both with the server id
    of the data and a clone of it, and the result carries the uuid of the
    record found. *)
Theorem update_keeps_uuid (id : Value) (d : Obj) (params : Value) (now : Z)
    (s : Mutator.Service) (r : Obj) :
  BaseReplicator.connected (Mutator._replicator s) = true ->
  hasProp d "uuid" = true ->
  found_by_id (records (store (Mutator._engine s))) id = Some r ->
  well_formed r ->
  passes (Mutator._engine s) (setProp d "uuid" (getProp r "uuid")) = true ->
  let d1 := setProp d "uuid" (getProp r "uuid") in
  let stamped := setProp d1 "updatedAt" (VDate now) in
  let params' :=
    Mutator.push_select (Mutator.default_params params) Mutator._alwaysSelect in
  let newId := getProp stamped (idName_for stamped) in
  let out := Mutator._update id (VObj d) params now s in
  getProp stamped "uuid" = getProp r "uuid"
  /\ records (store (Mutator._engine (fst out)))
     = sorted_by (_sorter (Mutator._engine s))
         (remove_first (same_id d1) (records (store (Mutator._engine s)))
            ++ [stamped])
  /\ queued (store (Mutator._engine (fst out)))
     = queued (store (Mutator._engine s))
       ++ [mkQueued "update" (VObj stamped)
             [newId; Mutator.shallowClone (VObj stamped); params']]
  /\ Mutator.started (fst out)
     = Mutator.started s
       ++ [mkInvocation "update" newId (Mutator.shallowClone (VObj stamped))
             params']
  /\ exists o,
       snd out = Return (VObj o) /\ getProp o "uuid" = getProp r "uuid".
Proof.
  intros Hconn Huuid Hf Hwf Hpass. cbv zeta.
  assert (Hu : getProp (setProp (setProp d "uuid" (getProp r "uuid"))
                          "updatedAt" (VDate now)) "uuid"
               = getProp r "uuid").
  { rewrite getProp_setProp_other by discriminate.
    apply getProp_setProp_same. }
  split; [exact Hu|].
  destruct (found_by_id_at _ _ _ Hf) as [Hidx Hat].
  destruct (mutateStore_accepted "updated"
              (setProp d "uuid" (getProp r "uuid")) (VNum 1) now
              (Mutator._engine s) eq_refl Hpass)
    as (e1 & Hm & Hrec & Hq & _).
  destruct (select_keeps_always (Mutator.default_params params)
              (setProp (setProp d "uuid" (getProp r "uuid"))
                 "updatedAt" (VDate now))) as (o & Hsel & Hkeys & _).
  unfold Mutator._update, Mutator._checkConnected, Mutator.checkUuidExists.
  rewrite Hconn. cbn [bindR js_in]. rewrite Huuid, Hidx, Hat.
  rewrite (shallowClone_well_formed r Hwf).
  change (js_get (VObj r) "uuid") with (Return (getProp r "uuid")).
  cbv iota. unfold Mutator._engine in *. rewrite Hm, getId_record, Hsel. cbn.
  rewrite Hq, Hrec. repeat split.
  exists o. split; [reflexivity|].
  rewrite (Hkeys "uuid") by (simpl; auto). exact Hu.
Qed.

Lemma update_keeps_uuid_witness :
  let d := [("id", VNum 1); ("uuid", VStr "other"); ("order", VNum 11)] in
  found_by_id (records (store (Mutator._engine live_service))) (VStr "1")
  = Some (seed 1)
  /\ exists o,
       snd (Mutator._update (VStr "1") (VObj d) VUndefined 7 live_service)
       = Return (VObj o)
       /\ getProp o "uuid" = VNum 1001.
Proof.
  cbv zeta. split; [reflexivity|].
  apply (update_keeps_uuid (VStr "1")
           [("id", VNum 1); ("uuid", VStr "other"); ("order", VNum 11)]
           VUndefined 7 live_service (seed 1)).
  - reflexivity.
  - reflexivity.
  - reflexivity.
  - repeat constructor; simpl; intuition discriminate.
  - reflexivity.
Defined.

Lemma assign_onto_empty (r : Obj) : well_formed r -> assign [] r = r.
Proof. intros Hwf. rewrite assign_fresh; auto. Qed.

(** X24.  [patch] merges the data over the stored record.  On a connected
    replicator, for an [id] other than [null] that a stored record
    answers to, and when the merged record passes the publication: every
    property of the data is in the merged record with the value of the
    data, every other property is that of the stored record; the merged
    record, stamped, is stored; one ['patch'] entry goes to the end of the
    queue and one remote [patch] is started, both with the server id of
    the merged record and a clone of it; and the result carries the [id],
    [_id] and [uuid] of the merged record. *)
Theorem patch_merges (filterQuery : Value -> Result Mutator.Filtered)
    (matcher : Value -> Obj -> bool) (sorter : Value -> Obj -> Obj -> Z)
    (toISOString : Z -> string) (depth : nat) (id : Value) (d : Obj)
    (params : Value) (now : Z) (s : Mutator.Service) (r : Obj) :
  BaseReplicator.connected (Mutator._replicator s) = true ->
  strict_eq id VNull = false ->
  found_by_id (records (store (Mutator._engine s))) id = Some r ->
  well_formed r ->
  well_formed d ->
  passes (Mutator._engine s) (assign r d) = true ->
  let merged := assign r d in
  let stamped := setProp merged "updatedAt" (VDate now) in
  let params' :=
    Mutator.push_select (Mutator.default_params params) Mutator._alwaysSelect in
  let newId := getProp stamped (idName_for stamped) in
  exists s' o,
    Mutator._patch filterQuery matcher sorter toISOString depth id (VObj d)
      params now s = Some (s', Return (VObj o))
    /\ (forall k, getProp merged k
                  = if hasProp d k then getProp d k else getProp r k)
    /\ records (store (Mutator._engine s'))
       = sorted_by (_sorter (Mutator._engine s))
           (remove_first (same_id merged) (records (store (Mutator._engine s)))
              ++ [stamped])
    /\ queued (store (Mutator._engine s'))
       = queued (store (Mutator._engine s))
         ++ [mkQueued "patch" (VObj stamped)
               [newId; Mutator.shallowClone (VObj stamped); params']]
    /\ Mutator.started s'
       = Mutator.started s
         ++ [mkInvocation "patch" newId (Mutator.shallowClone (VObj stamped))
               params']
    /\ (forall k, In k ["id"; "_id"; "uuid"] ->
                  getProp o k = getProp merged k).
Proof.
  intros Hconn Hid Hf Hwf Hwfd Hpass. cbv zeta.
  destruct (found_by_id_at _ _ _ Hf) as [Hidx Hat].
  destruct (mutateStore_accepted "patched" (assign r d) (VNum 1) now
              (Mutator._engine s) eq_refl Hpass)
    as (e1 & Hm & Hrec & Hq & _).
  destruct (select_keeps_always (Mutator.default_params params)
              (setProp (assign r d) "updatedAt" (VDate now)))
    as (o & Hsel & Hkeys & _).
  assert (Hbody :
            Mutator.patch_one id (VObj d) (Mutator.default_params params) now s
            = (Mutator.start
                 (mkInvocation "patch"
                    (getProp (setProp (assign r d) "updatedAt" (VDate now))
                       (idName_for
                          (setProp (assign r d) "updatedAt" (VDate now))))
                    (Mutator.shallowClone
                       (VObj (setProp (assign r d) "updatedAt" (VDate now))))
                    (Mutator.push_select (Mutator.default_params params)
                       Mutator._alwaysSelect))
                 (Mutator.set__engine
                    (_addQueuedEvent "patch"
                       (VObj (setProp (assign r d) "updatedAt" (VDate now)))
                       [getProp (setProp (assign r d) "updatedAt" (VDate now))
                          (idName_for
                             (setProp (assign r d) "updatedAt" (VDate now)));
                        Mutator.shallowClone
                          (VObj (setProp (assign r d) "updatedAt"
                                   (VDate now)));
                        Mutator.push_select (Mutator.default_params params)
                          Mutator._alwaysSelect] e1) s),
               Return (VObj o))).
  { unfold Mutator.patch_one. rewrite Hidx, Hat.
    rewrite (shallowClone_well_formed r Hwf).
    unfold assign_values. rewrite (assign_onto_empty r Hwf).
    rewrite Hm, getId_record, Hsel. reflexivity. }
  eexists. exists o. split.
  - destruct depth; cbn [Mutator._patch]; unfold Mutator._checkConnected;
      rewrite Hconn, Hid; cbv iota; rewrite Hbody; reflexivity.
  - cbn. rewrite Hq, Hrec. repeat split.
    + intros k. apply getProp_assign. exact Hwfd.
    + intros k Hk. rewrite (Hkeys k Hk).
      apply getProp_setProp_other.
      simpl in Hk. intuition (subst; discriminate).
Qed.

Lemma patch_merges_witness :
  found_by_id (records (store (Mutator._engine live_service))) (VNum 1)
  = Some (seed 1)
  /\ exists s' o,
       Mutator._patch plain_filterQuery any_matcher no_sorter sample_ISO 0
         (VNum 1) (VObj [("order", VNum 99)]) VUndefined 7 live_service
       = Some (s', Return (VObj o))
       /\ In [("id", VNum 1); ("uuid", VNum 1001); ("order", VNum 99);
              ("updatedAt", VDate 7)]
            (records (store (Mutator._engine s'))).
Proof.
  split; [reflexivity|].
  destruct (patch_merges plain_filterQuery any_matcher no_sorter sample_ISO 0
              (VNum 1) [("order", VNum 99)] VUndefined 7 live_service (seed 1))
    as (s' & o & Hcall & _ & Hrec & _).
  - reflexivity.
  - reflexivity.
  - reflexivity.
  - repeat constructor; simpl; intuition discriminate.
  - repeat constructor; simpl; intuition discriminate.
  - reflexivity.
  - exists s', o. split; [exact Hcall|]. rewrite Hrec.
    eapply Permutation_in; [symmetry; apply sorted_by_perm|].
    apply in_or_app. right. left. reflexivity.
Defined.

Lemma mutateStore_removed_returns (r : Obj) (source : Value) (now : Z)
    (e : Engine) :
  snd (_mutateStore "removed" r source now e)
  = match find (same_id r) (records (store e)) with
    | Some before => VObj before
    | None => VNull
    end.
Proof.
  unfold _mutateStore. fold (same_id r). rewrite _findIndex_index_of.
  destruct (index_of (same_id r) (records (store e))) as [n|] eqn:E.
  - destruct (index_of_some _ _ _ E) as (Hnth & _ & Hex).
    replace (Z.of_nat n >=? 0) with true by (symmetry; apply Z.geb_le; lia).
    rewrite Nat2Z.id, Hnth. simpl.
    destruct (find (same_id r) (records (store e))) eqn:F; [reflexivity|].
    exfalso. apply existsb_exists in Hex. destruct Hex as (x & Hx & Hp).
    apply (find_none _ _ F) in Hx. congruence.
  - destruct (index_of_none_find _ _ E) as (Hfind & _). rewrite Hfind.
    change (-1 >=? 0) with false. cbv iota.
    destruct (strict_eq source (VNum 0) && _); reflexivity.
Qed.

(** X25.  [remove] takes the record out and queues the call.  On a connected
    replicator, for an [id] other than [null] that a stored record with a
    primitive server id answers to (loosely: the string ['1'] finds the
    record with id [1]): the first stored record with the server id of
    the record found goes, so the store is one record shorter; one
    ['remove'] entry with the record found goes to the end of the queue
    and one remote [remove] is started, both with the [id] as it was
    given; the watermark stays; and the result carries the [id], [_id]
    and [uuid] of the record that went. *)
Theorem remove_takes_out_found (filterQuery : Value -> Result Mutator.Filtered)
    (matcher : Value -> Obj -> bool) (sorter : Value -> Obj -> Obj -> Z)
    (toISOString : Z -> string) (depth : nat) (id params : Value) (now : Z)
    (s : Mutator.Service) (r : Obj) :
  BaseReplicator.connected (Mutator._replicator s) = true ->
  strict_eq id VNull = false ->
  found_by_id (records (store (Mutator._engine s))) id = Some r ->
  well_formed r ->
  primitive (getProp r (idName_for r)) ->
  let params' :=
    Mutator.push_select (Mutator.default_params params) Mutator._alwaysSelect in
  exists s' gone o,
    Mutator._remove filterQuery matcher sorter toISOString depth id params
      now s = Some (s', Return (VObj o))
    /\ find (same_id r) (records (store (Mutator._engine s))) = Some gone
    /\ records (store (Mutator._engine s'))
       = remove_first (same_id r) (records (store (Mutator._engine s)))
    /\ Z.of_nat (List.length (records (store (Mutator._engine s'))))
       = Z.of_nat (List.length (records (store (Mutator._engine s)))) - 1
    /\ queued (store (Mutator._engine s'))
       = queued (store (Mutator._engine s))
         ++ [mkQueued "remove" (VObj r) [id; params']]
    /\ Mutator.started s'
       = Mutator.started s ++ [mkInvocation "remove" id params' VUndefined]
    /\ syncedAt (store (Mutator._engine s'))
       = syncedAt (store (Mutator._engine s))
    /\ (forall k, In k ["id"; "_id"; "uuid"] ->
                  getProp o k = getProp gone k).
Proof.
  intros Hconn Hid Hf Hwf Hprim. cbv zeta.
  destruct (found_by_id_at _ _ _ Hf) as [Hidx Hat].
  assert (Hin : In r (records (store (Mutator._engine s))))
    by (apply (find_some _ _ Hf)).
  assert (Hself : same_id r r = true) by exact Hprim.
  assert (Hex : existsb (same_id r) (records (store (Mutator._engine s)))
                = true)
    by (apply existsb_exists; exists r; auto).
  destruct (find (same_id r) (records (store (Mutator._engine s))))
    as [gone|] eqn:Hgone.
  2:{ apply (find_none _ _ Hgone) in Hin. congruence. }
  pose proof (mutateStore_removed_returns r (VNum 1) now (Mutator._engine s))
    as Hret.
  pose proof (mutateStore_records "removed" r (VNum 1) now (Mutator._engine s))
    as Hrec.
  pose proof (mutateStore_config "removed" r (VNum 1) now (Mutator._engine s))
    as (_ & _ & Hq & Hsync & _).
  cbv zeta in Hrec, Hq, Hsync. simpl orb in Hrec. cbv iota in Hrec.
  rewrite Hgone in Hret.
  destruct (select_keeps_always (Mutator.default_params params) gone)
    as (o & Hsel & Hkeys & _).
  destruct (_mutateStore "removed" r (VNum 1) now (Mutator._engine s))
    as [e1 newData] eqn:Hm.
  cbn [fst snd] in *. subst newData.
  eexists. exists gone, o. split.
  - destruct depth; cbn [Mutator._remove]; unfold Mutator._checkConnected;
      rewrite Hconn, Hid; cbv iota; unfold Mutator.remove_one;
      rewrite Hidx, Hat, (shallowClone_well_formed r Hwf), Hm, Hsel;
      reflexivity.
  - cbn. rewrite Hq, Hrec, Hsync. repeat split; auto.
    rewrite remove_first_length, Hex. reflexivity.
Qed.

Lemma remove_takes_out_found_witness :
  found_by_id (records (store (Mutator._engine live_service))) (VStr "1")
  = Some (seed 1)
  /\ exists s' o,
       Mutator._remove plain_filterQuery any_matcher no_sorter sample_ISO 0
         (VStr "1") VUndefined 7 live_service
       = Some (s', Return (VObj o))
       /\ records (store (Mutator._engine s'))
          = [seed 0; seed 2; seed 3; seed 4].
Proof.
  split; [reflexivity|].
  destruct (remove_takes_out_found plain_filterQuery any_matcher no_sorter
              sample_ISO 0 (VStr "1") VUndefined 7 live_service (seed 1))
    as (s' & gone & o & Hcall & _ & Hrec & _).
  - reflexivity.
  - reflexivity.
  - reflexivity.
  - repeat constructor; simpl; intuition discriminate.
  - reflexivity.
  - exists s', o. split; [exact Hcall|]. rewrite Hrec. reflexivity.
Defined.

(* ================================================================== *)
(** * From an optimistic write to its replay *)
(* ================================================================== *)

Lemma setProp_keys (o : Obj) (k : string) (v : Value) :
  map fst (setProp o k v)
  = if hasProp o k then map fst o else map fst o ++ [k].
Proof.
  induction o as [|[k0 v0] o IH]; simpl; [reflexivity|].
  destruct (String.eqb k0 k); simpl; [reflexivity|].
  rewrite IH. destruct (hasProp o k); reflexivity.
Qed.

Lemma setProp_well_formed (o : Obj) (k : string) (v : Value) :
  well_formed o -> well_formed (setProp o k v).
Proof.
  unfold well_formed. intros Hwf. rewrite setProp_keys.
  destruct (hasProp o k) eqn:Hh; [exact Hwf|].
  apply (Permutation_NoDup (Permutation_cons_append _ _)).
  constructor; [|exact Hwf].
  intros Hin. apply hasProp_In in Hin. congruence.
Qed.

Lemma scrub_plain (o : Obj) :
  truthy (getProp o "query") = false -> scrub (VObj o) = Return (VObj o).
Proof.
  intros Hq. unfold scrub, js_get. cbn [readProp bindR]. rewrite Hq.
  reflexivity.
Qed.

Lemma push_select_plain (p : Obj) :
  truthy (getProp p "query") = false ->
  Mutator.push_select (VObj p) Mutator._alwaysSelect = VObj p.
Proof.
  intros Hq. unfold Mutator.push_select.
  destruct (getProp p "query"); try reflexivity. discriminate.
Qed.

(** X26.  A [create] whose confirmation never came is replayed as it was sent.
    After a [create] that went through on an empty queue, for a record
    and params without a [query] of their own, [processQueuedEvents]
    makes exactly one remote call, the [create] with the arguments of the
    call that the [create] itself had started; when the remote fulfils it
    the queue is empty, when it rejects it the entry is back in the
    queue. *)
Theorem unconfirmed_create_is_replayed {R : Type}
    (service : string -> option (Value -> Value -> Value -> R -> bool * R))
    (remote : Value -> Value -> Value -> R -> bool * R) (r : R)
    (entropy : nat -> string) (d p : Obj) (params : Value) (now : Z)
    (s : Mutator.Service) :
  BaseReplicator.connected (Mutator._replicator s) = true ->
  no_uuid_match (records (store (Mutator._engine s)))
    (getProp (with_uuid entropy s d) "uuid") ->
  passes (Mutator._engine s) (with_uuid entropy s d) = true ->
  queued (store (Mutator._engine s)) = [] ->
  well_formed d ->
  truthy (getProp d "query") = false ->
  Mutator.default_params params = VObj p ->
  truthy (getProp p "query") = false ->
  service "create" = Some remote ->
  let stamped := setProp (with_uuid entropy s d) "updatedAt" (VDate now) in
  let s1 := fst (Mutator._create entropy (VObj d) params now s) in
  let sent := mkInvocation "create" (VObj stamped) (VObj p) VUndefined in
  let out := processQueuedEvents service (Mutator._engine s1) r in
  Mutator.started s1 = Mutator.started s ++ [sent]
  /\ snd (fst out) = [sent]
  /\ snd out = Return (VBool true)
  /\ snd (fst (fst out)) = snd (remote (VObj stamped) (VObj p) VUndefined r)
  /\ queued (store (fst (fst (fst out))))
     = if fst (remote (VObj stamped) (VObj p) VUndefined r) then []
       else queued (store (Mutator._engine s1)).
Proof.
  intros Hconn Habsent Hpass Hempty Hwf Hdq Hp Hpq Hsvc. cbv zeta.
  destruct (create_one_effect entropy d params now s Hconn Habsent Hpass)
    as (Hq & _ & Hst & _).
  cbv zeta in Hq, Hst. rewrite Hp, (push_select_plain p Hpq) in Hq, Hst.
  set (stamped := setProp (with_uuid entropy s d) "updatedAt" (VDate now)) in *.
  assert (Hwfs : well_formed stamped).
  { unfold stamped. apply setProp_well_formed. unfold with_uuid.
    destruct (hasProp d "uuid"); [exact Hwf|].
    apply setProp_well_formed. exact Hwf. }
  assert (Hsq : truthy (getProp stamped "query") = false).
  { unfold stamped. rewrite getProp_setProp_other by discriminate.
    unfold with_uuid. destruct (hasProp d "uuid"); [exact Hdq|].
    rewrite getProp_setProp_other by discriminate. exact Hdq. }
  rewrite (shallowClone_well_formed stamped Hwfs) in Hq, Hst.
  split; [exact Hst|].
  unfold processQueuedEvents. rewrite Hq, Hempty.
  cbn [app drain args scrub_args eventName].
  rewrite (scrub_plain stamped Hsq), (scrub_plain p Hpq).
  cbn [bindR]. rewrite Hsvc. cbn [arg nth].
  destruct (remote (VObj stamped) (VObj p) VUndefined r) as [[|] r1];
    cbn; repeat split.
Qed.

Lemma unconfirmed_create_is_replayed_witness :
  let d := [("id", VNum 99); ("uuid", VNum 1099); ("order", VNum 99)] in
  let s1 := fst (Mutator._create sample_entropy (VObj d) VUndefined 7
                   live_service) in
  queued (store (Mutator._engine live_service)) = []
  /\ queued (store (fst (fst (fst (processQueuedEvents obliging_service
                                      (Mutator._engine s1) tt))))) = [].
Proof.
  cbv zeta. split; [reflexivity|].
  destruct (unconfirmed_create_is_replayed obliging_service
              (fun _ _ _ _ => (true, tt)) tt sample_entropy
              [("id", VNum 99); ("uuid", VNum 1099); ("order", VNum 99)]
              [] VUndefined 7 live_service) as (_ & _ & _ & _ & Hq).
  - reflexivity.
  - intros r Hr. simpl in Hr.
    repeat (destruct Hr as [<-|Hr]; [reflexivity|]). destruct Hr.
  - reflexivity.
  - reflexivity.
  - repeat constructor; simpl; intuition discriminate.
  - reflexivity.
  - reflexivity.
  - reflexivity.
  - reflexivity.
  - exact Hq.
Defined.

(* ================================================================== *)
(** * Writes on a replicator that is not connected *)
(* ================================================================== *)

Lemma create_disconnected_state (entropy : nat -> string) (params : Value)
    (now : Z) (s : Mutator.Service) :
  BaseReplicator.connected (Mutator._replicator s) = false ->
  forall data, fst (Mutator._create entropy data params now s) = s.
Proof.
  intros Hconn. fix IH 1. intros data.
  destruct data as [| |b|n|str|ms|items|o];
    try (cbn [Mutator._create]; unfold Mutator.create_one,
           Mutator._checkConnected; rewrite Hconn; reflexivity).
  cbn [Mutator._create].
  match goal with
  | |- fst (let (s', rs) := ?each items s in _) = s =>
      assert (Heach : fst (each items s) = s);
      [|destruct (each items s) as [s' rs]; exact Heach]
  end.
  induction items as [|x items IHitems]; [reflexivity|].
  pose proof (IH x) as Hx.
  destruct (Mutator._create entropy x params now s) as [s1 r1].
  cbn [fst] in Hx. subst s1.
  match goal with
  | |- fst (let (s2, rs) := ?rest in _) = s =>
      change (fst rest = s) in IHitems; destruct rest as [s2 rs]
  end.
  exact IHitems.
Qed.

(** X27.  No write goes through while the replicator is not connected.
    [create] leaves the service as it was whatever the data, an array of
    records included, and fails with [BadRequest] on a record; [update],
    [patch] and [remove] fail with [BadRequest] for every id, [null]
    included, before they look at the store: nothing is stored, queued or
    sent. *)
Theorem writes_need_connection (filterQuery : Value -> Result Mutator.Filtered)
    (matcher : Value -> Obj -> bool) (sorter : Value -> Obj -> Obj -> Z)
    (toISOString : Z -> string) (entropy : nat -> string) (depth : nat)
    (id data params : Value) (now : Z) (s : Mutator.Service) :
  BaseReplicator.connected (Mutator._replicator s) = false ->
  let refused :=
    Throw (BadRequest "Replicator not connected to remote. (owndata)") in
  fst (Mutator._create entropy data params now s) = s
  /\ (forall d, Mutator._create entropy (VObj d) params now s = (s, refused))
  /\ Mutator._update id data params now s = (s, refused)
  /\ Mutator._patch filterQuery matcher sorter toISOString depth id data
       params now s = Some (s, refused)
  /\ Mutator._remove filterQuery matcher sorter toISOString depth id params
       now s = Some (s, refused).
Proof.
  intros Hconn. cbv zeta.
  split; [apply create_disconnected_state; exact Hconn|].
  split; [|split; [|split]].
  - intros d. cbn [Mutator._create].
    unfold Mutator.create_one, Mutator._checkConnected. rewrite Hconn.
    reflexivity.
  - unfold Mutator._update, Mutator._checkConnected. rewrite Hconn.
    reflexivity.
  - destruct depth; cbn [Mutator._patch]; unfold Mutator._checkConnected;
      rewrite Hconn; reflexivity.
  - destruct depth; cbn [Mutator._remove]; unfold Mutator._checkConnected;
      rewrite Hconn; reflexivity.
Qed.

Lemma writes_need_connection_witness :
  BaseReplicator.connected (Mutator._replicator idle_service) = false
  /\ fst (Mutator._create sample_entropy
            (VArr [VObj [("order", VNum 1)]; VObj [("order", VNum 2)]])
            VUndefined 7 idle_service) = idle_service.
Proof.
  split; [reflexivity|].
  apply (writes_need_connection plain_filterQuery any_matcher no_sorter
           sample_ISO sample_entropy 0 VNull
           (VArr [VObj [("order", VNum 1)]; VObj [("order", VNum 2)]])
           VUndefined 7 idle_service).
  reflexivity.
Defined.

(* ================================================================== *)
(** * Removing every record a query selects *)
(* ================================================================== *)

Lemma find_unique {A} (p : A -> bool) (l : list A) (v : A) :
  In v l -> p v = true ->
  (forall x, In x l -> p x = true -> x = v) ->
  find p l = Some v.
Proof.
  induction l as [|y l IH]; simpl; [tauto|].
  intros Hin Hp Huniq. destruct (p y) eqn:Hy.
  - f_equal. apply Huniq; auto.
  - destruct Hin as [->|Hin]; [congruence|].
    apply IH; auto.
Qed.

Lemma filter_all {A} (p : A -> bool) (l : list A) :
  (forall x, In x l -> p x = true) -> filter p l = l.
Proof.
  induction l as [|y l IH]; simpl; [reflexivity|].
  intros H. rewrite (H y) by auto. rewrite IH by auto. reflexivity.
Qed.

Lemma filter_twice {A} (p q : A -> bool) (l : list A) :
  filter p (filter q l) = filter (fun x => q x && p x) l.
Proof.
  induction l as [|y l IH]; simpl; [reflexivity|].
  destruct (q y); simpl; [destruct (p y)|]; rewrite IH; reflexivity.
Qed.

Lemma remove_first_unique {A} (p : A -> bool) (l : list A) (v : A) :
  NoDup l ->
  (forall x, In x l -> p x = true -> x = v) ->
  remove_first p l = filter (fun x => negb (p x)) l.
Proof.
  induction l as [|y l IH]; simpl; [reflexivity|].
  intros Hnd Huniq. inversion Hnd as [|? ? Hy Hnd']; subst.
  destruct (p y) eqn:Hpy; simpl.
  - assert (y = v) by (apply Huniq; auto). subst y.
    symmetry. apply filter_all. intros x Hx.
    destruct (p x) eqn:Hpx; [|reflexivity].
    assert (x = v) by (apply Huniq; auto). subst x. contradiction.
  - f_equal. apply IH; auto.
Qed.

Lemma NoDup_map_eq {A B} (f : A -> B) (l : list A) (x y : A) :
  NoDup (map f l) -> In x l -> In y l -> f x = f y -> x = y.
Proof.
  induction l as [|a l IH]; simpl; [tauto|].
  intros Hnd Hx Hy Hf. inversion Hnd as [|? ? Ha Hnd']; subst.
  destruct Hx as [->|Hx], Hy as [->|Hy]; auto.
  - exfalso. apply Ha. rewrite Hf. apply in_map. exact Hy.
  - exfalso. apply Ha. rewrite <- Hf. apply in_map. exact Hx.
Qed.

Lemma kept_keys_distinct {K V} (key : V -> K) (keep : V -> bool)
    (rs : list V) :
  NoDup (map key rs) -> NoDup (map key (filter keep rs)).
Proof.
  induction rs as [|r rs IH]; simpl; [auto|].
  intros Hnd. inversion Hnd as [|? ? Hr Hnd']; subst.
  destruct (keep r); simpl; [|auto].
  constructor; [|auto]. intros Hin. apply Hr.
  apply in_map_iff in Hin. destruct Hin as (x & Hx & Hin).
  apply filter_In in Hin. rewrite <- Hx. apply in_map. tauto.
Qed.

Lemma NoDup_firstn {A} (n : nat) (l : list A) : NoDup l -> NoDup (firstn n l).
Proof.
  intros H. rewrite <- (firstn_skipn n l) in H.
  apply NoDup_app_remove_r in H. exact H.
Qed.

Lemma NoDup_skipn {A} (n : nat) (l : list A) : NoDup l -> NoDup (skipn n l).
Proof.
  intros H. rewrite <- (firstn_skipn n l) in H.
  apply NoDup_app_remove_l in H. exact H.
Qed.

Lemma In_firstn {A} (n : nat) (l : list A) (x : A) :
  In x (firstn n l) -> In x l.
Proof.
  intros H. rewrite <- (firstn_skipn n l). apply in_or_app. auto.
Qed.

Lemma In_skipn {A} (n : nat) (l : list A) (x : A) :
  In x (skipn n l) -> In x l.
Proof.
  intros H. rewrite <- (firstn_skipn n l). apply in_or_app. auto.
Qed.

Lemma getProp_hasProp (o : Obj) (k : string) :
  getProp o k <> VUndefined -> hasProp o k = true.
Proof.
  induction o as [|[k0 v0] o IH]; simpl; [congruence|].
  destruct (String.eqb k0 k); simpl; auto.
Qed.

(** ** Records with numbers for ids *)

Lemma numbered_NoDup (rs : list Obj) : numbered rs -> NoDup rs.
Proof. intros [_ Hnd]. eapply NoDup_map_inv. exact Hnd. Qed.

Lemma numbered_id (rs : list Obj) (r : Obj) :
  numbered rs -> In r rs ->
  (exists n, getProp r "id" = VNum n)
  /\ getProp r "_id" = VUndefined /\ well_formed r /\ hasProp r "id" = true.
Proof.
  intros [Hall _] Hin. rewrite Forall_forall in Hall.
  destruct (Hall r Hin) as ([n Hn] & Hu & Hwf).
  repeat split; eauto. apply getProp_hasProp. congruence.
Qed.

Lemma numbered_same_id (rs : list Obj) (v r : Obj) :
  numbered rs -> In v rs -> In r rs ->
  same_id v r = true <-> r = v.
Proof.
  intros Hnum Hv Hr.
  destruct (numbered_id rs v Hnum Hv) as ([n Hn] & _ & _ & Hh).
  unfold same_id. rewrite Hh. split.
  - intros H. apply strict_eq_eq in H.
    eapply (NoDup_map_eq (fun r => getProp r "id")); eauto. apply Hnum.
  - intros ->. rewrite Hn. simpl. apply Z.eqb_refl.
Qed.

Lemma numbered_found (rs : list Obj) (v : Obj) :
  numbered rs -> In v rs ->
  found_by_id rs (getProp v "id") = Some v
  /\ find (same_id v) rs = Some v.
Proof.
  intros Hnum Hv.
  destruct (numbered_id rs v Hnum Hv) as ([n Hn] & Hu & _ & _).
  split.
  - apply find_unique; [exact Hv| |].
    + rewrite Hn. simpl. rewrite Z.eqb_refl. reflexivity.
    + intros x Hx Hp.
      destruct (numbered_id rs x Hnum Hx) as ([m Hm] & Hxu & _ & _).
      rewrite Hxu, Hm, Hn in Hp. simpl in Hp. rewrite orb_false_r in Hp.
      apply Z.eqb_eq in Hp. subst m.
      eapply (NoDup_map_eq (fun r => getProp r "id")); eauto;
        [apply Hnum|congruence].
  - apply find_unique; [exact Hv| |].
    + apply (numbered_same_id rs v v); auto.
    + intros x Hx Hp. apply (numbered_same_id rs v x); auto.
Qed.

Lemma numbered_filter (p : Obj -> bool) (rs : list Obj) :
  numbered rs -> numbered (filter p rs).
Proof.
  intros [Hall Hnd]. split.
  - rewrite Forall_forall in *. intros r Hr. apply Hall.
    apply filter_In in Hr. tauto.
  - apply kept_keys_distinct. exact Hnd.
Qed.

Lemma spared_iff (rs values : list Obj) (r : Obj) :
  numbered rs -> incl values rs -> In r rs ->
  spared values r = true <-> ~ In r values.
Proof.
  intros Hnum Hincl Hr. unfold spared. rewrite negb_true_iff. split.
  - intros Hex Hin.
    assert (existsb (fun v => same_id v r) values = true); [|congruence].
    apply existsb_exists. exists r. split; [exact Hin|].
    apply (numbered_same_id rs r r); auto.
  - intros Hnin. destruct (existsb _ values) eqn:Hex; [|reflexivity].
    apply existsb_exists in Hex. destruct Hex as (v & Hv & Hsame).
    apply (numbered_same_id rs v r) in Hsame; auto. subst r. contradiction.
Qed.

(** ** What [_find] hands to the fan-out *)

Lemma selected_incl (matcher : Value -> Obj -> bool)
    (sorter : Value -> Obj -> Obj -> Z) (fq : Mutator.Filtered)
    (rs : list Obj) :
  incl (selected matcher sorter fq rs) rs.
Proof.
  intros x. unfold selected, slice_to, slice_from.
  destruct (Mutator.filters_limit fq), (Mutator.filters_skip fq),
    (Mutator.filters_sort fq); intros H;
    repeat match type of H with
           | In _ (firstn _ _) => apply In_firstn in H
           | In _ (skipn _ _) => apply In_skipn in H
           | In _ (array_sort _ _) => apply array_sort_In in H
           end;
    apply filter_In in H; tauto.
Qed.

Lemma selected_NoDup (matcher : Value -> Obj -> bool)
    (sorter : Value -> Obj -> Obj -> Z) (fq : Mutator.Filtered)
    (rs : list Obj) :
  NoDup rs -> NoDup (selected matcher sorter fq rs).
Proof.
  intros Hnd. unfold selected, slice_to, slice_from.
  assert (Hf : NoDup (filter (matcher (Mutator.query fq)) rs))
    by (apply NoDup_filter; exact Hnd).
  assert (Hs : forall spec,
             NoDup (array_sort (sorter spec)
                      (filter (matcher (Mutator.query fq)) rs))).
  { intros spec. eapply Permutation_NoDup; [|exact Hf].
    symmetry. apply array_sort_perm. }
  destruct (Mutator.filters_limit fq), (Mutator.filters_skip fq),
    (Mutator.filters_sort fq);
    repeat first [apply NoDup_firstn | apply NoDup_skipn]; auto.
Qed.

Lemma json_clone_id (toISOString : Z -> string) (v : Obj) (n : Z) :
  getProp v "id" = VNum n ->
  exists o,
    Mutator.json_clone toISOString (VObj v) = VObj o
    /\ getProp o "id" = VNum n.
Proof.
  induction v as [|[k x] v IH]; simpl; [discriminate|].
  destruct (String.eqb k "id") eqn:E.
  - intros ->. eexists. split; [reflexivity|]. simpl. rewrite E. reflexivity.
  - intros H. destruct (IH H) as (o & Ho & Hid).
    simpl in Ho. injection Ho as Ho.
    destruct x; (eexists; split; [reflexivity|]);
      simpl; rewrite ?E, Ho; exact Hid.
Qed.

Lemma default_params_twice (params : Value) :
  Mutator.default_params (Mutator.default_params params)
  = Mutator.default_params params.
Proof. destruct params; reflexivity. Qed.

Lemma push_select_none (params : Value) (others : list string) :
  Mutator.select_fields params = None ->
  Mutator.push_select params others = params.
Proof.
  unfold Mutator.select_fields, Mutator.push_select.
  destruct params as [| | | | | | |p]; try reflexivity.
  destruct (getProp p "query") as [| | | | | | |q]; try reflexivity.
  destruct (getProp q "$select"); try reflexivity. discriminate.
Qed.

Lemma select_all_whole (toISOString : Z -> string) (params : Value)
    (values : list Obj) :
  Mutator.select_fields params = None ->
  Mutator.select_all toISOString values params
  = Return (map (fun v => Mutator.json_clone toISOString (VObj v)) values).
Proof.
  intros Hnone. induction values as [|v values IH]; [reflexivity|].
  cbn [Mutator.select_all map]. rewrite IH.
  unfold Mutator._select, Mutator.select.
  rewrite select_fields_push, Hnone. reflexivity.
Qed.

Lemma find_selected (filterQuery : Value -> Result Mutator.Filtered)
    (matcher : Value -> Obj -> bool) (sorter : Value -> Obj -> Obj -> Z)
    (toISOString : Z -> string) (params : Value) (s : Mutator.Service)
    (fq : Mutator.Filtered) :
  filterQuery (Mutator.default_params params) = Return fq ->
  Mutator.select_fields (Mutator.default_params params) = None ->
  exists page,
    Mutator._find filterQuery matcher sorter toISOString params s
    = (s, Return page)
    /\ Mutator.page_items page
       = VArr (map (fun v => Mutator.json_clone toISOString (VObj v))
                 (selected matcher sorter fq
                    (records (store (Mutator._engine s))))).
Proof.
  intros Hfq Hnone. unfold Mutator._find. rewrite Hfq.
  fold (selected matcher sorter fq (records (store (Mutator._engine s)))).
  rewrite (select_all_whole toISOString _ _ Hnone).
  match goal with
  | |- context [if ?c then _ else _] => destruct c
  end; eexists; (split; [reflexivity|]); reflexivity.
Qed.

Lemma first_error_all (vs : list Value) :
  Mutator.first_error (map Return vs) = Return vs.
Proof.
  induction vs as [|v vs IH]; [reflexivity|].
  cbn [map Mutator.first_error fold_right] in *.
  unfold Mutator.first_error in IH. rewrite IH. reflexivity.
Qed.

(** ** One removal, and the fan-out over the selection *)

Lemma remove_one_effect (id params : Value) (now : Z) (s : Mutator.Service)
    (v gone : Obj) :
  found_by_id (records (store (Mutator._engine s))) id = Some v ->
  well_formed v ->
  find (same_id v) (records (store (Mutator._engine s))) = Some gone ->
  let params' := Mutator.push_select params Mutator._alwaysSelect in
  exists s',
    Mutator.remove_one id params now s
    = (s', Mutator.select params Mutator._alwaysSelect (VObj gone))
    /\ records (store (Mutator._engine s'))
       = remove_first (same_id v) (records (store (Mutator._engine s)))
    /\ queued (store (Mutator._engine s'))
       = queued (store (Mutator._engine s))
         ++ [mkQueued "remove" (VObj v) [id; params']]
    /\ Mutator.started s'
       = Mutator.started s ++ [mkInvocation "remove" id params' VUndefined]
    /\ syncedAt (store (Mutator._engine s'))
       = syncedAt (store (Mutator._engine s))
    /\ BaseReplicator.connected (Mutator._replicator s')
       = BaseReplicator.connected (Mutator._replicator s).
Proof.
  intros Hf Hwf Hgone. cbv zeta.
  destruct (found_by_id_at _ _ _ Hf) as [Hidx Hat].
  pose proof (mutateStore_removed_returns v (VNum 1) now (Mutator._engine s))
    as Hret.
  pose proof (mutateStore_records "removed" v (VNum 1) now (Mutator._engine s))
    as Hrec.
  pose proof (mutateStore_config "removed" v (VNum 1) now (Mutator._engine s))
    as (_ & _ & Hq & Hsync & Hl & _).
  cbv zeta in Hrec, Hq, Hsync, Hl. simpl orb in Hrec. cbv iota in Hrec.
  rewrite Hgone in Hret.
  destruct (_mutateStore "removed" v (VNum 1) now (Mutator._engine s))
    as [e1 newData] eqn:Hm.
  cbn [fst snd] in *. subst newData.
  eexists. split.
  - unfold Mutator.remove_one.
    rewrite Hidx, Hat, (shallowClone_well_formed v Hwf), Hm. reflexivity.
  - unfold BaseReplicator.connected. cbn.
    rewrite Hq, Hrec, Hsync, Hl. repeat split.
Qed.

Lemma fan_out_removes (filterQuery : Value -> Result Mutator.Filtered)
    (matcher : Value -> Obj -> bool) (sorter : Value -> Obj -> Obj -> Z)
    (toISOString : Z -> string) (depth : nat) (P : Value) (now : Z) :
  Mutator.default_params P = P ->
  Mutator.select_fields P = None ->
  forall (values : list Obj) (s : Mutator.Service),
    BaseReplicator.connected (Mutator._replicator s) = true ->
    numbered (records (store (Mutator._engine s))) ->
    NoDup values ->
    incl values (records (store (Mutator._engine s))) ->
    exists s',
      Mutator.fan_out
        (fun id' s' =>
           Mutator._remove filterQuery matcher sorter toISOString depth id' P
             now s')
        (map (fun v => Mutator.json_clone toISOString (VObj v)) values) s
      = Some (s', map (fun v => Return (VObj v)) values)
      /\ records (store (Mutator._engine s'))
         = filter (spared values) (records (store (Mutator._engine s)))
      /\ queued (store (Mutator._engine s'))
         = queued (store (Mutator._engine s))
           ++ map (fun v => mkQueued "remove" (VObj v) [getProp v "id"; P])
                values
      /\ Mutator.started s'
         = Mutator.started s
           ++ map (fun v => mkInvocation "remove" (getProp v "id") P
                              VUndefined) values
      /\ syncedAt (store (Mutator._engine s'))
         = syncedAt (store (Mutator._engine s)).
Proof.
  intros HP Hnone values.
  induction values as [|v vs IH]; intros s Hconn Hnum Hnd Hincl.
  - exists s. cbn. rewrite !app_nil_r. repeat split.
    symmetry. apply filter_all. reflexivity.
  - assert (Hv : In v (records (store (Mutator._engine s))))
      by (apply Hincl; left; reflexivity).
    destruct (numbered_id _ v Hnum Hv) as ([n Hn] & _ & Hwf & _).
    destruct (numbered_found _ v Hnum Hv) as [Hfound Hgone].
    destruct (json_clone_id toISOString v n Hn) as (o & Ho & Hoid).
    destruct (remove_one_effect (getProp v "id") P now s v v Hfound Hwf Hgone)
      as (s1 & Hone & Hrec1 & Hq1 & Hst1 & Hsync1 & Hconn1).
    cbv zeta in Hq1, Hst1.
    rewrite (push_select_none P _ Hnone) in Hq1, Hst1.
    destruct (select_keeps_always P v) as (o' & Hsel & _ & Hwhole).
    rewrite (Hwhole Hnone) in Hsel. rewrite Hsel in Hone.
    inversion Hnd as [|? ? Hvs Hnd']; subst.
    assert (Hrec1' : records (store (Mutator._engine s1))
                     = filter (fun x => negb (same_id v x))
                         (records (store (Mutator._engine s)))).
    { rewrite Hrec1. apply (remove_first_unique _ _ v).
      - apply numbered_NoDup. exact Hnum.
      - intros x Hx Hp. apply (numbered_same_id _ v x Hnum Hv Hx). exact Hp. }
    destruct (IH s1) as (s' & Hfan & Hrec & Hq & Hst & Hsync).
    + rewrite Hconn1. exact Hconn.
    + rewrite Hrec1'. apply numbered_filter. exact Hnum.
    + exact Hnd'.
    + intros x Hx. rewrite Hrec1'. apply filter_In.
      assert (Hxr : In x (records (store (Mutator._engine s))))
        by (apply Hincl; right; exact Hx).
      split; [exact Hxr|]. apply negb_true_iff.
      destruct (same_id v x) eqn:Hsame; [|reflexivity].
      apply (numbered_same_id _ v x Hnum Hv Hxr) in Hsame. subst x.
      contradiction.
    + exists s'. split.
      * cbn [map Mutator.fan_out]. rewrite Ho.
        unfold js_get at 1. cbn [readProp]. rewrite Hoid, <- Hn.
        assert (Hcall :
                  Mutator._remove filterQuery matcher sorter toISOString depth
                    (getProp v "id") P now s
                  = Some (s1, Return (VObj v))).
        { destruct depth; cbn [Mutator._remove];
            unfold Mutator._checkConnected; rewrite Hconn, Hn;
            cbn [strict_eq]; cbv iota; rewrite <- Hn, HP, Hone; reflexivity. }
        rewrite Hcall, Hfan. reflexivity.
      * rewrite Hrec, Hq, Hst, Hsync, Hrec1', Hq1, Hst1, Hsync1.
        rewrite filter_twice, <- !app_assoc. repeat split.
        apply filter_ext. intros x. unfold spared. cbn [existsb].
        rewrite negb_orb. reflexivity.
Qed.

(** X28.  [remove(null, params)] removes what the query selects.  On a
    connected replicator whose stored records carry numbers for ids, each
    once, for params that [filterQuery] accepts and that name no
    [$select]: the call returns the selected records in the order of the
    selection; the store keeps exactly the records that were not
    selected, in their order; and for every selected record, in that
    order, one ['remove'] entry is at the end of the queue and one remote
    [remove] has been started, with the id of the record and the
    params. *)
Theorem remove_null_removes_selected
    (filterQuery : Value -> Result Mutator.Filtered)
    (matcher : Value -> Obj -> bool) (sorter : Value -> Obj -> Obj -> Z)
    (toISOString : Z -> string) (depth : nat) (params : Value) (now : Z)
    (s : Mutator.Service) (fq : Mutator.Filtered) :
  BaseReplicator.connected (Mutator._replicator s) = true ->
  filterQuery (Mutator.default_params params) = Return fq ->
  Mutator.select_fields (Mutator.default_params params) = None ->
  numbered (records (store (Mutator._engine s))) ->
  let rs := records (store (Mutator._engine s)) in
  let values := selected matcher sorter fq rs in
  let P := Mutator.default_params params in
  exists s',
    Mutator._remove filterQuery matcher sorter toISOString (S depth) VNull
      params now s = Some (s', Return (VArr (map VObj values)))
    /\ records (store (Mutator._engine s')) = filter (spared values) rs
    /\ (forall r, In r (records (store (Mutator._engine s')))
                  <-> In r rs /\ ~ In r values)
    /\ queued (store (Mutator._engine s'))
       = queued (store (Mutator._engine s))
         ++ map (fun v => mkQueued "remove" (VObj v) [getProp v "id"; P])
              values
    /\ Mutator.started s'
       = Mutator.started s
         ++ map (fun v => mkInvocation "remove" (getProp v "id") P VUndefined)
              values.
Proof.
  intros Hconn Hfq Hnone Hnum. cbv zeta.
  pose proof (default_params_twice params) as HP.
  pose proof (selected_incl matcher sorter fq
                (records (store (Mutator._engine s)))) as Hincl.
  pose proof (selected_NoDup matcher sorter fq _ (numbered_NoDup _ Hnum))
    as Hnd.
  destruct (fan_out_removes filterQuery matcher sorter toISOString depth
              (Mutator.default_params params) now HP Hnone _ s Hconn Hnum
              Hnd Hincl) as (s' & Hfan & Hrec & Hq & Hst & _).
  destruct (find_selected filterQuery matcher sorter toISOString
              (Mutator.default_params params) s fq) as (page & Hfind & Hpage);
    [rewrite HP; exact Hfq|rewrite HP; exact Hnone|].
  exists s'. split.
  - cbn [Mutator._remove]. unfold Mutator._checkConnected. rewrite Hconn.
    cbn [strict_eq]. cbv iota. unfold Mutator.fanned.
    rewrite Hfind, Hpage, Hfan.
    rewrite <- (map_map VObj Return), first_error_all. reflexivity.
  - split; [exact Hrec|]. split; [|split; [exact Hq|exact Hst]].
    intros r. rewrite Hrec, filter_In. split.
    + intros [Hr Hsp]. split; [exact Hr|].
      apply (spared_iff _ _ r Hnum Hincl Hr). exact Hsp.
    + intros [Hr Hnin]. split; [exact Hr|].
      apply (spared_iff _ _ r Hnum Hincl Hr). exact Hnin.
Qed.

Lemma remove_null_removes_selected_witness :
  numbered (records (store (Mutator._engine live_service)))
  /\ exists s',
       Mutator._remove plain_filterQuery any_matcher no_sorter sample_ISO 1
         VNull VUndefined 7 live_service
       = Some (s', Return (VArr (map VObj seeds)))
       /\ records (store (Mutator._engine s')) = [].
Proof.
  assert (Hnum : numbered (records (store (Mutator._engine live_service)))).
  { split.
    - repeat (constructor;
              [split; [eexists; reflexivity|];
               split; [reflexivity|];
               repeat constructor; simpl; intuition discriminate|]).
      constructor.
    - repeat constructor; simpl; intuition discriminate. }
  split; [exact Hnum|].
  destruct (remove_null_removes_selected plain_filterQuery any_matcher
              no_sorter sample_ISO 0 VUndefined 7 live_service
              (Mutator.mkFiltered (VObj []) None None None VUndefined))
    as (s' & Hcall & Hrec & _).
  - reflexivity.
  - reflexivity.
  - reflexivity.
  - exact Hnum.
  - exists s'. split; [exact Hcall|]. rewrite Hrec. reflexivity.
Defined.
